(** * run-db: the transaction dependency engine of [src/database.js]

    A shallow embedding of the [Database] class: the SQLite tables it keeps,
    the in-memory graph of [UnexecutedTx] objects, the trust and ban sets,
    the counter of queued transactions and the callbacks it fires.

    Conventions of the embedding.
    - [UnexecutedTx] objects are JavaScript objects with identity: the map
      [unexecuted] and the [upstream]/[downstream] sets hold references, and
      an object taken out of the map is still reachable from the sets of its
      neighbours.  Objects live in a [heap] indexed by addresses.
    - A JavaScript [Set] iterates in insertion order: it is a list without
      duplicates, [Set_add] appends, [Set_delete] removes.
    - Every method is a function in the monad [M]: it threads the whole
      [Database], may throw (a JavaScript exception, [Threw]) and, where the
      source recurses, takes [fuel] bounding the depth of the recursion
      ([OutOfFuel] when it is exhausted).
    - [transaction f] is better-sqlite3's [db.transaction(f)()]: the tables
      are rolled back when [f] throws, the in-memory objects are not.
    - A callback slot ([onReadyToExecute], ...) is an observer: the call is
      appended to [emitted], with the number of store transactions open at
      the moment of the call.
    - The database is open ([this.db] is set); [WEBHOOK_URL] is not exported
      by [config.js], so [submitToHook] returns at its first line. *)

From stdpp Require Import gmap strings list fin_maps.
From Stdlib Require Import ZArith.

Open Scope string_scope.
Open Scope list_scope.
Open Scope nat_scope.

#[global] Set Warnings "-clear-no-such-hyp".

Abbreviation Txid := string (only parsing).
Abbreviation Location := string (only parsing).
Abbreviation Addr := nat (only parsing).

(** ** Data model *)

(** [class UnexecutedTx].  [hasCode] is [null] ([None]) until the transaction
    is parsed. *)
Record UnexecutedTx := mkUnexecutedTx {
  txid : Txid;
  downloaded : bool;
  hasCode : option bool;
  queuedForExecution : bool;
  upstream : list Addr;
  downstream : list Addr
}.

(** [new UnexecutedTx(txid, downloaded, hasCode)] *)
Definition newUnexecutedTx (t : Txid) (d : bool) (c : option bool) : UnexecutedTx :=
  mkUnexecutedTx t d c false [] [].

(** A row of table [tx] (schema v2).  The 0/1 integer columns are booleans. *)
Record TxRow := mkTxRow {
  height : option Z;
  time : option Z;
  bytes : option string;
  has_code : bool;
  executable : bool;
  executed : bool;
  indexed : bool
}.

Record JigRow := mkJigRow {
  jig_state : string;
  jig_class : option string;
  jig_lock : option string;
  jig_scripthash : option string
}.

(** The persistent tables.  [t_deps] keeps rows [(up, down)] in insertion
    order; SQLite leaves the order of a [SELECT] without [ORDER BY] open. *)
Record Tables := mkTables {
  t_tx : gmap string TxRow;
  t_deps : list (string * string);
  t_jig : gmap string JigRow;
  t_berry : gmap string string;
  t_spends : gmap string (option string);
  t_trust : gmap string Z;
  t_ban : gset string;
  t_crawl : option (Z * option string)
}.

(** The callback slots of the [Database] object. *)
Inductive Event :=
| onReadyToExecute (t : Txid)
| onAddTransaction (t : Txid)
| onDeleteTransaction (t : Txid)
| onTrustTransaction (t : Txid)
| onUntrustTransaction (t : Txid)
| onBanTransaction (t : Txid)
| onUnbanTransaction (t : Txid)
| onUnindexTransaction (t : Txid).

#[global] Instance Event_eq_dec : EqDecision Event.
Proof. solve_decision. Defined.

(** [class Database]: the tables, the objects, and the trace of callbacks. *)
Record Database := mkDatabase {
  db : Tables;
  heap : gmap nat UnexecutedTx;
  nextAddr : nat;
  unexecuted : gmap string nat;
  trustlist : gset string;
  banlist : gset string;
  numQueuedForExecution : Z;
  txDepth : nat;
  emitted : list (Event * nat)
}.

(** Field updates. *)
Definition upd_tx (f : gmap string TxRow → gmap string TxRow) (t : Tables) : Tables :=
  mkTables (f (t_tx t)) (t_deps t) (t_jig t) (t_berry t) (t_spends t) (t_trust t) (t_ban t) (t_crawl t).
Definition upd_deps (f : list (string * string) → list (string * string)) (t : Tables) : Tables :=
  mkTables (t_tx t) (f (t_deps t)) (t_jig t) (t_berry t) (t_spends t) (t_trust t) (t_ban t) (t_crawl t).
Definition upd_jig (f : gmap string JigRow → gmap string JigRow) (t : Tables) : Tables :=
  mkTables (t_tx t) (t_deps t) (f (t_jig t)) (t_berry t) (t_spends t) (t_trust t) (t_ban t) (t_crawl t).
Definition upd_berry (f : gmap string string → gmap string string) (t : Tables) : Tables :=
  mkTables (t_tx t) (t_deps t) (t_jig t) (f (t_berry t)) (t_spends t) (t_trust t) (t_ban t) (t_crawl t).
Definition upd_spends (f : gmap string (option string) → gmap string (option string)) (t : Tables) : Tables :=
  mkTables (t_tx t) (t_deps t) (t_jig t) (t_berry t) (f (t_spends t)) (t_trust t) (t_ban t) (t_crawl t).
Definition upd_trust (f : gmap string Z → gmap string Z) (t : Tables) : Tables :=
  mkTables (t_tx t) (t_deps t) (t_jig t) (t_berry t) (t_spends t) (f (t_trust t)) (t_ban t) (t_crawl t).
Definition upd_ban (f : gset string → gset string) (t : Tables) : Tables :=
  mkTables (t_tx t) (t_deps t) (t_jig t) (t_berry t) (t_spends t) (t_trust t) (f (t_ban t)) (t_crawl t).
Definition upd_crawl (f : option (Z * option string) → option (Z * option string)) (t : Tables) : Tables :=
  mkTables (t_tx t) (t_deps t) (t_jig t) (t_berry t) (t_spends t) (t_trust t) (t_ban t) (f (t_crawl t)).

Definition upd_db (f : Tables → Tables) (s : Database) : Database :=
  mkDatabase (f (db s)) (heap s) (nextAddr s) (unexecuted s) (trustlist s) (banlist s)
             (numQueuedForExecution s) (txDepth s) (emitted s).
Definition upd_heap (f : gmap nat UnexecutedTx → gmap nat UnexecutedTx) (s : Database) : Database :=
  mkDatabase (db s) (f (heap s)) (nextAddr s) (unexecuted s) (trustlist s) (banlist s)
             (numQueuedForExecution s) (txDepth s) (emitted s).
Definition upd_nextAddr (f : nat → nat) (s : Database) : Database :=
  mkDatabase (db s) (heap s) (f (nextAddr s)) (unexecuted s) (trustlist s) (banlist s)
             (numQueuedForExecution s) (txDepth s) (emitted s).
Definition upd_unexecuted (f : gmap string nat → gmap string nat) (s : Database) : Database :=
  mkDatabase (db s) (heap s) (nextAddr s) (f (unexecuted s)) (trustlist s) (banlist s)
             (numQueuedForExecution s) (txDepth s) (emitted s).
Definition upd_trustlist (f : gset string → gset string) (s : Database) : Database :=
  mkDatabase (db s) (heap s) (nextAddr s) (unexecuted s) (f (trustlist s)) (banlist s)
             (numQueuedForExecution s) (txDepth s) (emitted s).
Definition upd_banlist (f : gset string → gset string) (s : Database) : Database :=
  mkDatabase (db s) (heap s) (nextAddr s) (unexecuted s) (trustlist s) (f (banlist s))
             (numQueuedForExecution s) (txDepth s) (emitted s).
Definition upd_num (f : Z → Z) (s : Database) : Database :=
  mkDatabase (db s) (heap s) (nextAddr s) (unexecuted s) (trustlist s) (banlist s)
             (f (numQueuedForExecution s)) (txDepth s) (emitted s).
Definition upd_txDepth (f : nat → nat) (s : Database) : Database :=
  mkDatabase (db s) (heap s) (nextAddr s) (unexecuted s) (trustlist s) (banlist s)
             (numQueuedForExecution s) (f (txDepth s)) (emitted s).
Definition upd_emitted (f : list (Event * nat) → list (Event * nat)) (s : Database) : Database :=
  mkDatabase (db s) (heap s) (nextAddr s) (unexecuted s) (trustlist s) (banlist s)
             (numQueuedForExecution s) (txDepth s) (f (emitted s)).

(** The state of [new Database(path, logger)] once [open()] has created the
    empty tables: the crawl tip row is [('tip', 0, NULL)]; the seed of the
    trust table is the argument. *)
Definition emptyTables : Tables :=
  mkTables ∅ [] ∅ ∅ ∅ ∅ ∅ (Some (0%Z, None)).

Definition emptyDatabase : Database :=
  mkDatabase emptyTables ∅ 0 ∅ ∅ ∅ 0%Z 0 [].

(** ** JavaScript [Set] of object references *)

Definition Set_add (a : Addr) (l : list Addr) : list Addr :=
  if bool_decide (a ∈ l) then l else l ++ [a].

Definition Set_delete (a : Addr) (l : list Addr) : list Addr :=
  filter (λ b, b ≠ a) l.

(** JavaScript truthiness of [tx.hasCode] ([null], [false], [true]). *)
Definition truthy (c : option bool) : bool :=
  match c with Some true => true | _ => false end.

(** Dereferencing.  Every reference held by the program is allocated; the
    default only makes the function total. *)
Definition theNode (h : gmap nat UnexecutedTx) (a : Addr) : UnexecutedTx :=
  default (newUnexecutedTx "" false None) (h !! a).

Definition set_downloaded (b : bool) (n : UnexecutedTx) : UnexecutedTx :=
  mkUnexecutedTx (txid n) b (hasCode n) (queuedForExecution n) (upstream n) (downstream n).
Definition set_hasCode (c : option bool) (n : UnexecutedTx) : UnexecutedTx :=
  mkUnexecutedTx (txid n) (downloaded n) c (queuedForExecution n) (upstream n) (downstream n).
Definition set_queued (b : bool) (n : UnexecutedTx) : UnexecutedTx :=
  mkUnexecutedTx (txid n) (downloaded n) (hasCode n) b (upstream n) (downstream n).
Definition upd_upstream (f : list Addr → list Addr) (n : UnexecutedTx) : UnexecutedTx :=
  mkUnexecutedTx (txid n) (downloaded n) (hasCode n) (queuedForExecution n) (f (upstream n)) (downstream n).
Definition upd_downstream (f : list Addr → list Addr) (n : UnexecutedTx) : UnexecutedTx :=
  mkUnexecutedTx (txid n) (downloaded n) (hasCode n) (queuedForExecution n) (upstream n) (f (downstream n)).

(** ** The monad of the methods *)

Inductive Outcome (A : Type) :=
| Ok (a : A) (s : Database)
| Threw (s : Database)
| OutOfFuel.
Arguments Ok {A} a s.
Arguments Threw {A} s.
Arguments OutOfFuel {A}.

Definition M (A : Type) : Type := Database → Outcome A.

Definition ret {A} (a : A) : M A := λ s, Ok a s.

Definition bind {A B} (m : M A) (k : A → M B) : M B :=
  λ s, match m s with
       | Ok a s' => k a s'
       | Threw s' => Threw s'
       | OutOfFuel => OutOfFuel
       end.

Declare Scope db_scope.
Delimit Scope db_scope with db.
Notation "x <- m ;; k" := (bind m (λ x, k))
  (at level 100, m at next level, right associativity) : db_scope.
Notation "m ;; k" := (bind m (λ _, k))
  (at level 100, right associativity) : db_scope.
Open Scope db_scope.

Definition get : M Database := λ s, Ok s s.
Definition modify (f : Database → Database) : M unit := λ s, Ok tt (f s).
Definition throw {A} : M A := λ s, Threw s.
Definition outOfFuel {A} : M A := λ _, OutOfFuel.

(** [if (this.onX) this.onX(txid)] *)
Definition emit (e : Event) : M unit :=
  λ s, Ok tt (upd_emitted (λ l, l ++ [(e, txDepth s)]) s).

(** [for (const x of l) f(x)] and [l.forEach(f)] *)
Fixpoint forEach {B} (l : list B) (f : B → M unit) : M unit :=
  match l with
  | [] => ret tt
  | b :: l' => f b ;; forEach l' f
  end.

(** [transaction (f)]: [this.db.transaction(f)()].  A nested call is a
    savepoint.  On an exception the tables go back to their state at the
    start of the transaction and the exception is thrown again. *)
Definition transaction {A} (f : M A) : M A :=
  λ s, match f (upd_txDepth S s) with
       | Ok a s' => Ok a (upd_txDepth pred s')
       | Threw s' => Threw (upd_txDepth pred (upd_db (λ _, db s) s'))
       | OutOfFuel => OutOfFuel
       end.

(** ** The prepared statements

    Each statement of [open()] is a function on the tables, named as in the
    source; the arguments are those of [.run(...)], in the same order.
    Txids are lowercase hexadecimal strings, so [LIKE txid || '%'] is a
    prefix test. *)

Definition set_height (v : option Z) (r : TxRow) : TxRow :=
  mkTxRow v (time r) (bytes r) (has_code r) (executable r) (executed r) (indexed r).
Definition set_time (v : option Z) (r : TxRow) : TxRow :=
  mkTxRow (height r) v (bytes r) (has_code r) (executable r) (executed r) (indexed r).
Definition set_bytes (v : option string) (r : TxRow) : TxRow :=
  mkTxRow (height r) (time r) v (has_code r) (executable r) (executed r) (indexed r).
Definition set_has_code (v : bool) (r : TxRow) : TxRow :=
  mkTxRow (height r) (time r) (bytes r) v (executable r) (executed r) (indexed r).
Definition set_executable (v : bool) (r : TxRow) : TxRow :=
  mkTxRow (height r) (time r) (bytes r) (has_code r) v (executed r) (indexed r).
Definition set_executed (v : bool) (r : TxRow) : TxRow :=
  mkTxRow (height r) (time r) (bytes r) (has_code r) (executable r) v (indexed r).
Definition set_indexed (v : bool) (r : TxRow) : TxRow :=
  mkTxRow (height r) (time r) (bytes r) (has_code r) (executable r) (executed r) v.

Definition HEIGHT_MEMPOOL : Z := (-1)%Z.

(** [INSERT OR IGNORE INTO tx (txid, height, time, bytes, has_code,
    executable, executed, indexed) VALUES (?, ?, null, null, 0, 0, 0, 0)]:
    the two placeholders are the columns [txid] and [height]; [time] is the
    literal [null]. *)
Definition addNewTransactionStmt (id : Txid) (h : option Z) : Tables → Tables :=
  upd_tx (λ m, match m !! id with
               | Some _ => m
               | None => <[id := mkTxRow h None None false false false false]> m
               end).

Definition setTransactionBytesStmt (b : string) (id : Txid) : Tables → Tables :=
  upd_tx (alter (set_bytes (Some b)) id).
Definition setTransactionExecutableStmt (v : bool) (id : Txid) : Tables → Tables :=
  upd_tx (alter (set_executable v) id).
Definition setTransactionTimeStmt (v : option Z) (id : Txid) : Tables → Tables :=
  upd_tx (alter (set_time v) id).
Definition setTransactionHeightStmt (v : option Z) (id : Txid) : Tables → Tables :=
  upd_tx (alter (λ r, if bool_decide (height r = None ∨ height r = Some HEIGHT_MEMPOOL)
                      then set_height v r else r) id).
Definition setTransactionHasCodeStmt (v : bool) (id : Txid) : Tables → Tables :=
  upd_tx (alter (set_has_code v) id).
Definition setTransactionExecutedStmt (v : bool) (id : Txid) : Tables → Tables :=
  upd_tx (alter (set_executed v) id).
Definition setTransactionIndexedStmt (v : bool) (id : Txid) : Tables → Tables :=
  upd_tx (alter (set_indexed v) id).
Definition deleteTransactionStmt (id : Txid) : Tables → Tables :=
  upd_tx (delete id).
Definition unconfirmTransactionStmt (id : Txid) : Tables → Tables :=
  upd_tx (alter (set_height (Some HEIGHT_MEMPOOL)) id).

(** The [SELECT]s return [undefined] ([None]) when there is no row. *)
Definition hasTransactionStmt (t : Tables) (id : Txid) : option Txid :=
  (λ _, id) <$> t_tx t !! id.
Definition getTransactionHexStmt (t : Tables) (id : Txid) : option (option string) :=
  bytes <$> t_tx t !! id.
Definition getTransactionTimeStmt (t : Tables) (id : Txid) : option (option Z) :=
  time <$> t_tx t !! id.
Definition getTransactionHeightStmt (t : Tables) (id : Txid) : option (option Z) :=
  height <$> t_tx t !! id.
Definition getTransactionHasCodeStmt (t : Tables) (id : Txid) : option bool :=
  has_code <$> t_tx t !! id.
Definition getTransactionIndexedStmt (t : Tables) (id : Txid) : option bool :=
  indexed <$> t_tx t !! id.
Definition getTransactionDownloadedStmt (t : Tables) (id : Txid) : option bool :=
  (λ r, bool_decide (bytes r ≠ None)) <$> t_tx t !! id.

Definition setSpendStmt (location : Location) (id : Txid) : Tables → Tables :=
  upd_spends (<[location := Some id]>).
Definition setUnspentStmt (location : Location) : Tables → Tables :=
  upd_spends (λ m, match m !! location with Some _ => m | None => <[location := None]> m end).
Definition getSpendStmt (t : Tables) (location : Location) : option (option Txid) :=
  t_spends t !! location.
Definition unspendOutputsStmt (id : Txid) : Tables → Tables :=
  upd_spends (fmap (λ v, if bool_decide (v = Some id) then None else v)).
Definition deleteSpendsStmt (id : Txid) : Tables → Tables :=
  upd_spends (filter (λ kv, String.prefix id kv.1 = false)).

Definition addDepStmt (up down : Txid) : Tables → Tables :=
  upd_deps (λ l, if bool_decide ((up, down) ∈ l) then l else l ++ [(up, down)]).
Definition deleteDepsStmt (down : Txid) : Tables → Tables :=
  upd_deps (filter (λ e, e.2 ≠ down)).
Definition getDownstreamStmt (t : Tables) (up : Txid) : list Txid :=
  snd <$> filter (λ e, e.1 = up) (t_deps t).
Definition executableNotExecuted (t : Tables) (id : Txid) : bool :=
  match t_tx t !! id with
  | Some r => executable r && negb (executed r)
  | None => false
  end.
Definition getUpstreamUnexecutedStmt (t : Tables) (down : Txid) : list Txid :=
  filter (λ u, executableNotExecuted t u = true)
         (fst <$> filter (λ e, e.2 = down) (t_deps t)).

Definition setJigStateStmt (location : Location) (state : string) : Tables → Tables :=
  upd_jig (λ m, match m !! location with
                | Some _ => m
                | None => <[location := mkJigRow state None None None]> m
                end).
Definition setJigClassStmt (cls : string) (location : Location) : Tables → Tables :=
  upd_jig (alter (λ r, mkJigRow (jig_state r) (Some cls) (jig_lock r) (jig_scripthash r)) location).
Definition setJigLockStmt (lock : string) (location : Location) : Tables → Tables :=
  upd_jig (alter (λ r, mkJigRow (jig_state r) (jig_class r) (Some lock) (jig_scripthash r)) location).
Definition setJigScripthashStmt (scripthash : string) (location : Location) : Tables → Tables :=
  upd_jig (alter (λ r, mkJigRow (jig_state r) (jig_class r) (jig_lock r) (Some scripthash)) location).
Definition getJigStateStmt (t : Tables) (location : Location) : option string :=
  jig_state <$> t_jig t !! location.
Definition deleteJigStatesStmt (id : Txid) : Tables → Tables :=
  upd_jig (filter (λ kv, String.prefix id kv.1 = false)).

Definition setBerryStateStmt (location : Location) (state : string) : Tables → Tables :=
  upd_berry (λ m, match m !! location with Some _ => m | None => <[location := state]> m end).
Definition getBerryStateStmt (t : Tables) (location : Location) : option string :=
  t_berry t !! location.
Definition deleteBerryStatesStmt (id : Txid) : Tables → Tables :=
  upd_berry (filter (λ kv, String.prefix id kv.1 = false)).

Definition setTrustedStmt (id : Txid) (value : Z) : Tables → Tables :=
  upd_trust (<[id := value]>).
Definition banStmt (id : Txid) : Tables → Tables := upd_ban (λ b, b ∪ {[id]}).
Definition unbanStmt (id : Txid) : Tables → Tables := upd_ban (λ b, b ∖ {[id]}).

Definition setHeightAndHashStmt (h : Z) (hash : option string) : Tables → Tables :=
  upd_crawl (fmap (λ _, (h, hash))).

(** [stmt.run(...)] *)
Definition run (stmt : Tables → Tables) : M unit := modify (upd_db stmt).

(** [new UnexecutedTx(...)]: a fresh object. *)
Definition alloc (n : UnexecutedTx) : M Addr :=
  λ s, Ok (nextAddr s) (upd_nextAddr S (upd_heap (<[nextAddr s := n]>) s)).

(** A field write on the object at [a]. *)
Definition write (a : Addr) (f : UnexecutedTx → UnexecutedTx) : M unit :=
  modify (upd_heap (alter f a)).

(** [{ cache, classes, locks, scripthashes }]: the result bundle of the
    executor.  [cache] lists the keys in the order of [Object.keys], each
    with its state already serialised by [JSON.stringify]. *)
Record Result := mkResult {
  cache : list (string * string);
  classes : list (Location * string);
  locks : list (Location * string);
  scripthashes : list (Location * string)
}.

(** [key.slice(n)] *)
Definition slice (n : nat) (key : string) : string :=
  String.substring n (String.length key - n) key.

Definition isEmpty {A} (l : list A) : bool :=
  match l with [] => true | _ => false end.

(** [l.reduce] with the accumulator threaded through the monad: used where
    the source passes one mutable [Set] down a recursion. *)
Fixpoint foldM {A B} (l : list B) (acc : A) (f : A → B → M A) : M A :=
  match l with
  | [] => ret acc
  | b :: l' => acc' <- f acc b ;; foldM l' acc' f
  end.

(** ** The methods of [Database] *)

Section Engine.

(** [Run.util.metadata(rawtx)] of the run-sdk package decides in
    [setTransactionExecutionFailed] whether the stored bytes are still those
    of an executable transaction: [true] when the call returns, [false] when
    it throws.  The package is not part of the repository; the classifier is
    a parameter.  Its argument is what [getTransactionHex] returned:
    [undefined] ([None]), [null] ([Some None]) or the hex string. *)
Variable metadata : option (option string) → bool.

Definition hasTransaction (s : Database) (id : Txid) : bool :=
  match hasTransactionStmt (db s) id with Some _ => true | None => false end.

(** [row && row[0]] *)
Definition getTransactionHex (s : Database) (id : Txid) : option (option string) :=
  getTransactionHexStmt (db s) id.
Definition getTransactionTime (s : Database) (id : Txid) : option (option Z) :=
  getTransactionTimeStmt (db s) id.
Definition getTransactionHeight (s : Database) (id : Txid) : option (option Z) :=
  getTransactionHeightStmt (db s) id.
Definition getNumQueuedForExecution (s : Database) : Z := numQueuedForExecution s.
Definition isTrusted (s : Database) (id : Txid) : bool := bool_decide (id ∈ trustlist s).
Definition isBanned (s : Database) (id : Txid) : bool := bool_decide (id ∈ banlist s).

Definition setTransactionHeight (id : Txid) (h : option Z) : M unit :=
  run (setTransactionHeightStmt h id).
Definition setTransactionTime (id : Txid) (t : option Z) : M unit :=
  run (setTransactionTimeStmt t id).
Definition unconfirmTransaction (id : Txid) : M unit :=
  run (unconfirmTransactionStmt id).

(** The expression of [_checkExecutability] when no value is forced:
    [tx.downloaded && (!tx.hasCode || this.trustlist.has(tx.txid)) &&
     !this.banlist.has(tx.txid) &&
     !Array.from(tx.upstream).some(uptx => !uptx.queuedForExecution)] *)
Definition ready (s : Database) (tx : UnexecutedTx) : bool :=
  downloaded tx
  && (negb (truthy (hasCode tx)) || bool_decide (txid tx ∈ trustlist s))
  && negb (bool_decide (txid tx ∈ banlist s))
  && negb (existsb (λ uptx, negb (queuedForExecution (theNode (heap s) uptx))) (upstream tx)).

(** [_checkExecutability (tx, forceQueuedForExecution)]; the second argument
    is [undefined] ([None]) or the forced value. *)
Fixpoint _checkExecutability (fuel : nat) (tx : Addr) (forceQueuedForExecution : option bool)
  : M unit :=
  match fuel with
  | 0 => outOfFuel
  | S fuel' =>
      s <- get ;;
      let n := theNode (heap s) tx in
      let queued := match forceQueuedForExecution with
                    | Some b => b
                    | None => ready s n
                    end in
      if Bool.eqb queued (queuedForExecution n) then ret tt
      else
        modify (upd_num (if queued then Z.succ else Z.pred)) ;;
        write tx (set_queued queued) ;;
        (if isEmpty (upstream n) && queued then emit (onReadyToExecute (txid n)) else ret tt) ;;
        forEach (downstream n) (λ downtx, _checkExecutability fuel' downtx None)
  end.

(** [addNewTransaction (txid)].  [now] is [Math.round(Date.now() / 1000)]. *)
Definition addNewTransaction (now : Z) (id : Txid) : M unit :=
  s <- get ;;
  if hasTransaction s id then ret tt
  else
    run (addNewTransactionStmt id (Some now)) ;;
    emit (onAddTransaction id) ;;
    s <- get ;;
    match unexecuted s !! id with
    | Some _ => ret tt
    | None =>
        tx <- alloc (newUnexecutedTx id false None) ;;
        modify (upd_unexecuted (<[id := tx]>))
    end.

(** [deptx.downstream.add(tx); tx.upstream.add(deptx)] *)
Definition link (deptx tx : Addr) : M unit :=
  write deptx (upd_downstream (Set_add tx)) ;;
  write tx (upd_upstream (Set_add deptx)).

(** [for (const downtx of tx.downstream) downtx.upstream.delete(tx)] *)
Definition detach (tx : Addr) (ds : list Addr) : M unit :=
  forEach ds (λ downtx, write downtx (upd_upstream (Set_delete tx))).

(** [for (const downtx of tx.downstream)
       if (downtx.queuedForExecution && !downtx.upstream.size)
         if (this.onReadyToExecute) this.onReadyToExecute(downtx.txid)] *)
Definition notifyReady (ds : list Addr) : M unit :=
  forEach ds (λ downtx,
    s <- get ;;
    let d := theNode (heap s) downtx in
    if queuedForExecution d && isEmpty (upstream d)
    then emit (onReadyToExecute (txid d)) else ret tt).

(** [if (tx.queuedForExecution) this.numQueuedForExecution--] *)
Definition uncount (tx : Addr) : M unit :=
  s <- get ;;
  if queuedForExecution (theNode (heap s) tx) then modify (upd_num Z.pred) else ret tt.

(** [setTransactionExecutionFailed (txid)] *)
Fixpoint setTransactionExecutionFailed (fuel : nat) (id : Txid) : M unit :=
  s <- get ;;
  match unexecuted s !! id with
  | None => ret tt
  | Some tx =>
      match fuel with
      | 0 => outOfFuel
      | S fuel' =>
          transaction (
            run (setTransactionExecutableStmt false id) ;;
            run (setTransactionExecutedStmt true id) ;;
            run (setTransactionIndexedStmt false id) ;;
            let ds := downstream (theNode (heap s) tx) in
            detach tx ds ;;
            modify (upd_unexecuted (delete id)) ;;
            uncount tx ;;
            write tx (set_queued false) ;;
            s' <- get ;;
            if metadata (getTransactionHex s' id)
            then forEach ds (λ downtx,
                   s'' <- get ;;
                   setTransactionExecutionFailed fuel' (txid (theNode (heap s'') downtx)))
            else notifyReady ds)
      end
  end.

(** [storeParsedNonExecutableTransaction (txid, hex, inputs, outputs)] *)
Definition storeParsedNonExecutableTransaction (fuel : nat) (id : Txid) (hex : string)
    (inputs outputs : list Location) : M unit :=
  transaction (
    run (setTransactionBytesStmt hex id) ;;
    run (setTransactionExecutableStmt false id) ;;
    forEach inputs (λ location, run (setSpendStmt location id)) ;;
    forEach outputs (λ location, run (setUnspentStmt location)) ;;
    s <- get ;;
    match unexecuted s !! id with
    | None => throw
    | Some tx =>
        write tx (set_downloaded true) ;;
        modify (upd_unexecuted (delete id)) ;;
        let ds := downstream (theNode (heap s) tx) in
        detach tx ds ;;
        forEach ds (λ downtx, _checkExecutability fuel downtx None)
    end).

(** The loop over [deps] of [storeParsedExecutableTransaction].  The result
    is [true] when the loop left the callback through [return], after
    [setTransactionExecutionFailed]. *)
Fixpoint linkDeps (now : Z) (fuel : nat) (id : Txid) (tx : Addr) (deps : list Txid) : M bool :=
  match deps with
  | [] => ret false
  | deptxid :: rest =>
      addNewTransaction now deptxid ;;
      run (addDepStmt deptxid id) ;;
      s <- get ;;
      match unexecuted s !! deptxid with
      | Some deptx => link deptx tx ;; linkDeps now fuel id tx rest
      | None =>
          match getTransactionIndexedStmt (db s) deptxid with
          | None => throw
          | Some false => setTransactionExecutionFailed fuel id ;; ret true
          | Some true => linkDeps now fuel id tx rest
          end
      end
  end.

(** [storeParsedExecutableTransaction (txid, hex, hasCode, deps, inputs, outputs)] *)
Definition storeParsedExecutableTransaction (now : Z) (fuel : nat) (id : Txid) (hex : string)
    (code : bool) (deps : list Txid) (inputs outputs : list Location) : M unit :=
  transaction (
    run (setTransactionBytesStmt hex id) ;;
    run (setTransactionExecutableStmt true id) ;;
    run (setTransactionHasCodeStmt code id) ;;
    forEach inputs (λ location, run (setSpendStmt location id)) ;;
    forEach outputs (λ location, run (setUnspentStmt location)) ;;
    s <- get ;;
    match unexecuted s !! id with
    | None => throw
    | Some tx =>
        write tx (set_hasCode (Some code)) ;;
        write tx (set_downloaded true) ;;
        returned <- linkDeps now fuel id tx deps ;;
        if returned : bool then ret tt else _checkExecutability fuel tx None
    end).

(** [storeExecutedTransaction (txid, result)] *)
Definition storeExecutedTransaction (id : Txid) (result : Result) : M unit :=
  s <- get ;;
  match unexecuted s !! id with
  | None => ret tt
  | Some tx =>
      transaction (
        run (setTransactionExecutedStmt true id) ;;
        run (setTransactionIndexedStmt true id) ;;
        forEach (cache result) (λ kv,
          if String.prefix "jig://" kv.1
          then run (setJigStateStmt (slice 6 kv.1) kv.2)
          else if String.prefix "berry://" kv.1
          then run (setBerryStateStmt (slice 8 kv.1) kv.2)
          else ret tt) ;;
        forEach (classes result) (λ lc, run (setJigClassStmt lc.2 lc.1)) ;;
        forEach (locks result) (λ ll, run (setJigLockStmt ll.2 ll.1)) ;;
        forEach (scripthashes result) (λ ls, run (setJigScripthashStmt ls.2 ls.1)) ;;
        let ds := downstream (theNode (heap s) tx) in
        detach tx ds ;;
        modify (upd_unexecuted (delete id)) ;;
        uncount tx ;;
        write tx (set_queued false) ;;
        notifyReady ds)
  end.

(** [deleteTransaction (txid, deleted = new Set())].  The set [deleted] is
    one object shared by the whole recursion: it is threaded through. *)
Fixpoint deleteTransaction (fuel : nat) (id : Txid) (deleted : gset string) : M (gset string) :=
  if bool_decide (id ∈ deleted) then ret deleted
  else
    match fuel with
    | 0 => outOfFuel
    | S fuel' =>
        transaction (
          run (deleteTransactionStmt id) ;;
          run (deleteJigStatesStmt id) ;;
          run (deleteBerryStatesStmt id) ;;
          run (deleteSpendsStmt id) ;;
          run (unspendOutputsStmt id) ;;
          run (deleteDepsStmt id) ;;
          s <- get ;;
          match unexecuted s !! id with
          | Some tx => uncount tx
          | None => ret tt
          end ;;
          modify (upd_unexecuted (delete id)) ;;
          emit (onDeleteTransaction id) ;;
          s' <- get ;;
          foldM (getDownstreamStmt (db s') id) (deleted ∪ {[id]})
                (λ acc downtxid, deleteTransaction fuel' downtxid acc))
    end.

(** [unindexTransaction (txid)] *)
Fixpoint unindexTransaction (fuel : nat) (id : Txid) : M unit :=
  s <- get ;;
  match unexecuted s !! id with
  | Some tx => _checkExecutability fuel tx (Some false)
  | None =>
      match fuel with
      | 0 => outOfFuel
      | S fuel' =>
          transaction (
            match getTransactionIndexedStmt (db s) id with
            | None => throw
            | Some false => ret tt
            | Some true =>
                run (setTransactionExecutedStmt false id) ;;
                run (setTransactionIndexedStmt false id) ;;
                run (deleteJigStatesStmt id) ;;
                run (deleteBerryStatesStmt id) ;;
                s1 <- get ;;
                match getTransactionDownloadedStmt (db s1) id,
                      getTransactionHasCodeStmt (db s1) id with
                | Some isDownloaded, Some code =>
                    tx <- alloc (newUnexecutedTx id isDownloaded
                                   (if isDownloaded then Some code else None)) ;;
                    forEach (getUpstreamUnexecutedStmt (db s1) id) (λ uptxid,
                      s2 <- get ;;
                      match unexecuted s2 !! uptxid with
                      | None => ret tt
                      | Some uptx =>
                          write tx (upd_upstream (Set_add uptx)) ;;
                          write uptx (upd_downstream (Set_add tx))
                      end) ;;
                    modify (upd_unexecuted (<[id := tx]>)) ;;
                    s3 <- get ;;
                    forEach (getDownstreamStmt (db s3) id)
                            (λ downtxid, unindexTransaction fuel' downtxid) ;;
                    emit (onUnindexTransaction id)
                | _, _ => throw
                end
            end)
      end
  end.

(** [addDep (tx, deptxid)] *)
Definition addDep (now : Z) (fuel : nat) (tx : Addr) (deptxid : Txid) : M unit :=
  addNewTransaction now deptxid ;;
  s <- get ;;
  run (addDepStmt deptxid (txid (theNode (heap s) tx))) ;;
  match unexecuted s !! deptxid with
  | Some deptx => link deptx tx
  | None =>
      match getTransactionIndexedStmt (db s) deptxid with
      | None => throw
      | Some false => setTransactionExecutionFailed fuel (txid (theNode (heap s) tx))
      | Some true => ret tt
      end
  end.

(** [addMissingDeps (txid, deptxids)] *)
Definition addMissingDeps (now : Z) (fuel : nat) (id : Txid) (deptxids : list Txid) : M unit :=
  s <- get ;;
  match unexecuted s !! id with
  | None => ret tt
  | Some tx =>
      transaction (
        forEach deptxids (λ deptxid, addDep now fuel tx deptxid) ;;
        _checkExecutability fuel tx None)
  end.

(** The [while (queue.length)] loop of [trust]: [queue.shift()], the test on
    [visited], the push on [trusted] and the pushes on [queue]. *)
Fixpoint trustWalk (fuel : nat) (s : Database) (queue visited : list Addr) (trusted : list Txid)
  : option (list Txid) :=
  match queue with
  | [] => Some trusted
  | tx :: queue' =>
      match fuel with
      | 0 => None
      | S fuel' =>
          if bool_decide (tx ∈ visited) then trustWalk fuel' s queue' visited trusted
          else
            let n := theNode (heap s) tx in
            trustWalk fuel' s (queue' ++ upstream n) (visited ++ [tx])
              (if truthy (hasCode n) && negb (bool_decide (txid n ∈ trustlist s))
               then trusted ++ [txid n] else trusted)
      end
  end.

(** [trust (txid)] *)
Definition trust (fuel : nat) (id : Txid) : M unit :=
  s <- get ;;
  if bool_decide (id ∈ trustlist s) then ret tt
  else
    trusted <- match unexecuted s !! id with
               | None => ret [id]
               | Some tx =>
                   match trustWalk fuel s (upstream (theNode (heap s) tx)) [] [id] with
                   | Some l => ret l
                   | None => outOfFuel
                   end
               end ;;
    transaction (
      forEach trusted (λ t, run (setTrustedStmt t 1)) ;;
      forEach trusted (λ t, modify (upd_trustlist (λ l, l ∪ {[t]})))) ;;
    forEach trusted (λ t,
      s' <- get ;;
      match unexecuted s' !! t with
      | Some tx => _checkExecutability fuel tx None
      | None => ret tt
      end) ;;
    forEach trusted (λ t, emit (onTrustTransaction t)).

(** [untrust (txid)] *)
Definition untrust (fuel : nat) (id : Txid) : M unit :=
  s <- get ;;
  if negb (bool_decide (id ∈ trustlist s)) then ret tt
  else
    transaction (
      unindexTransaction fuel id ;;
      run (setTrustedStmt id 0)) ;;
    modify (upd_trustlist (λ l, l ∖ {[id]})) ;;
    emit (onUntrustTransaction id).

(** [ban (txid)] *)
Definition ban (fuel : nat) (id : Txid) : M unit :=
  s <- get ;;
  if bool_decide (id ∈ banlist s) then ret tt
  else
    transaction (
      unindexTransaction fuel id ;;
      run (banStmt id)) ;;
    modify (upd_banlist (λ l, l ∪ {[id]})) ;;
    emit (onBanTransaction id).

(** [unban (txid)] *)
Definition unban (fuel : nat) (id : Txid) : M unit :=
  s <- get ;;
  if negb (bool_decide (id ∈ banlist s)) then ret tt
  else
    run (unbanStmt id) ;;
    modify (upd_banlist (λ l, l ∖ {[id]})) ;;
    s' <- get ;;
    match unexecuted s' !! id with
    | Some tx => _checkExecutability fuel tx None
    | None => ret tt
    end ;;
    emit (onUnbanTransaction id).

End Engine.


(** ** The queries, the crawl tip and the loaders

    The rest of the class: the read-only methods, [setHeightAndHash], and
    what [open ()] does on a database file that is already at schema v2.
    A query whose rows come from a table kept as a map lists them in the
    order of the keys; a JavaScript [Map] or [Set] lists them in the order
    of insertion.  The properties below are about membership and counts,
    which do not depend on the order. *)

(** [DEFAULT_TRUSTLIST] of [config.js], with its repetitions. *)
Definition DEFAULT_TRUSTLIST : list Txid := [
  "61e1265acb3d93f1bf24a593d70b2a6b1c650ec1df90ddece8d6954ae3cdd915";
  "6fe169894d313b44bd54154f88e1f78634c7f5a23863d1713342526b86a39b8b";
  "71fba386341b932380ec5bfedc3a40bce43d4974decdc94c419a94a8ce5dfc23";
  "780ab8919cb89323707338070323c24ce42cdec2f57d749bd7aceef6635e7a4d";
  "90a3ece416f696731430efac9657d28071cc437ebfff5fb1eaf710fe4b3c8d4e";
  "727e7b423b7ee40c0b5be87fba7fa5673ea2d20a74259040a7295d9c32a90011";
  "b17a9af70ab0f46809f908b2e900e395ba40996000bf4f00e3b27a1e93280cf1";
  "72a61eb990ffdb6b38e5f955e194fed5ff6b014f75ac6823539ce5613aea0be8";
  "312985bd960ae4c59856b3089b04017ede66506ea181333eec7c9bb88b11c490";
  "312985bd960ae4c59856b3089b04017ede66506ea181333eec7c9bb88b11c490";
  "d792d10294a0d9b05a30049f187a1704ced14840ecf41d00663d79c695f86633";
  "318d2a009e29cb3a202b2a167773341dcd39809b967889a7e306d504cc266faf";
  "1f0abf8d94477b1cb57629d861376616f6e1d7b78aba23a19da3e6169caf489e";
  "5435ae2760dc35f4329501c61c42e24f6a744861c22f8e0f04735637c20ce987";
  "f97d4ac2a3d6f5ed09fad4a4f341619dc5a3773d9844ff95c99c5d4f8388de2f";
  "63e0e1268d8ab021d1c578afb8eaa0828ccbba431ffffd9309d04b78ebeb6e56";
  "03320f1244e509bb421e6f1ff724bf1156182890c3768cfa4ea127a78f9913d2";
  "1f0abf8d94477b1cb57629d861376616f6e1d7b78aba23a19da3e6169caf489e";
  "72a61eb990ffdb6b38e5f955e194fed5ff6b014f75ac6823539ce5613aea0be8";
  "7d14c868fe39439edffe6982b669e7b4d3eb2729eee7c262ec2494ee3e310e99";
  "33e78fa7c43b6d7a60c271d783295fa180b7e9fce07d41ff1b52686936b3e6ae";
  "33e78fa7c43b6d7a60c271d783295fa180b7e9fce07d41ff1b52686936b3e6ae";
  "24cde3638a444c8ad397536127833878ffdfe1b04d5595489bd294e50d77105a";
  "bfa5180e601e92af23d80782bf625b102ac110105a392e376fe7607e4e87dc8d";
  "3f9de452f0c3c96be737d42aa0941b27412211976688967adb3174ee18b04c64"
].

(** *** Statements *)

(** [INSERT OR IGNORE INTO crawl (role, height, hash) VALUES ('tip', 0, NULL)] *)
Definition setupCrawlStmt : Tables → Tables :=
  upd_crawl (λ c, match c with Some _ => c | None => Some (0%Z, None) end).

(** [INSERT OR IGNORE INTO trust (txid, value) VALUES (?, 1)] *)
Definition trustIfMissingStmt (id : Txid) : Tables → Tables :=
  upd_trust (λ m, match m !! id with Some _ => m | None => <[id := 1%Z]> m end).

(** [SELECT txid FROM trust WHERE value = 1] *)
Definition getTrustlistStmt (t : Tables) : list Txid :=
  fst <$> filter (λ e, e.2 = 1%Z) (map_to_list (t_trust t)).

(** [SELECT txid FROM ban] *)
Definition getBanlistStmt (t : Tables) : list Txid := elements (t_ban t).

(** [SELECT height FROM crawl WHERE role = 'tip'] and
    [SELECT hash FROM crawl WHERE role = 'tip'] *)
Definition getHeightStmt (t : Tables) : option Z := fst <$> t_crawl t.
Definition getHashStmt (t : Tables) : option (option string) := snd <$> t_crawl t.

Definition aboveHeight (h : Z) (r : TxRow) : bool :=
  match height r with Some h' => (h <? h')%Z | None => false end.

(** [SELECT txid FROM tx WHERE height > ?] *)
Definition getTransactionsAboveHeightStmt (t : Tables) (h : Z) : list Txid :=
  fst <$> filter (λ e, aboveHeight h e.2 = true) (map_to_list (t_tx t)).

Definition mempoolBefore (tm : Z) (r : TxRow) : bool :=
  bool_decide (height r = Some HEIGHT_MEMPOOL)
  && match time r with Some t' => (t' <? tm)%Z | None => false end.

(** [SELECT txid FROM tx WHERE height = -1 AND time < ?] *)
Definition getMempoolTransactionsBeforeTimeStmt (t : Tables) (tm : Z) : list Txid :=
  fst <$> filter (λ e, mempoolBefore tm e.2 = true) (map_to_list (t_tx t)).

(** [SELECT txid FROM tx WHERE bytes IS NULL] *)
Definition getTransactionsToDownloadStmt (t : Tables) : list Txid :=
  fst <$> filter (λ e, bytes e.2 = None) (map_to_list (t_tx t)).

(** [SELECT COUNT( * ) AS count FROM tx WHERE bytes IS NOT NULL] *)
Definition getTransactionsDownloadedCountStmt (t : Tables) : nat :=
  length (filter (λ e, bytes e.2 ≠ None) (map_to_list (t_tx t))).

(** [SELECT COUNT( * ) AS count FROM tx WHERE indexed = 1] *)
Definition getTransactionsIndexedCountStmt (t : Tables) : nat :=
  length (filter (λ e, indexed e.2 = true) (map_to_list (t_tx t))).

(** [SELECT txid, bytes IS NOT NULL AS downloaded, has_code
     FROM tx WHERE (executable = 1 AND executed = 0) OR bytes IS NULL] *)
Definition getUnexecutedStmt (t : Tables) : list (Txid * bool * bool) :=
  (λ e, (e.1, bool_decide (bytes e.2 ≠ None), has_code e.2))
    <$> filter (λ e, (executable e.2 && negb (executed e.2)) = true ∨ bytes e.2 = None)
               (map_to_list (t_tx t)).

(** [SELECT deps.up as up, deps.down as down FROM deps
     JOIN tx ON tx.txid = deps.down
     WHERE tx.executable = 1 AND tx.executed = 0] *)
Definition getUnexecutedDepsStmt (t : Tables) : list (Txid * Txid) :=
  filter (λ e, executableNotExecuted t e.2 = true) (t_deps t).

(** [getAllUnspentSql]:
    [SELECT spends.location AS location FROM spends
     JOIN jig ON spends.location = jig.location
     WHERE spends.spend_txid IS NULL], with the condition on the columns
    of [jig] that each statement appends.  A comparison with a [NULL]
    column selects nothing. *)
Definition getAllUnspentSql (cond : JigRow → bool) (t : Tables) : list Location :=
  fst <$> filter (λ e, (bool_decide (t_spends t !! e.1 = Some None) && cond e.2) = true)
                 (map_to_list (t_jig t)).

Definition getAllUnspentStmt : Tables → list Location :=
  getAllUnspentSql (λ _, true).
Definition getAllUnspentByClassStmt (cls : string) : Tables → list Location :=
  getAllUnspentSql (λ r, bool_decide (jig_class r = Some cls)).
Definition getAllUnspentByLockStmt (lock : string) : Tables → list Location :=
  getAllUnspentSql (λ r, bool_decide (jig_lock r = Some lock)).
Definition getAllUnspentByScripthashStmt (scripthash : string) : Tables → list Location :=
  getAllUnspentSql (λ r, bool_decide (jig_scripthash r = Some scripthash)).
Definition getAllUnspentByClassLockStmt (cls lock : string) : Tables → list Location :=
  getAllUnspentSql (λ r, bool_decide (jig_class r = Some cls)
                         && bool_decide (jig_lock r = Some lock)).
Definition getAllUnspentByClassScripthashStmt (cls scripthash : string)
  : Tables → list Location :=
  getAllUnspentSql (λ r, bool_decide (jig_class r = Some cls)
                         && bool_decide (jig_scripthash r = Some scripthash)).
Definition getAllUnspentByLockScripthashStmt (lock scripthash : string)
  : Tables → list Location :=
  getAllUnspentSql (λ r, bool_decide (jig_lock r = Some lock)
                         && bool_decide (jig_scripthash r = Some scripthash)).
Definition getAllUnspentByClassLockScripthashStmt (cls lock scripthash : string)
  : Tables → list Location :=
  getAllUnspentSql (λ r, bool_decide (jig_class r = Some cls)
                         && bool_decide (jig_lock r = Some lock)
                         && bool_decide (jig_scripthash r = Some scripthash)).

(** [SELECT COUNT( * ) as unspent FROM spends JOIN jig
     ON spends.location = jig.location WHERE spends.spend_txid IS NULL] *)
Definition getNumUnspentStmt (t : Tables) : nat :=
  length (filter (λ e, t_spends t !! e.1 = Some None) (map_to_list (t_jig t))).

(** *** Methods *)

(** [isTransactionDownloaded (txid)]: [.get(txid)[0]] throws when there is
    no row. *)
Definition isTransactionDownloaded (id : Txid) : M bool :=
  s <- get ;;
  match getTransactionDownloadedStmt (db s) id with
  | Some isDownloaded => ret isDownloaded
  | None => throw
  end.

Definition getTransactionsAboveHeight (s : Database) (h : Z) : list Txid :=
  getTransactionsAboveHeightStmt (db s) h.
Definition getMempoolTransactionsBeforeTime (s : Database) (tm : Z) : list Txid :=
  getMempoolTransactionsBeforeTimeStmt (db s) tm.
Definition getTransactionsToDownload (s : Database) : list Txid :=
  getTransactionsToDownloadStmt (db s).
Definition getDownloadedCount (s : Database) : nat :=
  getTransactionsDownloadedCountStmt (db s).
Definition getIndexedCount (s : Database) : nat :=
  getTransactionsIndexedCountStmt (db s).

(** [row && row[0]] *)
Definition getSpend (s : Database) (location : Location) : option (option Txid) :=
  getSpendStmt (db s) location.
Definition getJigState (s : Database) (location : Location) : option string :=
  getJigStateStmt (db s) location.
Definition getBerryState (s : Database) (location : Location) : option string :=
  getBerryStateStmt (db s) location.

Definition getAllUnspent (s : Database) : list Location :=
  getAllUnspentStmt (db s).
Definition getAllUnspentByClassOrigin (s : Database) (origin : string) : list Location :=
  getAllUnspentByClassStmt origin (db s).
Definition getAllUnspentByLockOrigin (s : Database) (origin : string) : list Location :=
  getAllUnspentByLockStmt origin (db s).
Definition getAllUnspentByScripthash (s : Database) (scripthash : string) : list Location :=
  getAllUnspentByScripthashStmt scripthash (db s).
Definition getAllUnspentByClassOriginAndLockOrigin (s : Database) (clsOrigin lockOrigin : string)
  : list Location :=
  getAllUnspentByClassLockStmt clsOrigin lockOrigin (db s).
Definition getAllUnspentByClassOriginAndScripthash (s : Database) (clsOrigin scripthash : string)
  : list Location :=
  getAllUnspentByClassScripthashStmt clsOrigin scripthash (db s).
Definition getAllUnspentByLockOriginAndScripthash (s : Database) (lockOrigin scripthash : string)
  : list Location :=
  getAllUnspentByLockScripthashStmt lockOrigin scripthash (db s).
Definition getAllUnspentByClassOriginAndLockOriginAndScripthash (s : Database)
    (clsOrigin lockOrigin scripthash : string) : list Location :=
  getAllUnspentByClassLockScripthashStmt clsOrigin lockOrigin scripthash (db s).
Definition getNumUnspent (s : Database) : nat := getNumUnspentStmt (db s).

(** [Array.from(this.trustlist)] and [Array.from(this.banlist)] *)
Definition getTrustlist (s : Database) : list Txid := elements (trustlist s).
Definition getBanlist (s : Database) : list Txid := elements (banlist s).

(** [getAllUntrusted ()] *)
Definition getAllUntrusted (s : Database) : list Txid :=
  (λ e, txid (theNode (heap s) e.2))
    <$> filter (λ e, (truthy (hasCode (theNode (heap s) e.2))
                      && negb (bool_decide (txid (theNode (heap s) e.2) ∈ trustlist s))) = true)
               (map_to_list (unexecuted s)).

(** [upstreamUnexecuted.forEach(uptxid => { if (visited.has(uptxid)) return;
     visited.add(uptxid); queue.push(uptxid) })] *)
Definition visitUpstream (ups : list Txid) (visited : gset Txid) (queue : list Txid)
  : gset Txid * list Txid :=
  foldl (λ vq uptxid,
           if bool_decide (uptxid ∈ vq.1) then vq
           else (vq.1 ∪ {[uptxid]}, vq.2 ++ [uptxid]))
        (visited, queue) ups.

(** The [while (queue.length)] loop of [getTransactionUntrusted]; the set
    [untrusted] is a list without repetition. *)
Fixpoint untrustedWalk (fuel : nat) (s : Database) (queue : list Txid) (visited : gset Txid)
    (untrusted : list Txid) : option (list Txid) :=
  match queue with
  | [] => Some untrusted
  | next :: queue' =>
      match fuel with
      | 0 => None
      | S fuel' =>
          match unexecuted s !! next with
          | None => untrustedWalk fuel' s queue' visited untrusted
          | Some tx =>
              let untrusted' :=
                if truthy (hasCode (theNode (heap s) tx))
                   && negb (bool_decide (next ∈ trustlist s))
                then (if bool_decide (next ∈ untrusted) then untrusted
                      else untrusted ++ [next])
                else untrusted in
              let vq := visitUpstream (getUpstreamUnexecutedStmt (db s) next) visited queue' in
              untrustedWalk fuel' s vq.2 vq.1 untrusted'
          end
      end
  end.

(** [getTransactionUntrusted (txid)] *)
Definition getTransactionUntrusted (fuel : nat) (id : Txid) : M (list Txid) :=
  s <- get ;;
  match untrustedWalk fuel s [id] {[id]} [] with
  | Some untrusted => ret untrusted
  | None => outOfFuel
  end.

(** [getHeight ()], [getHash ()]: [row && row[0]] of the first row. *)
Definition getHeight (s : Database) : option Z := getHeightStmt (db s).
Definition getHash (s : Database) : option (option string) := getHashStmt (db s).

(** [setHeightAndHash (height, hash)] *)
Definition setHeightAndHash (h : Z) (hash : option string) : M unit :=
  run (setHeightAndHashStmt h hash).

(** [_loadTrustlist ()] and [_loadBanlist ()] *)
Definition _loadTrustlist : M unit :=
  s <- get ;;
  forEach (getTrustlistStmt (db s)) (λ t, modify (upd_trustlist (λ l, l ∪ {[t]}))).

Definition _loadBanlist : M unit :=
  s <- get ;;
  forEach (getBanlistStmt (db s)) (λ t, modify (upd_banlist (λ l, l ∪ {[t]}))).

(** The first loop of [_loadUnexecuted]: one object per row. *)
Definition loadNodes : M unit :=
  s <- get ;;
  forEach (getUnexecutedStmt (db s)) (λ row,
    tx <- alloc (newUnexecutedTx row.1.1 row.1.2 (Some row.2)) ;;
    modify (upd_unexecuted (<[row.1.1 := tx]>))).

(** The second loop: the edges.  [downtx.upstream] throws when the map has
    no node for [down]. *)
Definition loadEdges : M unit :=
  s <- get ;;
  forEach (getUnexecutedDepsStmt (db s)) (λ e,
    s1 <- get ;;
    match unexecuted s1 !! e.1 with
    | None => ret tt
    | Some uptx =>
        match unexecuted s1 !! e.2 with
        | None => throw
        | Some downtx =>
            write downtx (upd_upstream (Set_add uptx)) ;;
            write uptx (upd_downstream (Set_add downtx))
        end
    end).

(** [_loadUnexecuted ()] *)
Definition _loadUnexecuted (fuel : nat) : M unit :=
  loadNodes ;;
  loadEdges ;;
  s <- get ;;
  forEach (map_to_list (unexecuted s)).*2 (λ tx, _checkExecutability fuel tx None).

(** [open ()] on the object that the constructor made, for a database file
    that holds [tables] at schema v2: [initializeV1] and [initializeV2]
    return at their first line. *)
Definition open (fuel : nat) (tables : Tables) : M unit :=
  modify (upd_db (λ _, tables)) ;;
  transaction (
    run setupCrawlStmt ;;
    forEach DEFAULT_TRUSTLIST (λ t, run (trustIfMissingStmt t))) ;;
  _loadTrustlist ;;
  _loadBanlist ;;
  _loadUnexecuted fuel.
(** ** Observations used by the properties *)

(** A stand-in for the classifier in closed examples: the bytes of a
    transaction that [Run.util.metadata] accepts start with the marker. *)
Definition sampleMetadata (rawtx : option (option string)) : bool :=
  match rawtx with
  | Some (Some hex) => String.prefix "run" hex
  | _ => false
  end.

(** The flag of the object at [a]. *)
Definition flag (s : Database) (a : Addr) : bool :=
  queuedForExecution (theNode (heap s) a).

(** [n.queuedForExecution = ready(n)] at the object at [a]. *)
Definition okAt (s : Database) (a : Addr) : Prop :=
  flag s a = ready s (theNode (heap s) a).

(** The object at [a] is a node of the map. *)
Definition inMap (s : Database) (a : Addr) : Prop :=
  ∃ t, unexecuted s !! t = Some a.

(** [n.queuedForExecution = ready(n)] at every node of the map. *)
Definition readyConsistent (s : Database) : bool :=
  forallb (λ e, Bool.eqb (flag s e.2) (ready s (theNode (heap s) e.2)))
          (map_to_list (unexecuted s)).


(** The map holds every node under its own txid. *)
Definition keysMatch (s : Database) : bool :=
  forallb (λ e, bool_decide (txid (theNode (heap s) e.2) = e.1))
          (map_to_list (unexecuted s)).

(** Every upstream edge of a node of the map is mirrored in the downstream
    set of the other end. *)
Definition mirrored (s : Database) : bool :=
  forallb (λ e, forallb (λ u, bool_decide (e.2 ∈ downstream (theNode (heap s) u)))
                        (upstream (theNode (heap s) e.2)))
          (map_to_list (unexecuted s)).

(** The next object is allocated past every object of the heap. *)
Definition fresh (s : Database) : bool :=
  forallb (λ e, e.1 <? nextAddr s) (map_to_list (heap s)).

(** The number of nodes of the map whose flag is set. *)
Definition countQueued (s : Database) : nat :=
  length (filter (λ e, queuedForExecution (theNode (heap s) e.2) = true)
                 (map_to_list (unexecuted s))).

(** The edge [(u, d)] is in the adjacency sets of the two nodes that the
    map holds for [u] and [d]. *)
Definition materialised (s : Database) (u d : Txid) : bool :=
  match unexecuted s !! u, unexecuted s !! d with
  | Some utx, Some dtx =>
      bool_decide (dtx ∈ downstream (theNode (heap s) utx))
      && bool_decide (utx ∈ upstream (theNode (heap s) dtx))
  | _, _ => false
  end.

(** The edge is recorded in table [deps] and both ends are in the map. *)
Definition recordedAndPresent (s : Database) (u d : Txid) : bool :=
  bool_decide ((u, d) ∈ t_deps (db s))
  && bool_decide (is_Some (unexecuted s !! u))
  && bool_decide (is_Some (unexecuted s !! d)).

(** The row of [id] says: execution failed. *)
Definition failedRow (t : Tables) (id : Txid) : Prop :=
  ∃ r, t_tx t !! id = Some r ∧ executable r = false ∧ executed r = true ∧ indexed r = false.

(** The events a call appended to the trace. *)
Definition newEvents (s s' : Database) : list (Event * nat) :=
  drop (length (emitted s)) (emitted s').


(** Every path going downstream from [tx] ends within [fuel] steps: the
    part of the graph below [tx] is acyclic and shallower than [fuel]. *)
Fixpoint shallow (fuel : nat) (h : gmap nat UnexecutedTx) (tx : Addr) : bool :=
  match fuel with
  | 0 => false
  | S fuel' => forallb (shallow fuel' h) (downstream (theNode h tx))
  end.

Definition acyclicWithin (fuel : nat) (s : Database) : bool :=
  (0 <? fuel) && forallb (λ e, shallow fuel (heap s) e.1) (map_to_list (heap s)).

(** The graph in memory is well formed. *)
Definition wellFormed (fuel : nat) (s : Database) : bool :=
  keysMatch s && mirrored s && acyclicWithin fuel s && fresh s.

(** The ancestors of the object [tx]: what the walk of [trust] can reach
    through [upstream]. *)
Inductive ancestor (h : gmap nat UnexecutedTx) (tx : Addr) : Addr → Prop :=
| ancestor_up u : u ∈ upstream (theNode h tx) → ancestor h tx u
| ancestor_step v u : ancestor h tx v → u ∈ upstream (theNode h v) → ancestor h tx u.

(** The iterations of the walk of [trust] from the object [tx]. *)
Definition walkBound (s : Database) (tx : Addr) : nat :=
  length (upstream (theNode (heap s) tx))
  + sum_list ((λ e, length (upstream e.2)) <$> map_to_list (heap s)).

Definition walkBoundOf (s : Database) (id : Txid) : nat :=
  match unexecuted s !! id with
  | Some tx => walkBound s tx
  | None => 0
  end.

(** ** Basic facts *)

Lemma bind_Ok {A B} (m : M A) (k : A → M B) s a s' :
  m s = Ok a s' → bind m k s = k a s'.
Proof. intros E. unfold bind. by rewrite E. Qed.

Lemma forEach_app {B} (l1 l2 : list B) (f : B → M unit) s :
  forEach (l1 ++ l2) f s = (forEach l1 f ;; forEach l2 f) s.
Proof.
  revert s. induction l1 as [|b l1 IH]; intros s; simpl; [done|].
  unfold bind in *. destruct (f b s); [apply IH|done..].
Qed.

(** A loop whose body keeps a relation to the initial state. *)
Lemma forEach_inv {B} (R : Database → Prop) (l : list B) (f : B → M unit) s :
  R s →
  (∀ b s1, b ∈ l → R s1 → ∃ s2, f b s1 = Ok tt s2 ∧ R s2) →
  ∃ s', forEach l f s = Ok tt s' ∧ R s'.
Proof.
  revert s. induction l as [|b l IH]; intros s HR Hf; simpl.
  - by exists s.
  - destruct (Hf b s) as (s2 & E & HR2); [left | done |].
    unfold bind. rewrite E. apply IH; [done|].
    intros b' s1 Hb'. apply Hf. by right.
Qed.

(** ** Properties of the methods *)

Section Entry.

Variable metadata : option (option string) → bool.

(** *** Calls on a txid that has no node *)

(** C10.  [storeExecutedTransaction], [setTransactionExecutionFailed] and
    [addMissingDeps] called with a txid that has no node in the unexecuted
    map return at once: the whole database (tables, objects, map, counter,
    trace of callbacks) is the one before the call. *)
Theorem absent_node_is_noop (now : Z) (fuel : nat) (id : Txid) (result : Result)
    (deptxids : list Txid) (s : Database) :
  unexecuted s !! id = None →
  storeExecutedTransaction id result s = Ok tt s
  ∧ setTransactionExecutionFailed metadata fuel id s = Ok tt s
  ∧ addMissingDeps metadata now fuel id deptxids s = Ok tt s.
Proof.
  intros Hnone. repeat split.
  - unfold storeExecutedTransaction, bind, get. by rewrite Hnone.
  - destruct fuel; simpl; unfold bind, get; by rewrite Hnone.
  - unfold addMissingDeps, bind, get. by rewrite Hnone.
Qed.

(** *** [addNewTransaction] *)

(** C5, as the code has it.  For a txid without a row, [addNewTransaction]
    inserts the row and creates the node [{downloaded = false, hasCode =
    null}], but the insertion time goes to column [height]: column [time]
    is [null], and that is what [getTransactionTime] returns. *)
Theorem addNewTransaction_leaves_time_null (now : Z) (id : Txid) (s : Database) :
  hasTransaction s id = false →
  ∃ s', addNewTransaction now id s = Ok tt s'
        ∧ getTransactionTime s' id = Some None
        ∧ getTransactionHeight s' id = Some (Some now)
        ∧ (unexecuted s !! id = None →
           ∃ tx, unexecuted s' !! id = Some tx
                 ∧ heap s' !! tx = Some (newUnexecutedTx id false None)).
Proof.
  intros Hno. unfold addNewTransaction, bind, get. rewrite Hno. cbn.
  assert (Hrow : t_tx (db s) !! id = None).
  { unfold hasTransaction, hasTransactionStmt in Hno.
    destruct (t_tx (db s) !! id); [done|done]. }
  unfold getTransactionTime, getTransactionHeight,
    getTransactionTimeStmt, getTransactionHeightStmt.
  destruct (unexecuted s !! id) as [tx|] eqn:Hmap; cbn;
    eexists; (split; [reflexivity|]); cbn; rewrite Hrow, lookup_insert_eq; cbn.
  - repeat split; [done..|]. intros; discriminate.
  - repeat split; [done..|]. intros _. exists (nextAddr s).
    by rewrite !lookup_insert_eq.
Qed.

End Entry.

(** *** A weakest-precondition calculus for the methods

    [wp F m s Q E]: run from [s], the method [m] returns a value and a state
    in [Q], or throws in a state in [E]; [F] says whether running out of
    fuel is accepted ([False] for total correctness). *)

Definition wp {A} (F : Prop) (m : M A) (s : Database)
    (Q : A → Database → Prop) (E : Database → Prop) : Prop :=
  match m s with
  | Ok a s' => Q a s'
  | Threw s' => E s'
  | OutOfFuel => F
  end.

Section Wp.

Context {F : Prop}.

Lemma wp_ret {A} (a : A) s Q E : Q a s → wp F (ret a) s Q E.
Proof. done. Qed.

Lemma wp_bind {A B} (m : M A) (k : A → M B) s Q E :
  wp F m s (λ a s', wp F (k a) s' Q E) E → wp F (bind m k) s Q E.
Proof. unfold wp, bind. by destruct (m s). Qed.

Lemma wp_get s Q E : Q s s → wp F get s Q E.
Proof. done. Qed.

Lemma wp_modify f s Q E : Q tt (f s) → wp F (modify f) s Q E.
Proof. done. Qed.

Lemma wp_run stmt s Q E : Q tt (upd_db stmt s) → wp F (run stmt) s Q E.
Proof. done. Qed.

Lemma wp_write a f s Q E : Q tt (upd_heap (alter f a) s) → wp F (write a f) s Q E.
Proof. done. Qed.

Lemma wp_emit e s Q E :
  Q tt (upd_emitted (λ l, l ++ [(e, txDepth s)]) s) → wp F (emit e) s Q E.
Proof. done. Qed.

Lemma wp_alloc n s Q E :
  Q (nextAddr s) (upd_nextAddr S (upd_heap (<[nextAddr s := n]>) s)) → wp F (alloc n) s Q E.
Proof. done. Qed.

Lemma wp_throw {A} s (Q : A → Database → Prop) (E : Database → Prop) :
  E s → wp F throw s Q E.
Proof. done. Qed.

Lemma wp_outOfFuel {A} s (Q : A → Database → Prop) (E : Database → Prop) :
  F → wp F outOfFuel s Q E.
Proof. done. Qed.

Lemma wp_mono {A} (m : M A) s (Q Q' : A → Database → Prop) (E E' : Database → Prop) :
  wp F m s Q E →
  (∀ a s', Q a s' → Q' a s') → (∀ s', E s' → E' s') →
  wp F m s Q' E'.
Proof. unfold wp. destruct (m s); auto. Qed.

Lemma wp_forEach {B} (I : Database → Prop) (l : list B) (f : B → M unit) s E :
  I s →
  (∀ b s1, b ∈ l → I s1 → wp F (f b) s1 (λ _, I) E) →
  wp F (forEach l f) s (λ _, I) E.
Proof.
  revert s. induction l as [|b l IH]; intros s HI Hf; cbn [forEach].
  - by apply wp_ret.
  - apply wp_bind. eapply wp_mono; [apply Hf; [left|done] | | done].
    intros u s' HI'. apply IH; [done|]. intros b' s1 Hb'. apply Hf. by right.
Qed.


Lemma wp_transaction {A} (f : M A) s Q E :
  wp F f (upd_txDepth S s)
     (λ a s', Q a (upd_txDepth pred s'))
     (λ s', E (upd_txDepth pred (upd_db (λ _, db s) s'))) →
  wp F (transaction f) s Q E.
Proof. unfold wp, transaction. by destruct (f (upd_txDepth S s)). Qed.

End Wp.

(** Total correctness without exception gives the final state. *)
Lemma wp_Ok {A} (m : M A) s (Q : A → Database → Prop) :
  wp False m s Q (λ _, False) → ∃ a s', m s = Ok a s' ∧ Q a s'.
Proof. unfold wp. destruct (m s) as [a s'| |]; [|done..]. by exists a, s'. Qed.

Lemma wp_Ok_unit (m : M unit) s (Q : Database → Prop) :
  wp False m s (λ _, Q) (λ _, False) → ∃ s', m s = Ok tt s' ∧ Q s'.
Proof. intros ([] & s' & ? & ?)%wp_Ok. by exists s'. Qed.

Lemma Ok_wp {A} {F} (m : M A) s a s' (Q : A → Database → Prop) E :
  m s = Ok a s' → Q a s' → wp F m s Q E.
Proof. unfold wp. by intros ->. Qed.

Lemma bind_get {B} (k : Database → M B) s : (s0 <- get ;; k s0) s = k s s.
Proof. reflexivity. Qed.

Ltac wp_step :=
  lazymatch goal with
  | |- wp _ (bind _ _) _ _ _ => apply wp_bind
  | |- wp _ (ret _) _ _ _ => apply wp_ret
  | |- wp _ get _ _ _ => apply wp_get
  | |- wp _ (modify _) _ _ _ => apply wp_modify
  | |- wp _ (run _) _ _ _ => apply wp_run
  | |- wp _ (write _ _) _ _ _ => apply wp_write
  | |- wp _ (emit _) _ _ _ => apply wp_emit
  | |- wp _ (alloc _) _ _ _ => apply wp_alloc
  | |- wp _ (transaction _) _ _ _ => apply wp_transaction
  end.

Ltac wp_steps := repeat (wp_step; cbn beta).

(** *** Objects and their fields *)

Lemma theNode_alter {X} (proj : UnexecutedTx → X) (f : UnexecutedTx → UnexecutedTx)
    (a b : Addr) (h : gmap nat UnexecutedTx) :
  (∀ n, proj (f n) = proj n) →
  proj (theNode (alter f a h) b) = proj (theNode h b).
Proof.
  intros Hf. unfold theNode. rewrite lookup_alter.
  destruct (decide (a = b)) as [->|]; [|done].
  destruct (h !! b); simpl; [apply Hf | done].
Qed.

Lemma theNode_alter_ne (f : UnexecutedTx → UnexecutedTx) (a b : Addr)
    (h : gmap nat UnexecutedTx) :
  a ≠ b → theNode (alter f a h) b = theNode h b.
Proof. intros Hne. unfold theNode. by rewrite lookup_alter_ne. Qed.

Lemma theNode_alter_eq (f : UnexecutedTx → UnexecutedTx) (a : Addr)
    (h : gmap nat UnexecutedTx) n :
  h !! a = Some n → theNode (alter f a h) a = f n.
Proof. intros Hn. unfold theNode. by rewrite lookup_alter_eq, Hn. Qed.

(** The heap after [for (const downtx of ds) downtx.upstream.delete(tx)]. *)
Definition detached (tx : Addr) (ds : list Addr) (h : gmap nat UnexecutedTx)
  : gmap nat UnexecutedTx :=
  foldl (λ h' downtx, alter (upd_upstream (Set_delete tx)) downtx h') h ds.

Lemma detach_eq (tx : Addr) (ds : list Addr) (s : Database) :
  detach tx ds s = Ok tt (upd_heap (detached tx ds) s).
Proof.
  unfold detach, detached. revert s.
  induction ds as [|d ds IH]; intros s; simpl.
  - by destruct s.
  - unfold bind, write, modify. rewrite IH. by destruct s.
Qed.

Lemma detached_field {X} (proj : UnexecutedTx → X) tx ds h b :
  (∀ f n, proj (upd_upstream f n) = proj n) →
  proj (theNode (detached tx ds h) b) = proj (theNode h b).
Proof.
  intros Hp. unfold detached. revert h.
  induction ds as [|d ds IH]; intros h; simpl; [done|].
  rewrite IH. by apply theNode_alter.
Qed.

(** The calls of [onReadyToExecute] in the loop that notifies [ds]. *)
Definition readyEvents (h : gmap nat UnexecutedTx) (depth : nat) (ds : list Addr)
  : list (Event * nat) :=
  (λ d, (onReadyToExecute (txid (theNode h d)), depth))
    <$> filter (λ d, queuedForExecution (theNode h d) && isEmpty (upstream (theNode h d)) = true) ds.

Lemma notifyReady_eq (ds : list Addr) (s : Database) :
  notifyReady ds s
  = Ok tt (upd_emitted (λ l, l ++ readyEvents (heap s) (txDepth s) ds) s).
Proof.
  unfold notifyReady, readyEvents. revert s.
  induction ds as [|d ds IH]; intros s.
  - rewrite filter_nil. destruct s; unfold ret, upd_emitted; cbn. by rewrite app_nil_r.
  - cbn [forEach]. unfold bind at 1. rewrite bind_get. rewrite filter_cons.
    destruct (queuedForExecution (theNode (heap s) d) && isEmpty (upstream (theNode (heap s) d)))
      eqn:Hc.
    + rewrite decide_True by done. unfold emit at 1. rewrite IH.
      destruct s; unfold upd_emitted; cbn. by rewrite <- app_assoc.
    + rewrite decide_False by (by intros ?). unfold ret at 1. by rewrite IH.
Qed.

(** *** [setTransactionExecutionFailed] *)

Section Failed.

Variable metadata : option (option string) → bool.

(** What a run of [setTransactionExecutionFailed] may change. *)
Record failStep (s s' : Database) : Prop := mkFailStep {
  fs_sub : unexecuted s' ⊆ unexecuted s;
  fs_rows_out : ∀ t, unexecuted s !! t = None → t_tx (db s') !! t = t_tx (db s) !! t;
  fs_rows_in : ∀ t, is_Some (unexecuted s' !! t) → t_tx (db s') !! t = t_tx (db s) !! t;
  fs_failed : ∀ t, is_Some (unexecuted s !! t) → unexecuted s' !! t = None →
              is_Some (t_tx (db s) !! t) → failedRow (db s') t;
  fs_depth : txDepth s' = txDepth s;
  fs_txid : ∀ a, txid (theNode (heap s') a) = txid (theNode (heap s) a);
  fs_down : ∀ a, downstream (theNode (heap s') a) = downstream (theNode (heap s) a);
  fs_queued : ∀ a, queuedForExecution (theNode (heap s') a) = true →
              queuedForExecution (theNode (heap s) a) = true;
  fs_trust : trustlist s' = trustlist s;
  fs_ban : banlist s' = banlist s
}.

Lemma failStep_refl s : failStep s s.
Proof. split; try done. intros t [a Ha] Hn. by rewrite Ha in Hn. Qed.

Lemma failStep_trans s1 s2 s3 : failStep s1 s2 → failStep s2 s3 → failStep s1 s3.
Proof.
  intros [] []. split.
  - by etrans.
  - intros t Ht. rewrite fs_rows_out1, fs_rows_out0; [done..|].
    destruct (unexecuted s2 !! t) as [a|] eqn:E; [|done].
    by rewrite (lookup_weaken _ _ _ _ E fs_sub0) in Ht.
  - intros t Ht. rewrite fs_rows_in1 by done. apply fs_rows_in0.
    destruct Ht as [a Ha]. exists a. by eapply lookup_weaken.
  - intros t Hin Hout Hrow.
    destruct (unexecuted s2 !! t) as [a|] eqn:E.
    + apply fs_failed1; [by rewrite E | done |]. rewrite fs_rows_in0; [done|by rewrite E].
    + destruct (fs_failed0 t Hin E Hrow) as (r & Hr & Hf). exists r.
      by rewrite fs_rows_out1.
  - congruence.
  - intros a. by rewrite fs_txid1.
  - intros a. by rewrite fs_down1.
  - auto.
  - congruence.
  - congruence.
Qed.

(** The state after the statements, the detaching and the removal of
    [setTransactionExecutionFailed], before it looks at the bytes. *)
Definition failedHere (id : Txid) (tx : Addr) (s : Database) : Database :=
  let s1 := upd_db (λ t, setTransactionIndexedStmt false id
                           (setTransactionExecutedStmt true id
                              (setTransactionExecutableStmt false id t))) s in
  let s2 := upd_unexecuted (delete id)
              (upd_heap (detached tx (downstream (theNode (heap s) tx))) s1) in
  upd_heap (alter (set_queued false) tx)
    (if queuedForExecution (theNode (heap s2) tx) then upd_num Z.pred s2 else s2).

Lemma wp_detach {F} tx ds s Q E :
  Q tt (upd_heap (detached tx ds) s) → wp F (detach tx ds) s Q E.
Proof. intros HQ. eapply Ok_wp; [apply detach_eq | done]. Qed.

Lemma wp_notifyReady {F} ds s Q E :
  Q tt (upd_emitted (λ l, l ++ readyEvents (heap s) (txDepth s) ds) s) →
  wp F (notifyReady ds) s Q E.
Proof. intros HQ. eapply Ok_wp; [apply notifyReady_eq | done]. Qed.

Lemma wp_uncount {F} tx s Q E :
  Q tt (if queuedForExecution (theNode (heap s) tx) then upd_num Z.pred s else s) →
  wp F (uncount tx) s Q E.
Proof.
  intros HQ. unfold uncount. apply wp_bind, wp_get.
  destruct (queuedForExecution (theNode (heap s) tx)); by wp_step.
Qed.

Ltac open_failedHere :=
  unfold failedHere; cbn zeta;
  match goal with |- context [if ?c then _ else _] => destruct c end; cbn.

Lemma failedHere_unexecuted id tx s :
  unexecuted (failedHere id tx s) = delete id (unexecuted s).
Proof. by open_failedHere. Qed.


Lemma failedHere_flag id tx s :
  queuedForExecution (theNode (heap (failedHere id tx s)) tx) = false.
Proof.
  open_failedHere; unfold theNode; rewrite lookup_alter_eq;
    by match goal with |- context [?h !! tx] => destruct (h !! tx) end.
Qed.


Lemma failedHere_step id tx s :
  unexecuted s !! id = Some tx →
  failStep s (failedHere id tx s) ∧ unexecuted (failedHere id tx s) !! id = None.
Proof.
  intros Hmap. split; [split|].
  - unfold failedHere. cbn zeta.
    match goal with |- context [if ?c then _ else _] => destruct c end; cbn;
      apply delete_subseteq.
  - intros t Ht. assert (t ≠ id) by congruence.
    unfold failedHere. cbn zeta.
    match goal with |- context [if ?c then _ else _] => destruct c end; cbn;
      by rewrite !lookup_alter_ne.
  - intros t [a Ha]. 
    assert (t ≠ id).
    { intros ->. revert Ha. unfold failedHere. cbn zeta.
      match goal with |- context [if ?c then _ else _] => destruct c end; cbn;
        by rewrite lookup_delete_eq. }
    unfold failedHere. cbn zeta.
    match goal with |- context [if ?c then _ else _] => destruct c end; cbn;
      by rewrite !lookup_alter_ne.
  - intros t [a Ha] Hout [r Hr].
    destruct (decide (t = id)) as [->|Hne].
    + exists (set_indexed false (set_executed true (set_executable false r))).
      split; [|done].
      unfold failedHere. cbn zeta.
      match goal with |- context [if ?c then _ else _] => destruct c end; cbn;
        by rewrite !lookup_alter_eq, Hr.
    + revert Hout. unfold failedHere. cbn zeta.
      match goal with |- context [if ?c then _ else _] => destruct c end; cbn;
        rewrite lookup_delete_ne by done; congruence.
  - unfold failedHere. cbn zeta.
    by match goal with |- context [if ?c then _ else _] => destruct c end.
  - intros a. unfold failedHere. cbn zeta.
    match goal with |- context [if ?c then _ else _] => destruct c end; cbn;
      (rewrite theNode_alter by done); by apply detached_field.
  - intros a. unfold failedHere. cbn zeta.
    match goal with |- context [if ?c then _ else _] => destruct c end; cbn;
      (rewrite theNode_alter by done); by apply detached_field.
  - intros a. unfold failedHere. cbn zeta.
    assert (Hstep : ∀ h, queuedForExecution (theNode (alter (set_queued false) tx h) a) = true →
                       queuedForExecution (theNode h a) = true).
    { intros h. unfold theNode. rewrite lookup_alter.
      destruct (decide (tx = a)) as [->|]; [|done].
      by destruct (h !! a). }
    match goal with |- context [if ?c then _ else _] => destruct c end; cbn;
      intros Hq%Hstep; by rewrite detached_field in Hq.
  - unfold failedHere. cbn zeta.
    by match goal with |- context [if ?c then _ else _] => destruct c end.
  - unfold failedHere. cbn zeta.
    by match goal with |- context [if ?c then _ else _] => destruct c end.
  - unfold failedHere. cbn zeta.
    match goal with |- context [if ?c then _ else _] => destruct c end; cbn;
      by rewrite lookup_delete_eq.
Qed.

Lemma failStep_transaction s s' :
  failStep (upd_txDepth S s) s' → failStep s (upd_txDepth pred s').
Proof. intros []. split; try done. cbn in *. by rewrite fs_depth0. Qed.

Lemma failStep_emitted f s : failStep s (upd_emitted f s).
Proof. destruct (failStep_refl s). by split. Qed.

Lemma failStep_gone s s' id :
  failStep s s' → unexecuted s !! id = None → unexecuted s' !! id = None.
Proof.
  intros [] Hs. destruct (unexecuted s' !! id) as [a|] eqn:E; [|done].
  by rewrite (lookup_weaken _ _ _ _ E fs_sub0) in Hs.
Qed.

Lemma failStep_size s s' : failStep s s' → size (unexecuted s') ≤ size (unexecuted s).
Proof. intros []. by apply map_subseteq_size. Qed.

Lemma failStep_flag s s' tx :
  failStep s s' →
  queuedForExecution (theNode (heap s) tx) = false →
  queuedForExecution (theNode (heap s') tx) = false.
Proof.
  intros [] Hq. destruct (queuedForExecution (theNode (heap s') tx)) eqn:E; [|done].
  apply fs_queued0 in E. congruence.
Qed.

(** [setTransactionExecutionFailed] returns when [fuel] exceeds the size of
    the map: every nested call that goes on has taken a node out of it. *)
Lemma setTransactionExecutionFailed_total fuel id s :
  size (unexecuted s) < fuel →
  wp False (setTransactionExecutionFailed metadata fuel id) s
     (λ _ s', failStep s s'
              ∧ unexecuted s' !! id = None
              ∧ ∀ tx, unexecuted s !! id = Some tx →
                      queuedForExecution (theNode (heap s') tx) = false)
     (λ _, False).
Proof.
  revert id s. induction fuel as [|fuel IH]; intros id s Hsize; [lia|].
  cbn [setTransactionExecutionFailed]. apply wp_bind, wp_get.
  destruct (unexecuted s !! id) as [tx|] eqn:Hmap;
    [|apply wp_ret; split; [apply failStep_refl | done]].
  apply wp_transaction.
  do 3 (apply wp_bind, wp_run). apply wp_bind, wp_detach.
  apply wp_bind, wp_modify. apply wp_bind, wp_uncount.
  apply wp_bind, wp_write. apply wp_bind, wp_get.
  match goal with |- wp _ _ ?st _ _ =>
    change st with (failedHere id tx (upd_txDepth S s)) end.
  destruct (failedHere_step id tx (upd_txDepth S s) Hmap) as [Hstep Hgone].
  pose proof (failedHere_flag id tx (upd_txDepth S s)) as Hflag.
  pose proof (failedHere_unexecuted id tx (upd_txDepth S s)) as Hun.
  set (s1 := failedHere id tx (upd_txDepth S s)) in *.
  assert (Hsize1 : size (unexecuted s1) < fuel).
  { rewrite Hun. cbn. rewrite map_size_delete_Some by done.
    assert (size (unexecuted s) ≠ 0) by (by eapply map_size_ne_0_lookup_2).
    lia. }
  destruct (metadata (getTransactionHex s1 id)).
  - apply (wp_mono _ _ (λ _ s2, failStep s1 s2) _ (λ _, False)); [| |done].
    + apply (wp_forEach (λ s2, failStep s1 s2)); [apply failStep_refl|].
      intros d s2 _ H12. apply wp_bind, wp_get.
      eapply wp_mono; [apply IH | | done].
      * pose proof (failStep_size _ _ H12). lia.
      * intros u s3 [H23 _]. by eapply failStep_trans.
    + intros u s2 H12. cbn beta. split; [|split].
      * apply failStep_transaction. by eapply failStep_trans.
      * cbn. by eapply failStep_gone.
      * intros tx' [= <-]. cbn. by eapply failStep_flag.
  - apply wp_notifyReady. split; [|split].
    + apply failStep_transaction. eapply failStep_trans; [done|apply failStep_emitted].
    + done.
    + by intros tx' [= <-].
Qed.



End Failed.

(** *** [addNewTransaction] and [storeParsedExecutableTransaction] *)

(** The state after [addNewTransaction (txid)]. *)
Definition addedNew (now : Z) (id : Txid) (s : Database) : Database :=
  if hasTransaction s id then s
  else
    let s1 := upd_emitted (λ l, l ++ [(onAddTransaction id, txDepth s)])
                (upd_db (addNewTransactionStmt id (Some now)) s) in
    match unexecuted s !! id with
    | Some _ => s1
    | None =>
        upd_unexecuted (<[id := nextAddr s]>)
          (upd_nextAddr S (upd_heap (<[nextAddr s := newUnexecutedTx id false None]>) s1))
    end.

Lemma addNewTransaction_eq now id s :
  addNewTransaction now id s = Ok tt (addedNew now id s).
Proof.
  unfold addNewTransaction, addedNew. rewrite bind_get.
  destruct (hasTransaction s id); [done|].
  unfold bind, run, modify, emit, get. cbn.
  by destruct (unexecuted s !! id).
Qed.

Lemma wp_addNewTransaction {F} now id s Q E :
  Q tt (addedNew now id s) → wp F (addNewTransaction now id) s Q E.
Proof. intros HQ. eapply Ok_wp; [apply addNewTransaction_eq | done]. Qed.

Lemma hasTransaction_row s id :
  hasTransaction s id = true ↔ is_Some (t_tx (db s) !! id).
Proof.
  unfold hasTransaction, hasTransactionStmt.
  destruct (t_tx (db s) !! id); cbn; split; try done; by intros [? [=]].
Qed.

Lemma addedNew_row now id s : is_Some (t_tx (db (addedNew now id s)) !! id).
Proof.
  unfold addedNew. destruct (hasTransaction s id) eqn:Hhas.
  - by apply hasTransaction_row.
  - assert (t_tx (db s) !! id = None) as Hnone.
    { destruct (t_tx (db s) !! id) eqn:E; [|done].
      assert (hasTransaction s id = true) by (apply hasTransaction_row; by rewrite E).
      congruence. }
    destruct (unexecuted s !! id); cbn; rewrite Hnone, lookup_insert_eq; by eexists.
Qed.

(** A txid that has a row is left alone, in the table and in the map. *)
Lemma addedNew_known now id s t :
  is_Some (t_tx (db s) !! t) →
  t_tx (db (addedNew now id s)) !! t = t_tx (db s) !! t
  ∧ unexecuted (addedNew now id s) !! t = unexecuted s !! t.
Proof.
  intros Hrow. unfold addedNew. destruct (hasTransaction s id) eqn:Hhas; [done|].
  assert (t ≠ id) as Hne.
  { intros ->. apply hasTransaction_row in Hrow. congruence. }
  assert (t_tx (db s) !! id = None) as Hnone.
  { destruct (t_tx (db s) !! id) eqn:E; [|done].
    assert (hasTransaction s id = true) by (apply hasTransaction_row; by rewrite E).
    congruence. }
  destruct (unexecuted s !! id); cbn; rewrite Hnone;
    rewrite ?lookup_insert_ne by done; done.
Qed.

Lemma addedNew_mono now id s t a :
  unexecuted s !! t = Some a → unexecuted (addedNew now id s) !! t = Some a.
Proof.
  intros Hmap. unfold addedNew. destruct (hasTransaction s id); [done|].
  destruct (unexecuted s !! id) eqn:E; cbn; [done|].
  rewrite lookup_insert_ne; [done|congruence].
Qed.

Lemma addedNew_size now id s :
  size (unexecuted (addedNew now id s)) ≤ S (size (unexecuted s)).
Proof.
  unfold addedNew. destruct (hasTransaction s id); [lia|].
  destruct (unexecuted s !! id) eqn:E; cbn; [lia|].
  by rewrite map_size_insert_None.
Qed.

Lemma addedNew_depth now id s : txDepth (addedNew now id s) = txDepth s.
Proof.
  unfold addedNew. destruct (hasTransaction s id); [done|].
  by destruct (unexecuted s !! id).
Qed.

(** A loop of statements is one update of the tables. *)
Lemma forEach_run {B} (l : list B) (stmt : B → Tables → Tables) s :
  forEach l (λ x, run (stmt x)) s
  = Ok tt (upd_db (λ t, foldl (λ t' x, stmt x t') t l) s).
Proof.
  revert s. induction l as [|x l IH]; intros s; cbn [forEach foldl].
  - by destruct s.
  - unfold bind, run at 1, modify. rewrite IH. by destruct s.
Qed.

Lemma wp_forEach_run {F} {B} (l : list B) (stmt : B → Tables → Tables) s Q E :
  Q tt (upd_db (λ t, foldl (λ t' x, stmt x t') t l) s) →
  wp F (forEach l (λ x, run (stmt x))) s Q E.
Proof. intros HQ. eapply Ok_wp; [apply forEach_run | done]. Qed.

Lemma foldl_spends_tx {B} (l : list B) (stmt : B → Tables → Tables) t :
  (∀ x t', t_tx (stmt x t') = t_tx t') →
  t_tx (foldl (λ t' x, stmt x t') t l) = t_tx t.
Proof.
  intros Hstmt. revert t. induction l as [|x l IH]; intros t; cbn; [done|].
  by rewrite IH.
Qed.

Section Store.

Variable metadata : option (option string) → bool.

(** The loop over the dependencies when one of them, [bad], has a row with
    [indexed = 0] and no node: it ends in [setTransactionExecutionFailed],
    and the callback returns there. *)
Lemma linkDeps_fails (now : Z) (fuel : nat) (id : Txid) (tx : Addr) (bad : Txid)
    (deps : list Txid) (s : Database) :
  bad ∈ deps →
  unexecuted s !! id = Some tx →
  is_Some (t_tx (db s) !! id) →
  unexecuted s !! bad = None →
  getTransactionIndexedStmt (db s) bad = Some false →
  size (unexecuted s) + length deps < fuel →
  wp False (linkDeps metadata now fuel id tx deps) s
     (λ returned s1,
        returned = true
        ∧ ∃ s0, setTransactionExecutionFailed metadata fuel id s0 = Ok tt s1
                ∧ unexecuted s0 !! id = Some tx
                ∧ is_Some (t_tx (db s0) !! id)
                ∧ size (unexecuted s0) < fuel
                ∧ txDepth s0 = txDepth s)
     (λ _, False).
Proof.
  revert s. induction deps as [|d deps IH]; intros s Hbad Hid Hrow Hnone Hidx Hsize.
  { by apply elem_of_nil in Hbad. }
  cbn [linkDeps]. apply wp_bind, wp_addNewTransaction.
  apply wp_bind, wp_run. apply wp_bind, wp_get.
  assert (Hbadrow : is_Some (t_tx (db s) !! bad)).
  { unfold getTransactionIndexedStmt in Hidx.
    destruct (t_tx (db s) !! bad); [by eexists | done]. }
  destruct (addedNew_known now d s bad Hbadrow) as [Hbad_tx Hbad_map].
  destruct (addedNew_known now d s id Hrow) as [Hid_tx Hid_map].
  pose proof (addedNew_size now d s) as Hsz.
  pose proof (addedNew_depth now d s) as Hdepth.
  pose proof (addedNew_row now d s) as Hdrow.
  set (s1 := addedNew now d s) in *.
  cbn [unexecuted upd_db db].
  change (t_tx (addDepStmt d id (db s1))) with (t_tx (db s1)).
  assert (Hrest : d ≠ bad → bad ∈ deps).
  { intros Hne. apply elem_of_cons in Hbad as [->|]; done. }
  destruct (unexecuted s1 !! d) as [deptx|] eqn:Hd.
  - apply wp_bind. unfold link. apply wp_bind, wp_write. apply wp_write.
    eapply wp_mono; [apply IH | | done]; cbn.
    + apply Hrest. intros ->. congruence.
    + congruence.
    + by rewrite Hid_tx.
    + congruence.
    + unfold getTransactionIndexedStmt in *. cbn. by rewrite Hbad_tx.
    + cbn in Hsize. lia.
    + intros r s2 (-> & s0 & ? & ? & ? & ? & ?). split; [done|].
      exists s0. repeat split; try done. congruence.
  - unfold getTransactionIndexedStmt. cbn [db upd_db].
    change (t_tx (addDepStmt d id (db s1))) with (t_tx (db s1)).
    destruct Hdrow as [r Hr]. rewrite Hr. cbn.
    destruct (indexed r) eqn:Hi.
    + eapply wp_mono; [apply IH | | done]; cbn.
      * apply Hrest. intros ->.
        unfold getTransactionIndexedStmt in Hidx. rewrite <- Hbad_tx, Hr in Hidx.
        cbn in Hidx. congruence.
      * congruence.
      * by rewrite Hid_tx.
      * congruence.
      * unfold getTransactionIndexedStmt in *. cbn. by rewrite Hbad_tx.
      * cbn in Hsize. lia.
      * intros r' s2 (-> & s0 & ? & ? & ? & ? & ?). split; [done|].
        exists s0. repeat split; try done. congruence.
    + apply wp_bind.
      assert (Hsz' : size (unexecuted (upd_db (addDepStmt d id) s1)) < fuel).
      { cbn in *. lia. }
      pose proof (setTransactionExecutionFailed_total metadata fuel id _ Hsz') as Hwp.
      apply wp_Ok in Hwp as ([] & s2 & Hrun & _).
      eapply Ok_wp; [exact Hrun|]. apply wp_ret. split; [done|].
      eexists. split; [exact Hrun|]. cbn. repeat split.
      * congruence.
      * by rewrite Hid_tx.
      * cbn in *. lia.
      * done.
Qed.

(** C7.  [storeParsedExecutableTransaction] on a node [txid] that has a
    row, when a declared dependency has no node and a row with
    [indexed = 0]: the call returns, the row of [txid] ends with
    [executable = 0, executed = 1, indexed = 0], [txid] is out of the map,
    and the state it returns is the one [setTransactionExecutionFailed
    (txid)] left (the transaction closed): nothing is evaluated after it and
    the flag of the node stays [false]. *)
Theorem storeParsedExecutable_fails_on_unindexed_dep
    (now : Z) (fuel : nat) (id : Txid) (hex : string) (code : bool) (deps : list Txid)
    (inputs outputs : list Location) (tx : Addr) (bad : Txid) (s : Database) :
  unexecuted s !! id = Some tx →
  is_Some (t_tx (db s) !! id) →
  bad ∈ deps →
  unexecuted s !! bad = None →
  getTransactionIndexedStmt (db s) bad = Some false →
  size (unexecuted s) + length deps < fuel →
  ∃ s',
    storeParsedExecutableTransaction metadata now fuel id hex code deps inputs outputs s
    = Ok tt s'
    ∧ failedRow (db s') id
    ∧ unexecuted s' !! id = None
    ∧ queuedForExecution (theNode (heap s') tx) = false
    ∧ ∃ s0 s1, unexecuted s0 !! id = Some tx
               ∧ setTransactionExecutionFailed metadata fuel id s0 = Ok tt s1
               ∧ s' = upd_txDepth pred s1.
Proof.
  intros Hid Hrow Hbad Hnone Hidx Hsize.
  apply wp_Ok_unit.
  unfold storeParsedExecutableTransaction. apply wp_transaction.
  do 3 (apply wp_bind, wp_run). do 2 (apply wp_bind, wp_forEach_run).
  apply wp_bind, wp_get. cbn [unexecuted upd_db upd_txDepth]. rewrite Hid.
  do 2 (apply wp_bind, wp_write). apply wp_bind.
  assert (bad ≠ id) as Hne by congruence.
  eapply wp_mono; [apply (linkDeps_fails now fuel id tx bad deps) | | done]; cbn.
  - done.
  - done.
  - rewrite !foldl_spends_tx by done. cbn.
    rewrite !lookup_alter_eq. destruct Hrow as [r ->]. by eexists.
  - done.
  - unfold getTransactionIndexedStmt in *. cbn.
    rewrite !foldl_spends_tx by done. cbn. by rewrite !lookup_alter_ne.
  - done.
  - intros returned s1 (-> & s0 & Hrun & Hid0 & Hrow0 & Hsize0 & Hdepth).
    apply wp_ret.
    pose proof (setTransactionExecutionFailed_total metadata fuel id s0 Hsize0) as Hwp.
    unfold wp in Hwp. rewrite Hrun in Hwp. destruct Hwp as (Hstep & Hgone & Hflag).
    cbn. repeat split.
    + eapply fs_failed; [done | by rewrite Hid0 | done | done].
    + done.
    + by apply Hflag.
    + by exists s0, s1.
Qed.

End Store.

(** *** Callbacks and store transactions *)

(** [fires P s s']: from [s] to [s'] the trace only grew, the number of open
    transactions is the same, and every new call [(e, d)] satisfies
    [P depth e d], [depth] being the number of transactions open in [s]. *)
Definition fires (P : nat → Event → nat → Prop) (s s' : Database) : Prop :=
  txDepth s' = txDepth s
  ∧ ∃ evs, emitted s' = emitted s ++ evs ∧ Forall (λ x, P (txDepth s) x.1 x.2) evs.

Lemma fires_refl P s : fires P s s.
Proof. split; [done|]. exists []. by rewrite app_nil_r. Qed.

Lemma fires_trans P s1 s2 s3 : fires P s1 s2 → fires P s2 s3 → fires P s1 s3.
Proof.
  intros (Hd1 & evs1 & He1 & HP1) (Hd2 & evs2 & He2 & HP2). split; [congruence|].
  exists (evs1 ++ evs2). split.
  - by rewrite He2, He1, app_assoc.
  - apply Forall_app. split; [done|]. by rewrite Hd1 in HP2.
Qed.


(** [holds R m]: whatever the state, a run of [m] that ends (normally or by
    an exception) relates the state before to the state after by [R]. *)
Definition holds {A} (R : Database → Database → Prop) (m : M A) : Prop :=
  ∀ s, wp True m s (λ _ s', R s s') (λ s', R s s').

Section Holds.

Context (R : Database → Database → Prop) `{!PreOrder R}.

Lemma holds_ret {A} (a : A) : holds R (ret a).
Proof. intros s. by apply wp_ret. Qed.

Lemma holds_bind {A B} (m : M A) (k : A → M B) :
  holds R m → (∀ a, holds R (k a)) → holds R (bind m k).
Proof.
  intros Hm Hk s. apply wp_bind. eapply wp_mono; [apply Hm | | done].
  intros a s1 H1. cbn beta.
  eapply wp_mono; [apply Hk | intros b s2 H2 | intros s2 H2];
    exact (transitivity H1 H2).
Qed.

Lemma holds_get : holds R get.
Proof. intros s. by apply wp_get. Qed.

Lemma holds_modify f : (∀ s, R s (f s)) → holds R (modify f).
Proof. intros Hf s. by apply wp_modify. Qed.

Lemma holds_throw {A} : holds R (@throw A).
Proof. intros s. by apply wp_throw. Qed.

Lemma holds_outOfFuel {A} : holds R (@outOfFuel A).
Proof. by intros s. Qed.

Lemma holds_forEach {B} (l : list B) (f : B → M unit) :
  (∀ b, holds R (f b)) → holds R (forEach l f).
Proof.
  intros Hf. induction l as [|b l IH]; cbn [forEach].
  - apply holds_ret.
  - by apply holds_bind.
Qed.

Lemma holds_foldM {A B} (l : list B) (acc : A) (f : A → B → M A) :
  (∀ a b, holds R (f a b)) → holds R (foldM l acc f).
Proof.
  intros Hf. revert acc. induction l as [|b l IH]; intros acc; cbn [foldM].
  - apply holds_ret.
  - by apply holds_bind.
Qed.

End Holds.


(** A call inside [transaction] is made with one more transaction open; an
    exception takes the tables back. *)
Lemma holds_transaction {A} (R R' : Database → Database → Prop) (f : M A) :
  holds R' f →
  (∀ s s1 g, R' (upd_txDepth S s) s1 → R s (upd_txDepth pred (upd_db g s1))) →
  holds R (transaction f).
Proof.
  intros Hf HR s. apply wp_transaction.
  eapply wp_mono; [apply Hf | |]; cbn beta.
  - intros a s1 H1. by apply (HR s s1 id).
  - intros s1 H1. by apply HR.
Qed.


#[local] Instance fires_preorder P : PreOrder (fires P).
Proof. split; [intros s; apply fires_refl | intros s1 s2 s3; apply fires_trans]. Qed.

Section Emits.

Context (P : nat → Event → nat → Prop).













End Emits.


























(** *** The walk of [trust] *)

Section Walk.

Variable s : Database.

Let up (a : Addr) : list Addr := upstream (theNode (heap s) a).

(** The test of the walk: [tx.hasCode && !this.trustlist.has(tx.txid)]. *)
Definition untrustedCode (a : Addr) : Prop :=
  hasCode (theNode (heap s) a) = Some true ∧ (txid (theNode (heap s) a) ∉ trustlist s).

Lemma untrustedCode_test a :
  truthy (hasCode (theNode (heap s) a))
  && negb (bool_decide (txid (theNode (heap s) a) ∈ trustlist s)) = true
  ↔ untrustedCode a.
Proof.
  unfold untrustedCode, truthy.
  destruct (hasCode (theNode (heap s) a)) as [[]|]; cbn;
    rewrite ?negb_true_iff, ?bool_decide_eq_false; naive_solver.
Qed.

Lemma ancestor_trans a b c :
  ancestor (heap s) a b → ancestor (heap s) b c → ancestor (heap s) a c.
Proof.
  intros Hab Hbc. induction Hbc as [u Hu | v u Hbv IH Hu].
  - by eapply ancestor_step.
  - by eapply ancestor_step.
Qed.

(** What the walk can still reach from its queue. *)
Definition reachable (queue : list Addr) (v : Addr) : Prop :=
  ∃ q, q ∈ queue ∧ (q = v ∨ ancestor (heap s) q v).

Lemma trustWalk_spec fuel queue visited trusted res :
  trustWalk fuel s queue visited trusted = Some res →
  ∃ visited',
    visited ⊆ visited'
    ∧ queue ⊆ visited'
    ∧ (∀ v, v ∈ visited' → (v ∉ visited) → up v ⊆ visited')
    ∧ (∀ v, v ∈ visited' → v ∈ visited ∨ reachable queue v)
    ∧ (∀ t, t ∈ res ↔
            t ∈ trusted
            ∨ ∃ v, v ∈ visited' ∧ (v ∉ visited) ∧ untrustedCode v
                   ∧ txid (theNode (heap s) v) = t).
Proof.
  revert queue visited trusted.
  induction fuel as [|fuel IH]; intros queue visited trusted;
    destruct queue as [|a queue]; cbn [trustWalk]; try done.
  - intros [= <-]. exists visited. split; [done|]. split; [set_solver|].
    split; [done|]. split; [by left|]. intros t. split; [by left|].
    by intros [?|(v & ? & ? & _)].
  - intros [= <-]. exists visited. split; [done|]. split; [set_solver|].
    split; [done|]. split; [by left|]. intros t. split; [by left|].
    by intros [?|(v & ? & ? & _)].
  - case_bool_decide as Hvis.
    + intros Hw. destruct (IH _ _ _ Hw) as (visited' & Hsub & Hq & Hcl & Hsound & Hres).
      exists visited'. split; [done|]. split; [set_solver|]. split; [done|].
      split; [|done].
      intros v Hv. destruct (Hsound v Hv) as [?|(q & Hqin & Hr)]; [by left|].
      right. exists q. split; [by right | done].
    + intros Hw. destruct (IH _ _ _ Hw) as (visited' & Hsub & Hq & Hcl & Hsound & Hres).
      exists visited'. split; [set_solver|]. split; [set_solver|]. split; [|split].
      * intros v Hv Hnv. destruct (decide (v = a)) as [->|Hne].
        -- unfold up. set_solver.
        -- apply Hcl; [done|]. set_solver.
      * intros v Hv. destruct (Hsound v Hv) as [Hin|(q & Hqin & Hr)].
        -- apply elem_of_app in Hin as [?|Heq%list_elem_of_singleton]; [by left|].
           subst v. right. exists a. split; [by left | by left].
        -- right. apply elem_of_app in Hqin as [Hqin|Hqin].
           ++ exists q. split; [by right | done].
           ++ exists a. split; [by left|]. right.
              destruct Hr as [->|Hr]; [by apply ancestor_up|].
              eapply ancestor_trans; [by apply ancestor_up | done].
      * intros t. rewrite Hres. clear Hres.
        assert (a ∈ visited') as Ha by set_solver.
        destruct (truthy (hasCode (theNode (heap s) a))
                  && negb (bool_decide (txid (theNode (heap s) a) ∈ trustlist s)))
          eqn:Htest.
        -- apply untrustedCode_test in Htest.
           rewrite elem_of_app, list_elem_of_singleton. split.
           ++ intros [[?| ->]|(v & ? & Hnv & ?)]; [by left | |].
              ** right. by exists a.
              ** right. exists v. split; [done|]. split; [set_solver|done].
           ++ intros [?|(v & Hv & Hnv & Hc & Ht)]; [by left; left|].
              destruct (decide (v = a)) as [->|Hne]; [left; by right|].
              right. exists v. split; [done|]. split; [set_solver|done].
        -- assert (¬ untrustedCode a) as Hna.
           { intros Hc%untrustedCode_test. congruence. }
           split.
           ++ intros [?|(v & ? & Hnv & ?)]; [by left|].
              right. exists v. split; [done|]. split; [set_solver|done].
           ++ intros [?|(v & Hv & Hnv & Hc & Ht)]; [by left|].
              destruct (decide (v = a)) as [->|Hne]; [done|].
              right. exists v. split; [done|]. split; [set_solver|done].
Qed.

(** From the upstream set of [tx] the walk collects the txid of every
    ancestor with code that is not trusted, and no other. *)
Lemma trustWalk_ancestors fuel tx id res :
  trustWalk fuel s (up tx) [] [id] = Some res →
  ∀ t, t ∈ res ↔
       t = id ∨ ∃ u, ancestor (heap s) tx u ∧ untrustedCode u
                     ∧ txid (theNode (heap s) u) = t.
Proof.
  intros Hw t.
  destruct (trustWalk_spec _ _ _ _ _ Hw) as (visited' & _ & Hq & Hcl & Hsound & Hres).
  rewrite Hres, list_elem_of_singleton.
  assert (∀ u, ancestor (heap s) tx u → u ∈ visited') as Hall.
  { intros u Hu. induction Hu as [u Hu | v u _ IH Hu].
    - by apply Hq.
    - apply (Hcl v); [done | apply not_elem_of_nil | done]. }
  assert (∀ v, v ∈ visited' → ancestor (heap s) tx v) as Honly.
  { intros v Hv. destruct (Hsound v Hv) as [Hin|(q & Hqin & Hr)].
    - by apply elem_of_nil in Hin.
    - destruct Hr as [->|Hr]; [by apply ancestor_up|].
      eapply ancestor_trans; [by apply ancestor_up | done]. }
  split.
  - intros [?|(v & Hv & _ & Hc & Ht)]; [by left|]. right. exists v. auto.
  - intros [?|(u & Hu & Hc & Ht)]; [by left|]. right. exists u.
    split; [by apply Hall|]. split; [apply not_elem_of_nil | done].
Qed.

End Walk.

(** The walk ends: every iteration takes an element off the queue, and a
    node puts its upstream set on the queue only once. *)
Section WalkEnds.

Variable s : Database.

Definition pending (visited : list Addr) (l : list (nat * UnexecutedTx)) : nat :=
  sum_list ((λ e, if bool_decide (e.1 ∈ visited) then 0 else length (upstream e.2)) <$> l).

Lemma pending_visit (visited : list Addr) (a : Addr) (l : list (nat * UnexecutedTx)) :
  NoDup l.*1 →
  (∀ e, e ∈ l → heap s !! e.1 = Some e.2) →
  a ∉ visited →
  pending (visited ++ [a]) l + length (upstream (theNode (heap s) a)) ≤ pending visited l
  ∨ ((a ∉ l.*1) ∧ pending (visited ++ [a]) l = pending visited l).
Proof.
  intros Hnd Hl Ha. induction l as [|[b n] l IH]; cbn.
  - right. split; [apply not_elem_of_nil | done].
  - apply NoDup_cons in Hnd as [Hb Hnd].
    destruct IH as [IH|[Hnot IH]]; [done | | |].
    { intros e He. apply Hl. by right. }
    + left. unfold pending in *. cbn.
      repeat case_bool_decide; set_solver by lia.
    + destruct (decide (b = a)) as [->|Hne].
      * left. unfold pending in *. cbn.
        assert (theNode (heap s) a = n) as ->.
        { pose proof (Hl (a, n) ltac:(left)) as Hn. cbn in Hn.
          unfold theNode. by rewrite Hn. }
        rewrite bool_decide_true by set_solver.
        rewrite bool_decide_false by done. lia.
      * right. split; [set_solver|]. unfold pending in *. cbn.
        rewrite IH. repeat case_bool_decide; set_solver by lia.
Qed.

Lemma trustWalk_ends fuel queue visited trusted :
  length queue + pending visited (map_to_list (heap s)) ≤ fuel →
  is_Some (trustWalk fuel s queue visited trusted).
Proof.
  revert queue visited trusted.
  induction fuel as [|fuel IH]; intros queue visited trusted Hfuel;
    destruct queue as [|a queue]; cbn [trustWalk]; try done.
  { cbn in Hfuel. lia. }
  case_bool_decide as Hvis.
  - apply IH. cbn in Hfuel. lia.
  - apply IH. rewrite length_app. cbn in Hfuel.
    destruct (pending_visit visited a (map_to_list (heap s))) as [H|[Hnot H]].
    + apply NoDup_fst_map_to_list.
    + intros [b n] He. by apply elem_of_map_to_list in He.
    + done.
    + fold (theNode (heap s) a) in *. lia.
    + assert (heap s !! a = None) as Hnone.
      { apply not_elem_of_dom. rewrite <- elem_of_elements.
        intros Hin. apply Hnot.
        apply list_elem_of_fmap. apply elem_of_elements, elem_of_dom in Hin as [n Hn].
        exists (a, n). split; [done|]. by apply elem_of_map_to_list. }
      unfold theNode. rewrite Hnone. cbn. lia.
Qed.

Lemma walkBound_pending tx :
  walkBound s tx
  = length (upstream (theNode (heap s) tx)) + pending [] (map_to_list (heap s)).
Proof.
  unfold walkBound, pending. by f_equal.
Qed.

End WalkEnds.

(** *** [_checkExecutability] *)

(** What a run of [_checkExecutability] may change: the flags, the counter
    and the trace. *)
Record sameGraph (s s' : Database) : Prop := mkSameGraph {
  sg_db : db s' = db s;
  sg_map : unexecuted s' = unexecuted s;
  sg_trust : trustlist s' = trustlist s;
  sg_ban : banlist s' = banlist s;
  sg_depth : txDepth s' = txDepth s;
  sg_next : nextAddr s' = nextAddr s;
  sg_dom : ∀ a, heap s' !! a = None ↔ heap s !! a = None;
  sg_node : ∀ a, set_queued false (theNode (heap s') a) = set_queued false (theNode (heap s) a)
}.

Lemma sameGraph_refl s : sameGraph s s.
Proof. by split. Qed.

Lemma sameGraph_trans s1 s2 s3 : sameGraph s1 s2 → sameGraph s2 s3 → sameGraph s1 s3.
Proof.
  intros [] []. split; try congruence.
  all: intros a; first [by rewrite sg_dom1 | by rewrite sg_node1].
Qed.

Lemma sameGraph_downstream s s' a :
  sameGraph s s' → downstream (theNode (heap s') a) = downstream (theNode (heap s) a).
Proof. intros [_ _ _ _ _ _ _ H]. exact (f_equal downstream (H a)). Qed.

Lemma sameGraph_upstream s s' a :
  sameGraph s s' → upstream (theNode (heap s') a) = upstream (theNode (heap s) a).
Proof. intros [_ _ _ _ _ _ _ H]. exact (f_equal upstream (H a)). Qed.

Lemma sameGraph_txid s s' a :
  sameGraph s s' → txid (theNode (heap s') a) = txid (theNode (heap s) a).
Proof. intros [_ _ _ _ _ _ _ H]. exact (f_equal txid (H a)). Qed.

Lemma sameGraph_downloaded s s' a :
  sameGraph s s' → downloaded (theNode (heap s') a) = downloaded (theNode (heap s) a).
Proof. intros [_ _ _ _ _ _ _ H]. exact (f_equal downloaded (H a)). Qed.


Lemma forallb_pointwise {A} (f g : A → bool) (l : list A) :
  (∀ x, f x = g x) → forallb f l = forallb g l.
Proof. intros Hfg. induction l as [|x l IH]; cbn; [done|]. by rewrite Hfg, IH. Qed.

(** [shallow] only looks at the downstream sets. *)
Lemma shallow_ext fuel h h' a :
  (∀ x, downstream (theNode h' x) = downstream (theNode h x)) →
  shallow fuel h' a = shallow fuel h a.
Proof.
  intros Hd. revert a. induction fuel as [|fuel IH]; intros a; cbn; [done|].
  rewrite Hd. apply forallb_pointwise. intros d. apply IH.
Qed.

Lemma shallow_sameGraph fuel s s' a :
  sameGraph s s' → shallow fuel (heap s') a = shallow fuel (heap s) a.
Proof. intros Hsg. apply shallow_ext. intros x. by apply sameGraph_downstream. Qed.

Lemma shallow_down fuel h a d :
  shallow (S fuel) h a = true → d ∈ downstream (theNode h a) → shallow fuel h d = true.
Proof.
  cbn. intros Hall Hd. apply (proj1 (forallb_forall _ _) Hall). by apply list_elem_of_In.
Qed.

Lemma acyclicWithin_shallow fuel s a :
  acyclicWithin fuel s = true → shallow fuel (heap s) a = true.
Proof.
  unfold acyclicWithin. intros [Hpos Hall]%andb_true_iff.
  destruct (heap s !! a) as [n|] eqn:Hn.
  - apply (proj1 (forallb_forall _ _) Hall (a, n)).
    apply list_elem_of_In. by apply elem_of_map_to_list.
  - apply Nat.ltb_lt in Hpos. destruct fuel as [|fuel]; [lia|].
    cbn. unfold theNode. by rewrite Hn.
Qed.

(** [x] is [tx] or is downstream of it, in any number of steps. *)
Inductive below (h : gmap nat UnexecutedTx) : Addr → Addr → Prop :=
| below_refl a : below h a a
| below_step a d x : d ∈ downstream (theNode h a) → below h d x → below h a x.

Lemma below_ext h h' a x :
  (∀ y, downstream (theNode h' y) = downstream (theNode h y)) →
  below h a x → below h' a x.
Proof.
  intros Hd Hb. induction Hb as [a | a d x Hin _ IH].
  - apply below_refl.
  - eapply below_step; [|exact IH]. by rewrite Hd.
Qed.

(** Within a shallow part of the graph nothing is below itself. *)
Lemma shallow_below fuel h a x :
  shallow fuel h a = true → below h a x → a = x ∨ ∃ fuel', fuel' < fuel ∧ shallow fuel' h x = true.
Proof.
  intros Hs Hb. revert fuel Hs. induction Hb as [a | a d x Hin _ IH]; intros fuel Hs.
  - by left.
  - right. destruct fuel as [|fuel]; [done|].
    pose proof (shallow_down _ _ _ _ Hs Hin) as Hd.
    destruct (IH _ Hd) as [<-|(fuel' & Hlt & Hx)].
    + exists fuel. split; [lia|done].
    + exists fuel'. split; [lia|done].
Qed.

Lemma shallow_acyclic fuel h a d :
  shallow fuel h a = true → d ∈ downstream (theNode h a) → ¬ below h d a.
Proof.
  revert a d. induction (lt_wf fuel) as [fuel _ IH]. intros a d Hs Hin Hb.
  destruct fuel as [|fuel]; [done|].
  pose proof (shallow_down _ _ _ _ Hs Hin) as Hd.
  destruct (shallow_below _ _ _ _ Hd Hb) as [->|(fuel' & Hlt & Ha)].
  - by apply (IH fuel (Nat.lt_succ_diag_r _) a a).
  - apply (IH fuel' ltac:(lia) a d); [done..|]. done.
Qed.

Lemma theNode_set_queued h a b x :
  set_queued false (theNode (alter (set_queued b) a h) x) = set_queued false (theNode h x).
Proof.
  unfold theNode. rewrite lookup_alter. destruct (decide (a = x)) as [->|]; [|done].
  by destruct (h !! x).
Qed.

(** [_checkExecutability] returns on a shallow part of the graph, and
    changes no flag outside of it. *)
Lemma _checkExecutability_total fuel tx force s :
  shallow fuel (heap s) tx = true →
  wp False (_checkExecutability fuel tx force) s
     (λ _ s', sameGraph s s' ∧ ∀ x, ¬ below (heap s) tx x → flag s' x = flag s x)
     (λ _, False).
Proof.
  revert tx force s. induction fuel as [|fuel IH]; intros tx force s Hs; [done|].
  cbn [_checkExecutability]. apply wp_bind, wp_get. cbn zeta.
  destruct (Bool.eqb _ _); [by apply wp_ret; split; [apply sameGraph_refl|]|].
  apply wp_bind, wp_modify, wp_bind, wp_write, wp_bind.
  set (n := theNode (heap s) tx) in *.
  set (queued := match force with Some b => b | None => ready s n end).
  set (s1 := upd_heap (alter (set_queued queued) tx)
               (upd_num (if queued then Z.succ else Z.pred) s)) in *.
  assert (Hflip : sameGraph s s1).
  { split; try done.
    - intros a. cbn. rewrite lookup_alter. destruct (decide (tx = a)) as [->|]; [|done].
      destruct (heap s !! a); cbn; naive_solver.
    - intros a. cbn. apply theNode_set_queued. }
  assert (Hframe1 : ∀ x, ¬ below (heap s) tx x → flag s1 x = flag s x).
  { intros x Hx. unfold flag, s1. cbn. rewrite theNode_alter_ne; [done|].
    intros ->. apply Hx, below_refl. }
  assert (Hloop : ∀ s2, sameGraph s s2 → (∀ x, ¬ below (heap s) tx x → flag s2 x = flag s x) →
    wp False (forEach (downstream n) (λ downtx, _checkExecutability fuel downtx None)) s2
       (λ _ s', sameGraph s s' ∧ ∀ x, ¬ below (heap s) tx x → flag s' x = flag s x)
       (λ _, False)).
  { intros s2 H2 Hf2.
    apply (wp_forEach (λ s', sameGraph s s'
                             ∧ ∀ x, ¬ below (heap s) tx x → flag s' x = flag s x));
      [done|].
    intros d s3 Hd [H3 Hf3].
    eapply wp_mono; [apply IH | | done].
    - rewrite (shallow_sameGraph _ _ _ _ H3). by eapply shallow_down.
    - intros u s4 [H34 Hf4]. cbn beta. split; [by eapply sameGraph_trans|].
      intros x Hx. rewrite Hf4; [by apply Hf3|].
      intros Hb. apply Hx. eapply below_step; [exact Hd|].
      eapply below_ext; [|exact Hb]. intros y. symmetry. by apply sameGraph_downstream. }
  destruct (isEmpty (upstream n) && queued).
  - apply wp_emit. apply Hloop.
    + destruct Hflip. by split.
    + done.
  - apply wp_ret. by apply Hloop.
Qed.

(** *** [trust] and [untrust] *)

Definition keepsTrust (s s' : Database) : Prop := trustlist s' = trustlist s.

#[local] Instance keepsTrust_preorder : PreOrder keepsTrust.
Proof. split; [done | intros s1 s2 s3; unfold keepsTrust; congruence]. Qed.

Lemma holds_alloc R n :
  (∀ s, R s (upd_nextAddr S (upd_heap (<[nextAddr s := n]>) s))) → holds R (alloc n).
Proof. intros Hf s. by apply wp_alloc. Qed.

Lemma holds_emit R e :
  (∀ s, R s (upd_emitted (λ l, l ++ [(e, txDepth s)]) s)) → holds R (emit e).
Proof. intros Hf s. by apply wp_emit. Qed.

Ltac holds_with tac :=
  repeat first
    [ tac
    | match goal with |- ∀ _, _ => intro end
    | progress cbn zeta
    | apply holds_bind; [apply _ | |]
    | apply holds_ret; apply _
    | apply holds_get; apply _
    | apply holds_throw; apply _
    | apply holds_outOfFuel
    | apply holds_forEach; [apply _ |]
    | apply holds_foldM; [apply _ |]
    | apply holds_modify; by intros ?
    | apply holds_alloc; by intros ?
    | apply holds_emit; by intros ?
    | match goal with
      | |- holds ?R (transaction _) =>
          apply (holds_transaction R R); [|by intros ? ? ?]
      | |- holds _ (match ?x with _ => _ end) => destruct x
      end ].

Lemma _checkExecutability_keepsTrust fuel tx force :
  holds keepsTrust (_checkExecutability fuel tx force).
Proof.
  revert tx force. induction fuel as [|fuel IH]; intros tx force;
    cbn [_checkExecutability]; holds_with ltac:(idtac; apply IH).
Qed.

Lemma unindexTransaction_keepsTrust fuel id :
  holds keepsTrust (unindexTransaction fuel id).
Proof.
  revert id. induction fuel as [|fuel IH]; intros id; cbn [unindexTransaction];
    holds_with ltac:(idtac; first [apply _checkExecutability_keepsTrust | apply IH]).
Qed.

Lemma forEach_modify {B} (l : list B) (g : B → Database → Database) s :
  forEach l (λ x, modify (g x)) s = Ok tt (foldl (λ s' x, g x s') s l).
Proof.
  revert s. induction l as [|x l IH]; intros s; cbn [forEach foldl]; [done|].
  unfold bind, modify at 1. by rewrite IH.
Qed.

(** The state once [trust] has stored the list [trusted]. *)
Definition trustedAll (trusted : list Txid) (s : Database) : Database :=
  foldl (λ s' t, upd_trustlist (λ l, l ∪ {[t]}) s')
        (upd_db (λ d, foldl (λ d' t, setTrustedStmt t 1 d') d trusted) s) trusted.

Lemma trustedAll_fold trusted s :
  let s' := foldl (λ s' t, upd_trustlist (λ l, l ∪ {[t]}) s') s trusted in
  heap s' = heap s ∧ unexecuted s' = unexecuted s ∧ banlist s' = banlist s
  ∧ txDepth s' = txDepth s ∧ emitted s' = emitted s ∧ db s' = db s
  ∧ trustlist s' = trustlist s ∪ list_to_set trusted.
Proof.
  revert s. induction trusted as [|t l IH]; intros s; cbn.
  - repeat split. set_solver.
  - destruct (IH (upd_trustlist (λ l0, l0 ∪ {[t]}) s)) as (-> & -> & -> & -> & -> & -> & ->).
    repeat split. cbn. set_solver.
Qed.

Lemma trustedAll_spec trusted s :
  heap (trustedAll trusted s) = heap s
  ∧ unexecuted (trustedAll trusted s) = unexecuted s
  ∧ banlist (trustedAll trusted s) = banlist s
  ∧ txDepth (trustedAll trusted s) = txDepth s
  ∧ trustlist (trustedAll trusted s) = trustlist s ∪ list_to_set trusted
  ∧ t_tx (db (trustedAll trusted s)) = t_tx (db s).
Proof.
  unfold trustedAll.
  destruct (trustedAll_fold trusted
              (upd_db (λ d, foldl (λ d' t, setTrustedStmt t 1 d') d trusted) s))
    as (-> & -> & -> & -> & _ & -> & ->).
  repeat split. cbn. by apply foldl_spends_tx.
Qed.

(** [trust] after the walk: the store transaction, the re-evaluation of
    the trusted nodes, the callbacks. *)
Definition trustRest (fuel : nat) (trusted : list Txid) : M unit :=
  transaction (
    forEach trusted (λ t, run (setTrustedStmt t 1)) ;;
    forEach trusted (λ t, modify (upd_trustlist (λ l, l ∪ {[t]})))) ;;
  forEach trusted (λ t,
    s' <- get ;;
    match unexecuted s' !! t with
    | Some tx => _checkExecutability fuel tx None
    | None => ret tt
    end) ;;
  forEach trusted (λ t, emit (onTrustTransaction t)).

Lemma wp_trust_transaction {F} trusted s Q E :
  Q tt (upd_txDepth pred (trustedAll trusted (upd_txDepth S s))) →
  wp F (transaction (
          forEach trusted (λ t, run (setTrustedStmt t 1)) ;;
          forEach trusted (λ t, modify (upd_trustlist (λ l, l ∪ {[t]}))))) s Q E.
Proof.
  intros HQ. apply wp_transaction, wp_bind, wp_forEach_run.
  eapply Ok_wp; [apply forEach_modify | exact HQ].
Qed.

Lemma trustRest_partial fuel trusted s :
  wp True (trustRest fuel trusted) s
     (λ _ s', trustlist s' = trustlist s ∪ list_to_set trusted) (λ _, True).
Proof.
  unfold trustRest. apply wp_bind, wp_trust_transaction.
  destruct (trustedAll_spec trusted (upd_txDepth S s)) as (_ & _ & _ & _ & Htl & _).
  set (s1 := upd_txDepth pred (trustedAll trusted (upd_txDepth S s))).
  assert (trustlist s1 = trustlist s ∪ list_to_set trusted) as <- by done.
  assert (Hk : holds keepsTrust
    (forEach trusted (λ t, s' <- get ;;
        match unexecuted s' !! t with
        | Some tx => _checkExecutability fuel tx None
        | None => ret tt
        end) ;;
     forEach trusted (λ t, emit (onTrustTransaction t)))).
  { holds_with ltac:(idtac; apply _checkExecutability_keepsTrust). }
  eapply wp_mono; [apply Hk | | done]. done.
Qed.

(** What [trust] keeps of the graph: the map, the rows and every field of
    every object but its flag. *)
Definition sameShape (s s' : Database) : Prop :=
  unexecuted s' = unexecuted s
  ∧ t_tx (db s') = t_tx (db s)
  ∧ banlist s' = banlist s
  ∧ ∀ a, set_queued false (theNode (heap s') a) = set_queued false (theNode (heap s) a).

Lemma sameGraph_sameShape s1 s2 s3 : sameShape s1 s2 → sameGraph s2 s3 → sameShape s1 s3.
Proof.
  intros (Hm & Ht & Hb & Hn) [Hdb Hmap _ Hban _ _ _ Hnode].
  split; [congruence|]. split; [congruence|].
  split; [congruence|]. intros a. by rewrite Hnode.
Qed.

Lemma sameShape_shallow fuel s s' a :
  sameShape s s' → shallow fuel (heap s') a = shallow fuel (heap s) a.
Proof.
  intros (_ & _ & _ & Hn). apply shallow_ext. intros x.
  exact (f_equal downstream (Hn x)).
Qed.

Lemma trustRest_total fuel trusted s :
  acyclicWithin fuel s = true →
  wp False (trustRest fuel trusted) s (λ _ s', sameShape s s') (λ _, False).
Proof.
  intros Hacyc. unfold trustRest. apply wp_bind, wp_trust_transaction.
  destruct (trustedAll_spec trusted (upd_txDepth S s)) as (Hheap & Hmap & Hban & _ & _ & Htx).
  set (s1 := upd_txDepth pred (trustedAll trusted (upd_txDepth S s))).
  assert (sameShape s s1) as Hs1.
  { split; [done|]. split; [done|]. split; [done|]. intros a. unfold s1. cbn.
    by rewrite Hheap. }
  apply wp_bind.
  apply (wp_mono _ _ (λ _ s2, sameShape s s2) _ (λ _, False)); [| |done].
  - apply (wp_forEach (λ s2, sameShape s s2)); [done|].
    intros t s2 _ H12. apply wp_bind, wp_get.
    destruct (unexecuted s2 !! t) as [tx|]; [|by apply wp_ret].
    eapply wp_mono; [apply _checkExecutability_total | | done].
    + rewrite (sameShape_shallow _ _ _ _ H12). by apply acyclicWithin_shallow.
    + intros u s3 [H23 _]. by eapply sameGraph_sameShape.
  - intros u s2 H2. cbn beta.
    apply (wp_forEach (λ s3, sameShape s s3)); [done|].
    intros t s3 _ H3. by apply wp_emit.
Qed.

(** The ancestors that [trust (id)] trusts with [id]: those with code that
    are not trusted. *)
Definition trustedAncestor (s : Database) (id t : Txid) : Prop :=
  ∃ tx u, unexecuted s !! id = Some tx
          ∧ ancestor (heap s) tx u
          ∧ untrustedCode s u
          ∧ txid (theNode (heap s) u) = t.

Lemma trust_partial fuel id s :
  id ∉ trustlist s →
  wp True (trust fuel id) s
     (λ _ s', ∀ t, t ∈ trustlist s' ↔ t ∈ trustlist s ∨ t = id ∨ trustedAncestor s id t)
     (λ _, True).
Proof.
  intros Hnot. unfold trust. apply wp_bind, wp_get.
  rewrite bool_decide_false by done. apply wp_bind.
  destruct (unexecuted s !! id) as [tx|] eqn:Hmap.
  - destruct (trustWalk fuel s (upstream (theNode (heap s) tx)) [] [id]) as [l|] eqn:Hw;
      [|done].
    apply wp_ret.
    eapply wp_mono; [apply (trustRest_partial fuel l s) | | done].
    intros u s' Htl t. cbn beta. rewrite Htl, elem_of_union, elem_of_list_to_set.
    rewrite (trustWalk_ancestors s fuel tx id l Hw t).
    unfold trustedAncestor. rewrite Hmap. naive_solver.
  - apply wp_ret.
    eapply wp_mono; [apply (trustRest_partial fuel [id] s) | | done].
    intros u s' Htl t. cbn beta. rewrite Htl, elem_of_union, elem_of_list_to_set.
    rewrite list_elem_of_singleton. unfold trustedAncestor. rewrite Hmap. naive_solver.
Qed.

Lemma trust_total fuel id s :
  acyclicWithin fuel s = true →
  walkBoundOf s id ≤ fuel →
  wp False (trust fuel id) s (λ _ s', sameShape s s') (λ _, False).
Proof.
  intros Hacyc Hwalk. unfold trust. apply wp_bind, wp_get.
  destruct (bool_decide (id ∈ trustlist s)); [by apply wp_ret|]. apply wp_bind.
  unfold walkBoundOf in Hwalk.
  destruct (unexecuted s !! id) as [tx|] eqn:Hmap.
  - destruct (trustWalk_ends s fuel (upstream (theNode (heap s) tx)) [] [id]) as [l Hl].
    { by rewrite <- walkBound_pending. }
    rewrite Hl. apply wp_ret. by apply (trustRest_total fuel l s).
  - apply wp_ret. by apply (trustRest_total fuel [id] s).
Qed.

(** C3, as the code has it.  For a txid that is not trusted yet, on a database
    whose graph is acyclic, [trust] returns, and the trust set it leaves is
    the one before, [id], and the txid of every ancestor of the node of [id]
    that has code and was not trusted. *)
Theorem trust_adds_untrusted_ancestors (fuel : nat) (id : Txid) (s : Database) :
  id ∉ trustlist s →
  acyclicWithin fuel s = true →
  walkBoundOf s id ≤ fuel →
  ∃ s', trust fuel id s = Ok tt s'
        ∧ ∀ t, t ∈ trustlist s' ↔ t ∈ trustlist s ∨ t = id ∨ trustedAncestor s id t.
Proof.
  intros Hnot Hacyc Hwalk.
  destruct (wp_Ok_unit _ _ _ (trust_total fuel id s Hacyc Hwalk)) as (s' & Hrun & _).
  exists s'. split; [done|].
  pose proof (trust_partial fuel id s Hnot) as Hp. unfold wp in Hp. by rewrite Hrun in Hp.
Qed.

Lemma untrust_partial fuel id s :
  id ∈ trustlist s →
  wp True (untrust fuel id) s
     (λ _ s', trustlist s' = trustlist s ∖ {[id]}) (λ _, True).
Proof.
  intros Hin. unfold untrust. apply wp_bind, wp_get.
  rewrite bool_decide_true by done. cbn [negb]. apply wp_bind.
  assert (Hk : holds keepsTrust
    (transaction (unindexTransaction fuel id ;; run (setTrustedStmt id 0)))).
  { holds_with ltac:(idtac; apply unindexTransaction_keepsTrust). }
  eapply wp_mono; [apply Hk | | done].
  intros u s1 Hs1. cbn beta. apply wp_bind, wp_modify, wp_emit. cbn.
  by rewrite Hs1.
Qed.

Lemma unindexTransaction_in_map fuel id tx s :
  unexecuted s !! id = Some tx →
  unindexTransaction fuel id s = _checkExecutability fuel tx (Some false) s.
Proof. intros Hmap. destruct fuel; cbn [unindexTransaction]; by rewrite bind_get, Hmap. Qed.

Lemma untrust_total fuel id s :
  id ∈ trustlist s →
  match unexecuted s !! id with
  | Some tx => shallow fuel (heap s) tx = true
  | None => getTransactionIndexedStmt (db s) id = Some false ∧ 0 < fuel
  end →
  wp False (untrust fuel id) s (λ _ _, True) (λ _, False).
Proof.
  intros Hin Hcase. unfold untrust. apply wp_bind, wp_get.
  rewrite bool_decide_true by done. cbn [negb].
  apply wp_bind, wp_transaction, wp_bind.
  apply (wp_mono _ _ (λ _ _, True) _ (λ _, False)); [| |done].
  - destruct (unexecuted s !! id) as [tx|] eqn:Hmap.
    + unfold wp. rewrite (unindexTransaction_in_map _ _ tx) by done.
      eapply wp_mono; [by apply _checkExecutability_total | done | done].
    + destruct Hcase as [Hidx Hpos]. destruct fuel as [|fuel]; [lia|].
      cbn [unindexTransaction]. apply wp_bind, wp_get. cbn. rewrite Hmap.
      apply wp_transaction. cbn. by rewrite Hidx.
  - intros u s1 _. cbn beta. apply wp_run, wp_bind, wp_modify, wp_emit. done.
Qed.

Lemma bind_Ok_inv {A B} (m : M A) (k : A → M B) s b s' :
  bind m k s = Ok b s' → ∃ a s1, m s = Ok a s1 ∧ k a s1 = Ok b s'.
Proof. unfold bind. destruct (m s) as [a s1| |]; [|done..]. by exists a, s1. Qed.

(** C9, as the code has it.  For a txid that is not trusted: whenever
    [trust (id); untrust (id)] returns, the trust set is the one before
    plus the ancestors with code that [trust] trusted with [id], and so the
    one before exactly when there was none; and the pair of calls does
    return when the graph is acyclic and the txid has a node, or a row with
    [indexed = 0]. *)
Theorem trust_then_untrust (fuel : nat) (id : Txid) (s : Database) :
  id ∉ trustlist s →
  (∀ s', (trust fuel id ;; untrust fuel id) s = Ok tt s' →
     (∀ t, t ∈ trustlist s' ↔ t ∈ trustlist s ∨ (t ≠ id ∧ trustedAncestor s id t))
     ∧ ((∀ t, trustedAncestor s id t → t = id) → trustlist s' = trustlist s))
  ∧ (acyclicWithin fuel s = true →
     walkBoundOf s id ≤ fuel →
     is_Some (unexecuted s !! id) ∨ getTransactionIndexedStmt (db s) id = Some false →
     ∃ s', (trust fuel id ;; untrust fuel id) s = Ok tt s').
Proof.
  intros Hnot. split.
  - intros s' Hrun. apply bind_Ok_inv in Hrun as ([] & s1 & Htrust & Huntrust).
    pose proof (trust_partial fuel id s Hnot) as H1. unfold wp in H1. rewrite Htrust in H1.
    assert (id ∈ trustlist s1) as Hin by (apply H1; auto).
    pose proof (untrust_partial fuel id s1 Hin) as H2. unfold wp in H2.
    rewrite Huntrust in H2.
    assert (Hchar : ∀ t, t ∈ trustlist s' ↔
                         t ∈ trustlist s ∨ (t ≠ id ∧ trustedAncestor s id t)).
    { intros t. rewrite H2, elem_of_difference, H1, not_elem_of_singleton.
      split; [naive_solver|]. intros [Ht|[Hne Ha]]; [|naive_solver].
      split; [by left|]. by intros ->. }
    split; [done|]. intros Hnone. apply set_eq. intros t. rewrite Hchar.
    split; [|by left]. intros [?|[Hne Ha]]; [done|]. by apply Hnone in Ha.
  - intros Hacyc Hwalk Hcase.
    destruct (wp_Ok_unit _ _ _ (trust_total fuel id s Hacyc Hwalk))
      as (s1 & Htrust & Hmap & Htx & _ & Hnode).
    pose proof (trust_partial fuel id s Hnot) as H1. unfold wp in H1. rewrite Htrust in H1.
    assert (id ∈ trustlist s1) as Hin by (apply H1; auto).
    assert (Hcase1 : match unexecuted s1 !! id with
                     | Some tx => shallow fuel (heap s1) tx = true
                     | None => getTransactionIndexedStmt (db s1) id = Some false ∧ 0 < fuel
                     end).
    { rewrite Hmap. destruct (unexecuted s !! id) as [tx|] eqn:Hid.
      - rewrite (shallow_ext fuel (heap s) (heap s1)).
        + by apply acyclicWithin_shallow.
        + intros x. exact (f_equal downstream (Hnode x)).
      - destruct Hcase as [[? [=]]|Hidx]. split.
        + unfold getTransactionIndexedStmt in *. by rewrite Htx.
        + unfold acyclicWithin in Hacyc. apply andb_true_iff in Hacyc as [Hpos _].
          by apply Nat.ltb_lt in Hpos. }
    destruct (wp_Ok_unit _ _ (λ _, True) (untrust_total fuel id s1 Hin Hcase1))
      as (s' & Hun & _).
    exists s'. unfold bind. by rewrite Htrust.
Qed.

(** *** The readiness invariant *)

Lemma readyConsistent_spec s : readyConsistent s = true ↔ ∀ a, inMap s a → okAt s a.
Proof.
  unfold readyConsistent, okAt. rewrite forallb_forall. split.
  - intros H a [t Ht]. apply Bool.eqb_prop.
    apply (H (t, a)). apply list_elem_of_In. by apply elem_of_map_to_list.
  - intros H [t a] Hin. cbn. apply Bool.eqb_true_iff. apply H. exists t.
    apply elem_of_map_to_list. by apply list_elem_of_In.
Qed.

Lemma keysMatch_spec s t a :
  keysMatch s = true → unexecuted s !! t = Some a → txid (theNode (heap s) a) = t.
Proof.
  unfold keysMatch. rewrite forallb_forall. intros H Ht.
  specialize (H (t, a)). cbn in H. apply bool_decide_eq_true in H; [done|].
  apply list_elem_of_In. by apply elem_of_map_to_list.
Qed.

(** Two nodes of the map with the same txid are the same object. *)
Lemma keysMatch_inMap s x t :
  keysMatch s = true → inMap s x → txid (theNode (heap s) x) = t →
  unexecuted s !! t = Some x.
Proof.
  intros Hk [t' Ht'] Ht. by rewrite <- Ht, (keysMatch_spec s t' x Hk Ht').
Qed.

Definition mirroredP (s : Database) : Prop :=
  ∀ x u, inMap s x → u ∈ upstream (theNode (heap s) x) →
         x ∈ downstream (theNode (heap s) u).

Lemma mirrored_spec s : mirrored s = true → mirroredP s.
Proof.
  unfold mirrored. rewrite forallb_forall. intros H x u [t Ht] Hu.
  assert (Hin : In (t, x) (map_to_list (unexecuted s))).
  { apply list_elem_of_In. by apply elem_of_map_to_list. }
  pose proof (H (t, x) Hin) as H1. cbn in H1. rewrite forallb_forall in H1.
  assert (Hu' : In u (upstream (theNode (heap s) x))) by (by apply list_elem_of_In).
  specialize (H1 u Hu'). by apply bool_decide_eq_true in H1.
Qed.


Lemma sameGraph_inMap s s' x : sameGraph s s' → inMap s' x ↔ inMap s x.
Proof. intros [_ Hmap _ _ _ _ _ _]. unfold inMap. by rewrite Hmap. Qed.

Lemma sameGraph_mirroredP s s' : sameGraph s s' → mirroredP s → mirroredP s'.
Proof.
  intros Hsg Hm x u Hx Hu.
  rewrite (sameGraph_downstream _ _ _ Hsg). rewrite (sameGraph_upstream _ _ _ Hsg) in Hu.
  apply Hm; [|done]. by apply (sameGraph_inMap _ _ _ Hsg).
Qed.

Lemma existsb_pointwise_in {A} (f g : A → bool) (l : list A) :
  (∀ x, x ∈ l → f x = g x) → existsb f l = existsb g l.
Proof.
  induction l as [|x l IH]; intros Hfg; cbn; [done|].
  rewrite Hfg by left. rewrite IH; [done|]. intros y Hy. apply Hfg. by right.
Qed.

(** [ready] looks at the fields of the node, at its txid in the two sets,
    and at the flags of its upstream neighbours. *)
Lemma ready_ext s s' x :
  set_queued false (theNode (heap s') x) = set_queued false (theNode (heap s) x) →
  (txid (theNode (heap s) x) ∈ trustlist s' ↔ txid (theNode (heap s) x) ∈ trustlist s) →
  (txid (theNode (heap s) x) ∈ banlist s' ↔ txid (theNode (heap s) x) ∈ banlist s) →
  (∀ u, u ∈ upstream (theNode (heap s) x) → flag s' u = flag s u) →
  ready s' (theNode (heap s') x) = ready s (theNode (heap s) x).
Proof.
  intros Hn Ht Hb Hu. unfold ready.
  pose proof (f_equal downloaded Hn) as Hd. pose proof (f_equal hasCode Hn) as Hc.
  pose proof (f_equal txid Hn) as Hi. pose proof (f_equal upstream Hn) as Hup.
  cbn in Hd, Hc, Hi, Hup. rewrite Hd, Hc, Hi, Hup.
  rewrite (bool_decide_ext _ _ Ht), (bool_decide_ext _ _ Hb).
  do 2 f_equal. apply existsb_pointwise_in. intros u Hin. f_equal. by apply Hu.
Qed.

Lemma sameGraph_okAt s s' x :
  sameGraph s s' →
  flag s' x = flag s x →
  (∀ u, u ∈ upstream (theNode (heap s) x) → flag s' u = flag s u) →
  okAt s x → okAt s' x.
Proof.
  intros Hsg Hx Hu Hok. unfold okAt. rewrite Hx, Hok. symmetry.
  destruct Hsg as [_ _ Ht Hb _ _ _ Hn]. apply ready_ext; [done | by rewrite Ht | by rewrite Hb | done].
Qed.

Lemma wp_and {A} {F} (m : M A) s (Q1 Q2 : A → Database → Prop) E :
  wp F m s Q1 E → wp F m s Q2 E → wp F m s (λ a s', Q1 a s' ∧ Q2 a s') E.
Proof. unfold wp. by destruct (m s). Qed.

(** The state of [_checkExecutability] once it has stored the new flag. *)
Definition flipped (tx : Addr) (queued : bool) (s : Database) : Database :=
  upd_heap (alter (set_queued queued) tx)
    (upd_num (if queued then Z.succ else Z.pred) s).

Lemma flipped_sameGraph tx queued s : sameGraph s (flipped tx queued s).
Proof.
  split; try done.
  - intros a. cbn. rewrite lookup_alter. destruct (decide (tx = a)) as [->|]; [|done].
    destruct (heap s !! a); cbn; naive_solver.
  - intros a. cbn. apply theNode_set_queued.
Qed.

Lemma flipped_flag_ne tx queued s x : x ≠ tx → flag (flipped tx queued s) x = flag s x.
Proof. intros Hne. unfold flag, flipped. cbn. by rewrite theNode_alter_ne. Qed.

Lemma flipped_flag_eq tx queued s :
  is_Some (heap s !! tx) → flag (flipped tx queued s) tx = queued.
Proof.
  intros [n Hn]. unfold flag, flipped. cbn. by rewrite (theNode_alter_eq _ _ _ n).
Qed.

(** A node whose flag differs from [ready] is an object of the heap. *)
Lemma dangling_ready s tx : heap s !! tx = None → ready s (theNode (heap s) tx) = false.
Proof. intros Hn. unfold theNode. by rewrite Hn. Qed.

Lemma dangling_flag s tx : heap s !! tx = None → flag s tx = false.
Proof. intros Hn. unfold flag, theNode. by rewrite Hn. Qed.

(** The loop of [_checkExecutability] over the downstream set, given the
    property of the calls it makes. *)
Definition settlesAt (fuel : nat) (tx : Addr) : Prop :=
  ∀ s, shallow fuel (heap s) tx = true → mirroredP s →
       wp False (_checkExecutability fuel tx None) s
          (λ _ s', ∀ x, inMap s x → x = tx ∨ okAt s x → okAt s' x)
          (λ _, False).

Lemma settle_loop fuel (ds : list Addr) s :
  (∀ d, settlesAt fuel d) →
  (∀ d, d ∈ ds → shallow fuel (heap s) d = true) →
  mirroredP s →
  wp False (forEach ds (λ downtx, _checkExecutability fuel downtx None)) s
     (λ _ s', sameGraph s s'
              ∧ (∀ x, inMap s x → x ∈ ds ∨ okAt s x → okAt s' x)
              ∧ (∀ x, (∀ d, d ∈ ds → ¬ below (heap s) d x) → flag s' x = flag s x))
     (λ _, False).
Proof.
  intros Hsettle. revert s. induction ds as [|d ds IH]; intros s Hsh Hmir; cbn [forEach].
  - apply wp_ret. split; [apply sameGraph_refl|]. split; [|done].
    intros x _ [Hx|Hx]; [by apply elem_of_nil in Hx | done].
  - apply wp_bind.
    eapply wp_mono; [apply wp_and; [apply _checkExecutability_total | apply Hsettle] | | done].
    + apply Hsh. by left.
    + apply Hsh. by left.
    + done.
    + intros u s1 [[Hsg Hframe] Hok]. cbn beta.
      eapply wp_mono; [apply IH | | done].
      * intros d' Hd'. rewrite (shallow_sameGraph _ _ _ _ Hsg). apply Hsh. by right.
      * by eapply sameGraph_mirroredP.
      * intros u' s2 (Hsg2 & Hok2 & Hframe2). cbn beta.
        split; [by eapply sameGraph_trans|]. split.
        -- intros x Hx Hcase. apply Hok2; [by apply (sameGraph_inMap _ _ _ Hsg)|].
           destruct (decide (x ∈ ds)) as [?|Hnin]; [by left|]. right.
           apply Hok; [done|].
           destruct Hcase as [[->|?]%elem_of_cons|?]; [by left | done | by right].
        -- intros x Hx. rewrite Hframe2, Hframe; [done| |].
           ++ apply Hx. by left.
           ++ intros d' Hd' Hb. apply (Hx d'); [by right|].
              eapply below_ext; [|exact Hb]. intros y. symmetry.
              by apply sameGraph_downstream.
Qed.

(** The state after the flip, as the loop finds it. *)
Lemma flipped_okAt fuel tx queued s x :
  shallow fuel (heap s) tx = true → mirroredP s →
  inMap s x → x ≠ tx → x ∉ downstream (theNode (heap s) tx) →
  okAt s x → okAt (flipped tx queued s) x.
Proof.
  intros Hsh Hmir Hx Hne Hnd Hok.
  apply (sameGraph_okAt s); [apply flipped_sameGraph | by apply flipped_flag_ne | | done].
  intros u Hu. apply flipped_flag_ne. intros ->. apply Hnd. by apply Hmir.
Qed.

Lemma no_self_upstream fuel s tx :
  shallow fuel (heap s) tx = true → mirroredP s → inMap s tx →
  tx ∉ upstream (theNode (heap s) tx).
Proof.
  intros Hsh Hmir Hin Hup. eapply shallow_acyclic; [exact Hsh | by apply Hmir | apply below_refl].
Qed.

(** [_checkExecutability (tx)] settles the graph: every node of the map
    that agreed with [ready] still does, and so does [tx]. *)
Lemma _checkExecutability_settles fuel tx : settlesAt fuel tx.
Proof.
  revert tx. induction fuel as [|fuel IH]; intros tx s Hsh Hmir; [done|].
  cbn [_checkExecutability]. apply wp_bind, wp_get. cbn zeta.
  set (n := theNode (heap s) tx) in *.
  destruct (Bool.eqb (ready s n) (queuedForExecution n)) eqn:Heq.
  { apply wp_ret. intros x _ [->|Hok]; [|done].
    apply Bool.eqb_prop in Heq. unfold okAt, flag. by fold n. }
  apply Bool.eqb_false_iff in Heq.
  assert (Hheap : is_Some (heap s !! tx)).
  { destruct (heap s !! tx) eqn:Hn; [by eexists|]. exfalso. apply Heq.
    unfold n. rewrite dangling_ready by done.
    pose proof (dangling_flag s tx Hn) as Hf. unfold flag in Hf. by rewrite Hf. }
  apply wp_bind, wp_modify, wp_bind, wp_write, wp_bind.
  change (upd_heap (alter (set_queued (ready s n)) tx)
            (upd_num (if ready s n then Z.succ else Z.pred) s))
    with (flipped tx (ready s n) s).
  set (s1 := flipped tx (ready s n) s).
  pose proof (flipped_sameGraph tx (ready s n) s) as Hsg1. fold s1 in Hsg1.
  assert (Hloop : ∀ s2, sameGraph s1 s2 → heap s2 = heap s1 →
    wp False (forEach (downstream n) (λ downtx, _checkExecutability fuel downtx None)) s2
       (λ _ s', ∀ x, inMap s x → x = tx ∨ okAt s x → okAt s' x) (λ _, False)).
  { intros s2 Hsg2 Hh2.
    assert (sameGraph s s2) as Hsg by (by eapply sameGraph_trans).
    eapply wp_mono; [apply (settle_loop fuel (downstream n) s2 IH) | | done].
    - intros d Hd. rewrite (shallow_sameGraph _ _ _ _ Hsg). by eapply shallow_down.
    - by eapply sameGraph_mirroredP.
    - intros u s' (Hsg' & Hok' & _) x Hx Hcase. cbn beta.
      apply Hok'; [by apply (sameGraph_inMap _ _ _ Hsg)|].
      destruct (decide (x ∈ downstream n)) as [?|Hnd]; [by left|]. right.
      assert (okAt s1 x) as Hok1.
      { destruct (decide (x = tx)) as [->|Hne].
        - unfold okAt. unfold s1 at 1. rewrite flipped_flag_eq by done.
          symmetry. apply ready_ext.
          + destruct Hsg1 as [_ _ _ _ _ _ _ Hn]. apply Hn.
          + done.
          + done.
          + intros u' Hu'. apply flipped_flag_ne. intros ->.
            by apply (no_self_upstream (S fuel) s tx).
        - destruct Hcase as [?|Hok]; [done|].
          by apply (flipped_okAt (S fuel)). }
      apply (sameGraph_okAt s1); [done | unfold flag; by rewrite Hh2 | | done].
      intros u' _. unfold flag. by rewrite Hh2. }
  destruct (isEmpty (upstream n) && ready s n).
  - apply wp_emit. apply Hloop; [|done]. by split.
  - apply wp_ret. apply Hloop; [apply sameGraph_refl | done].
Qed.

(** *** The mutations that re-evaluate, and the override of [unindex] *)

Definition consistent (s : Database) : Prop := ∀ x, inMap s x → okAt s x.

Definition keysP (s : Database) : Prop :=
  ∀ t a, unexecuted s !! t = Some a → txid (theNode (heap s) a) = t.

Lemma keysP_inMap s x t :
  keysP s → inMap s x → txid (theNode (heap s) x) = t → unexecuted s !! t = Some x.
Proof. intros Hk [t' Ht'] Ht. by rewrite <- Ht, (Hk t' x Ht'). Qed.

Lemma sameGraph_keysP s s' : sameGraph s s' → keysP s → keysP s'.
Proof.
  intros Hsg Hk t a Ht. rewrite (sameGraph_txid _ _ _ Hsg). apply Hk.
  destruct Hsg as [_ Hmap _ _ _ _ _ _]. by rewrite <- Hmap.
Qed.

Lemma ready_same s s' n :
  heap s' = heap s → trustlist s' = trustlist s → banlist s' = banlist s →
  ready s' n = ready s n.
Proof. intros Hh Ht Hb. unfold ready. by rewrite Hh, Ht, Hb. Qed.

Lemma okAt_same s s' x :
  heap s' = heap s → trustlist s' = trustlist s → banlist s' = banlist s →
  okAt s x → okAt s' x.
Proof.
  intros Hh Ht Hb. unfold okAt, flag. rewrite (ready_same s s') by done. by rewrite Hh.
Qed.

Lemma flipped_false_flag tx s : flag (flipped tx false s) tx = false.
Proof.
  unfold flag, flipped, theNode. cbn. rewrite lookup_alter_eq.
  by destruct (heap s !! tx).
Qed.

(** [_checkExecutability (tx, false)]: the override of [unindex].  The flag
    of [tx] ends [false]; the nodes downstream are re-evaluated. *)
Lemma _checkExecutability_forced fuel tx s :
  shallow fuel (heap s) tx = true → mirroredP s →
  wp False (_checkExecutability fuel tx (Some false)) s
     (λ _ s', sameGraph s s'
              ∧ flag s' tx = false
              ∧ ∀ x, inMap s x → x ≠ tx → okAt s x → okAt s' x)
     (λ _, False).
Proof.
  intros Hsh Hmir. destruct fuel as [|fuel]; [done|].
  cbn [_checkExecutability]. apply wp_bind, wp_get. cbn zeta.
  set (n := theNode (heap s) tx) in *.
  destruct (Bool.eqb false (queuedForExecution n)) eqn:Heq.
  { apply wp_ret. split; [apply sameGraph_refl|]. split; [|done].
    apply Bool.eqb_prop in Heq. unfold flag. by fold n. }
  apply wp_bind, wp_modify, wp_bind, wp_write, wp_bind.
  change (upd_heap (alter (set_queued false) tx) (upd_num Z.pred s))
    with (flipped tx false s).
  rewrite andb_false_r. apply wp_ret.
  pose proof (flipped_sameGraph tx false s) as Hsg1.
  set (s1 := flipped tx false s) in *.
  eapply wp_mono;
    [apply (settle_loop fuel (downstream n) s1 (_checkExecutability_settles fuel)) | | done].
  - intros d Hd. rewrite (shallow_sameGraph _ _ _ _ Hsg1). by eapply shallow_down.
  - by eapply sameGraph_mirroredP.
  - intros u s' (Hsg' & Hok' & Hframe). cbn beta.
    split; [by eapply sameGraph_trans|]. split.
    + rewrite Hframe; [apply flipped_false_flag|].
      intros d Hd Hb. eapply (shallow_acyclic _ _ _ _ Hsh Hd).
      eapply below_ext; [|exact Hb]. intros y. symmetry. by apply sameGraph_downstream.
    + intros x Hx Hne Hok. apply Hok'; [by apply (sameGraph_inMap _ _ _ Hsg1)|].
      destruct (decide (x ∈ downstream n)) as [?|Hnd]; [by left|]. right.
      by apply (flipped_okAt (S fuel)).
Qed.


Lemma consistent_same s s' :
  heap s' = heap s → unexecuted s' = unexecuted s →
  trustlist s' = trustlist s → banlist s' = banlist s →
  consistent s → consistent s'.
Proof.
  intros Hh Hm Ht Hb Hc x [t Hx]. apply (okAt_same s); [done..|].
  apply Hc. exists t. by rewrite <- Hm.
Qed.



Lemma consistent_readyConsistent s : consistent s ↔ readyConsistent s = true.
Proof. symmetry. apply readyConsistent_spec. Qed.

(** A change of the trust or ban set that leaves the txid of [x] alone
    leaves [x] as it was. *)
Lemma okAt_sets s s' x :
  heap s' = heap s →
  (txid (theNode (heap s) x) ∈ trustlist s' ↔ txid (theNode (heap s) x) ∈ trustlist s) →
  (txid (theNode (heap s) x) ∈ banlist s' ↔ txid (theNode (heap s) x) ∈ banlist s) →
  okAt s x → okAt s' x.
Proof.
  intros Hh Ht Hb Hok. unfold okAt.
  assert (flag s' x = flag s x) as -> by (unfold flag; by rewrite Hh).
  rewrite Hok. symmetry. apply ready_ext; [by rewrite Hh | done | done |].
  intros u _. unfold flag. by rewrite Hh.
Qed.


(** The evaluator: when every node of the map but [tx] agrees with
    [ready], [_checkExecutability (tx)] leaves every node in agreement. *)
Lemma _checkExecutability_consistent fuel tx s :
  shallow fuel (heap s) tx = true → mirroredP s →
  (∀ x, inMap s x → x ≠ tx → okAt s x) →
  wp False (_checkExecutability fuel tx None) s
     (λ _ s', sameGraph s s' ∧ consistent s') (λ _, False).
Proof.
  intros Hsh Hmir Hc.
  eapply wp_mono;
    [apply wp_and; [by apply _checkExecutability_total
                   | by apply _checkExecutability_settles] | | done].
  intros u s' [[Hsg _] Hok]. cbn beta. split; [done|].
  intros x Hx. apply (sameGraph_inMap _ _ _ Hsg) in Hx. apply Hok; [done|].
  destruct (decide (x = tx)); [by left|right]. by apply Hc.
Qed.

Lemma unban_consistent fuel id s :
  keysP s → mirroredP s → acyclicWithin fuel s = true → consistent s →
  wp False (unban fuel id) s (λ _ s', consistent s') (λ _, False).
Proof.
  intros Hk Hmir Hacyc Hc. unfold unban. apply wp_bind, wp_get.
  destruct (bool_decide (id ∈ banlist s)); [|by apply wp_ret]. cbn [negb].
  apply wp_bind, wp_run, wp_bind, wp_modify, wp_bind, wp_get.
  set (s1 := upd_banlist (λ l, l ∖ {[id]}) (upd_db (unbanStmt id) s)).
  assert (Hothers : ∀ x, inMap s1 x → txid (theNode (heap s1) x) ≠ id → okAt s1 x).
  { intros x Hx Hne. apply (okAt_sets s); [done | done | | by apply Hc].
    unfold s1. cbn. rewrite elem_of_difference, not_elem_of_singleton. cbn in Hne. tauto. }
  assert (keysP s1) as Hk1 by done.
  apply wp_bind.
  apply (wp_mono _ _ (λ _ s2, consistent s2) _ (λ _, False)); [| |done].
  - destruct (unexecuted s1 !! id) as [tx|] eqn:Hid.
    + eapply wp_mono; [apply _checkExecutability_consistent | | done].
      * by apply acyclicWithin_shallow.
      * done.
      * intros x Hx Hne. apply Hothers; [done|]. intros Hid'.
        pose proof (keysP_inMap s1 x id Hk1 Hx Hid'). congruence.
      * by intros u s2 [_ ?].
    + apply wp_ret. intros x Hx. apply Hothers; [done|]. intros Hid'.
      pose proof (keysP_inMap s1 x id Hk1 Hx Hid'). congruence.
  - intros u s2 Hc2. cbn beta. apply wp_emit. by apply (consistent_same s2).
Qed.

(** [unindexTransaction] on a node of the map: the override. *)
Lemma unindexTransaction_forced fuel id tx s :
  unexecuted s !! id = Some tx →
  shallow fuel (heap s) tx = true → mirroredP s →
  wp False (unindexTransaction fuel id) s
     (λ _ s', sameGraph s s'
              ∧ flag s' tx = false
              ∧ ∀ x, inMap s x → x ≠ tx → okAt s x → okAt s' x)
     (λ _, False).
Proof.
  intros Hid Hsh Hmir. unfold wp. rewrite (unindexTransaction_in_map _ _ tx) by done.
  by apply _checkExecutability_forced.
Qed.

Lemma ready_banned s n : txid n ∈ banlist s → ready s n = false.
Proof.
  intros Hb. unfold ready. rewrite (bool_decide_true (txid n ∈ banlist s)) by done.
  cbn. by rewrite andb_false_r.
Qed.


Lemma ban_consistent fuel id s :
  keysP s → mirroredP s → acyclicWithin fuel s = true → consistent s →
  is_Some (unexecuted s !! id) →
  wp False (ban fuel id) s (λ _ s', consistent s') (λ _, False).
Proof.
  intros Hk Hmir Hacyc Hc [tx Hid]. unfold ban. apply wp_bind, wp_get.
  destruct (bool_decide (id ∈ banlist s)); [by apply wp_ret|].
  apply wp_bind, wp_transaction, wp_bind.
  eapply wp_mono; [apply (unindexTransaction_forced fuel id tx) | | done]; try done.
  { by apply acyclicWithin_shallow. }
  intros u s1 (Hsg & Hflag & Hok). cbn beta.
  apply wp_run, wp_bind, wp_modify, wp_emit.
  pose proof (sameGraph_keysP _ _ Hsg Hk) as Hk1.
  intros x Hx.
  assert (inMap s1 x) as Hx1 by done.
  destruct (decide (x = tx)) as [->|Hne].
  - unfold okAt. unfold flag in *. cbn. rewrite Hflag. symmetry. apply ready_banned.
    cbn. rewrite (Hk1 id tx); [set_solver|].
    destruct Hsg as [_ Hmap _ _ _ _ _ _]. by rewrite Hmap.
  - apply (okAt_sets s1); [done | done | |].
    + cbn. rewrite elem_of_union, elem_of_singleton.
      split; [|by left]. intros [?|Hid']; [done|]. exfalso. apply Hne.
      pose proof (keysP_inMap s1 x id Hk1 Hx1 Hid') as Hx'.
      destruct Hsg as [_ Hmap _ _ _ _ _ _]. rewrite Hmap in Hx'. cbn in Hx'. congruence.
    + apply Hok; [|done|].
      * by apply (sameGraph_inMap _ _ _ Hsg) in Hx1.
      * apply Hc. apply (sameGraph_inMap _ _ _ Hsg) in Hx1. done.
Qed.


(** *** The mutations that remove the node *)









(** *** [deleteTransaction] *)

(** The txids that table [deps] records as dependants. *)
Definition dependants (t : Tables) : gset string := list_to_set (snd <$> t_deps t).





Lemma dependants_size t : size (dependants t) ≤ length (t_deps t).
Proof.
  unfold dependants. rewrite <- (length_fmap snd (t_deps t)).
  induction (snd <$> t_deps t) as [|x l IH]; [done|].
  cbn [list_to_set length]. rewrite size_union_alt, size_singleton.
  assert (size (list_to_set l ∖ {[x]} : gset string) ≤ size (list_to_set l : gset string)).
  { apply subseteq_size. set_solver. }
  lia.
Qed.

Lemma deleteTransaction_seen fuel id deleted s :
  id ∈ deleted → deleteTransaction fuel id deleted s = Ok deleted s.
Proof. intros Hin. destruct fuel; cbn; by rewrite bool_decide_true. Qed.






(** ** Further properties of the methods *)

(** *** Rows of table [tx] *)

Lemma addedNew_has now id s : hasTransaction (addedNew now id s) id = true.
Proof. apply hasTransaction_row, addedNew_row. Qed.

(** X1.  [addNewTransaction] is idempotent: a second call for the same
    txid, at any later time, changes nothing and calls no callback. *)
Theorem addNewTransaction_twice (now now' : Z) (id : Txid) (s : Database) :
  (addNewTransaction now id ;; addNewTransaction now' id) s = addNewTransaction now id s.
Proof.
  unfold bind at 1. rewrite addNewTransaction_eq.
  unfold addNewTransaction. rewrite bind_get. by rewrite addedNew_has.
Qed.

Lemma no_row s id : hasTransaction s id = false → t_tx (db s) !! id = None.
Proof.
  intros Hno. destruct (t_tx (db s) !! id) eqn:E; [|done].
  assert (hasTransaction s id = true) by (apply hasTransaction_row; by rewrite E).
  congruence.
Qed.

(** X2.  The height that [setTransactionHeight] records for a transaction
    that [addNewTransaction] has just added is lost: the row was inserted
    with the time of insertion in column [height], and the statement only
    writes over [null] and [HEIGHT_MEMPOOL]. *)
Theorem setTransactionHeight_after_addNew_is_ignored (now : Z) (h : option Z) (id : Txid)
    (s : Database) :
  hasTransaction s id = false →
  now ≠ HEIGHT_MEMPOOL →
  ∃ s', (addNewTransaction now id ;; setTransactionHeight id h) s = Ok tt s'
        ∧ getTransactionHeight s' id = Some (Some now)
        ∧ db s' = db (addedNew now id s).
Proof.
  intros Hno Hne. unfold bind. rewrite addNewTransaction_eq.
  eexists. split; [reflexivity|].
  assert (Hrow : t_tx (db (addedNew now id s)) !! id
                 = Some (mkTxRow (Some now) None None false false false false)).
  { unfold addedNew. rewrite Hno. pose proof (no_row s id Hno) as Hnone.
    destruct (unexecuted s !! id); cbn; by rewrite Hnone, lookup_insert_eq. }
  assert (Hsame : alter (λ r, if bool_decide (height r = None ∨ height r = Some HEIGHT_MEMPOOL)
                              then set_height h r else r) id
                    (t_tx (db (addedNew now id s)))
                  = t_tx (db (addedNew now id s))).
  { apply map_eq. intros t. rewrite lookup_alter.
    destruct (decide (id = t)) as [<-|]; [|done].
    rewrite Hrow. cbn. rewrite bool_decide_false; [done|].
    intros [[=]|[=]]. done. }
  split.
  - unfold getTransactionHeight, getTransactionHeightStmt. cbn.
    rewrite Hsame, Hrow. done.
  - cbn. unfold setTransactionHeightStmt, upd_tx. rewrite Hsame.
    by destruct (db (addedNew now id s)).
Qed.

(** X3.  [setTransactionHeight] leaves a confirmed height alone and writes
    over an unconfirmed one: on a row whose height is neither [null] nor
    [HEIGHT_MEMPOOL] the tables do not change; after
    [unconfirmTransaction] the new height is the one read back. *)
Theorem setTransactionHeight_guard (h0 : Z) (h : option Z) (id : Txid) (s : Database) :
  getTransactionHeight s id = Some (Some h0) →
  (h0 ≠ HEIGHT_MEMPOOL →
   ∃ s', setTransactionHeight id h s = Ok tt s' ∧ db s' = db s)
  ∧ ∃ s', (unconfirmTransaction id ;; setTransactionHeight id h) s = Ok tt s'
          ∧ getTransactionHeight s' id = Some h
          ∧ ∀ t, t ≠ id → t_tx (db s') !! t = t_tx (db s) !! t.
Proof.
  unfold getTransactionHeight, getTransactionHeightStmt. intros Hh.
  destruct (t_tx (db s) !! id) as [r|] eqn:Hrow; [|done]. cbn in Hh.
  injection Hh as Hh. split.
  - intros Hne. eexists. split; [reflexivity|]. cbn.
    unfold setTransactionHeightStmt, upd_tx.
    assert (Hsame : alter (λ r, if bool_decide (height r = None ∨ height r = Some HEIGHT_MEMPOOL)
                                then set_height h r else r) id (t_tx (db s))
                    = t_tx (db s)).
    { apply map_eq. intros t. rewrite lookup_alter.
      destruct (decide (id = t)) as [<-|]; [|done].
      rewrite Hrow. cbn. rewrite bool_decide_false; [done|].
      rewrite Hh. intros [[=]|[=]]. done. }
    rewrite Hsame. by destruct (db s).
  - eexists. split; [reflexivity|]. cbn. split.
    + rewrite !lookup_alter_eq, Hrow. cbn.
      rewrite bool_decide_true by (by right). done.
    + intros t Hne. by rewrite !lookup_alter_ne.
Qed.

(** *** A txid without a node *)

(** X4.  [storeParsedNonExecutableTransaction] and
    [storeParsedExecutableTransaction] on a txid that has no node in the
    map throw, on [tx.downloaded = true] and [tx.hasCode = hasCode]; the
    transaction is rolled back and the database is the one before the
    call. *)
Theorem storeParsed_without_node_throws (metadata : option (option string) → bool)
    (now : Z) (fuel : nat) (id : Txid) (hex : string) (code : bool) (deps : list Txid)
    (inputs outputs : list Location) (s : Database) :
  unexecuted s !! id = None →
  storeParsedNonExecutableTransaction fuel id hex inputs outputs s = Threw s
  ∧ storeParsedExecutableTransaction metadata now fuel id hex code deps inputs outputs s
    = Threw s.
Proof.
  intros Hnone. split.
  - unfold storeParsedNonExecutableTransaction, transaction.
    unfold bind at 1. unfold run at 1, modify at 1.
    unfold bind at 1. unfold run at 1, modify at 1.
    unfold bind at 1. rewrite forEach_run.
    unfold bind at 1. rewrite forEach_run.
    rewrite bind_get. cbn [unexecuted upd_db upd_txDepth]. rewrite Hnone.
    unfold throw. f_equal. by destruct s.
  - unfold storeParsedExecutableTransaction, transaction.
    unfold bind at 1. unfold run at 1, modify at 1.
    unfold bind at 1. unfold run at 1, modify at 1.
    unfold bind at 1. unfold run at 1, modify at 1.
    unfold bind at 1. rewrite forEach_run.
    unfold bind at 1. rewrite forEach_run.
    rewrite bind_get. cbn [unexecuted upd_db upd_txDepth]. rewrite Hnone.
    unfold throw. f_equal. by destruct s.
Qed.

(** *** The trust and ban lists and their tables *)

(** The lists in memory are the ones that the tables record: what
    [_loadTrustlist] and [_loadBanlist] would read back. *)
Definition persisted (s : Database) : Prop :=
  (∀ t, t ∈ trustlist s ↔ t_trust (db s) !! t = Some 1%Z)
  ∧ banlist s = t_ban (db s).

(** Neither the lists nor their tables change. *)
Record sameRegistry (s s' : Database) : Prop := mkSameRegistry {
  sr_trustlist : trustlist s' = trustlist s;
  sr_banlist : banlist s' = banlist s;
  sr_trust : t_trust (db s') = t_trust (db s);
  sr_ban : t_ban (db s') = t_ban (db s)
}.

#[local] Instance sameRegistry_preorder : PreOrder sameRegistry.
Proof.
  split; [by split|]. intros s1 s2 s3 [] []. split; congruence.
Qed.

Lemma sameRegistry_persisted s s' : sameRegistry s s' → persisted s → persisted s'.
Proof.
  intros [Htl Hbl Ht Hb] [Hp1 Hp2]. split.
  - intros t. by rewrite Htl, Ht.
  - by rewrite Hbl, Hb.
Qed.

(** [transaction] when the relation speaks of the tables: the two ways
    out, the commit and the rollback. *)
Lemma holds_transaction_tables {A} (R : Database → Database → Prop) (f : M A) :
  holds R f →
  (∀ s s1, R (upd_txDepth S s) s1 → R s (upd_txDepth pred s1)) →
  (∀ s s1, R (upd_txDepth S s) s1 → R s (upd_txDepth pred (upd_db (λ _, db s) s1))) →
  holds R (transaction f).
Proof.
  intros Hf Hok Hthrow s. apply wp_transaction.
  eapply wp_mono; [apply Hf | |]; cbn beta; intros; [by apply Hok | by apply Hthrow].
Qed.

Ltac registry_with tac :=
  holds_with ltac:(idtac; first
    [ tac
    | match goal with
      | |- holds sameRegistry (transaction _) =>
          apply holds_transaction_tables;
          [ | by intros ? ? [] | by intros ? ? [] ]
      end ]).

Lemma _checkExecutability_sameRegistry fuel tx force :
  holds sameRegistry (_checkExecutability fuel tx force).
Proof.
  revert tx force. induction fuel as [|fuel IH]; intros tx force;
    cbn [_checkExecutability]; registry_with ltac:(idtac; apply IH).
Qed.

Lemma unindexTransaction_sameRegistry fuel id :
  holds sameRegistry (unindexTransaction fuel id).
Proof.
  revert id. induction fuel as [|fuel IH]; intros id; cbn [unindexTransaction];
    registry_with ltac:(idtac; first [apply _checkExecutability_sameRegistry | apply IH]).
Qed.

Lemma trusted_rows (l : list Txid) (d : Tables) t :
  t_trust (foldl (λ d' t', setTrustedStmt t' 1 d') d l) !! t
  = if bool_decide (t ∈ l) then Some 1%Z else t_trust d !! t.
Proof.
  revert d. induction l as [|x l IH]; intros d; cbn [foldl]; [done|].
  rewrite IH. cbn. destruct (decide (t ∈ l)) as [Hin|Hnin].
  - rewrite !bool_decide_true; [done | by right | done].
  - rewrite (bool_decide_false (t ∈ l)) by done.
    destruct (decide (t = x)) as [->|Hne].
    + rewrite bool_decide_true by left. by rewrite lookup_insert_eq.
    + rewrite bool_decide_false by (rewrite elem_of_cons; naive_solver).
      by rewrite lookup_insert_ne.
Qed.

Lemma trust_persisted fuel id s :
  persisted s → wp True (trust fuel id) s (λ _, persisted) persisted.
Proof.
  intros Hp. unfold trust. apply wp_bind, wp_get.
  destruct (bool_decide (id ∈ trustlist s)); [by apply wp_ret|]. apply wp_bind.
  assert (Hrest : ∀ l, wp True (trustRest fuel l) s (λ _, persisted) persisted).
  { intros l. unfold trustRest. apply wp_bind, wp_trust_transaction.
    set (s1 := upd_txDepth pred (trustedAll l (upd_txDepth S s))).
    assert (persisted s1) as Hp1.
    { destruct (trustedAll_spec l (upd_txDepth S s)) as (_ & _ & Hb & _ & Htl & _).
      destruct Hp as [Hp1 Hp2]. split.
      - intros t. unfold s1. cbn [trustlist upd_txDepth db]. rewrite Htl.
        unfold trustedAll.
        destruct (trustedAll_fold l
          (upd_db (λ d, foldl (λ d' t, setTrustedStmt t 1 d') d l) (upd_txDepth S s)))
          as (_ & _ & _ & _ & _ & -> & _).
        cbn. rewrite trusted_rows, elem_of_union, elem_of_list_to_set, Hp1.
        case_bool_decide; naive_solver.
      - unfold s1. cbn [banlist upd_txDepth db]. rewrite Hb. cbn. rewrite Hp2.
        unfold trustedAll.
        destruct (trustedAll_fold l
          (upd_db (λ d, foldl (λ d' t, setTrustedStmt t 1 d') d l) (upd_txDepth S s)))
          as (_ & _ & _ & _ & _ & -> & _).
        cbn. clear. revert s. induction l as [|x l IH] using rev_ind; intros s; [done|].
        rewrite foldl_app. cbn. apply IH. }
    assert (Hk : holds sameRegistry
      (forEach l (λ t, s' <- get ;;
          match unexecuted s' !! t with
          | Some tx => _checkExecutability fuel tx None
          | None => ret tt
          end) ;;
       forEach l (λ t, emit (onTrustTransaction t)))).
    { registry_with ltac:(idtac; apply _checkExecutability_sameRegistry). }
    eapply wp_mono; [apply Hk | |]; cbn beta; intros; by apply (sameRegistry_persisted s1). }
  destruct (unexecuted s !! id) as [tx|].
  - destruct (trustWalk _ _ _ _ _); [apply wp_ret; apply Hrest | done].
  - apply wp_ret. apply Hrest.
Qed.

Lemma untrust_persisted fuel id s :
  persisted s → wp True (untrust fuel id) s (λ _, persisted) persisted.
Proof.
  intros Hp. unfold untrust. apply wp_bind, wp_get.
  destruct (bool_decide (id ∈ trustlist s)); [|by apply wp_ret]. cbn [negb].
  apply wp_bind, wp_transaction, wp_bind.
  eapply wp_mono; [apply unindexTransaction_sameRegistry | |]; cbn beta.
  - intros u s1 [Htl Hbl Ht Hb]. apply wp_run, wp_bind, wp_modify, wp_emit.
    destruct Hp as [Hp1 Hp2]. split; cbn.
    + intros t. rewrite Htl, Ht, elem_of_difference, not_elem_of_singleton. cbn.
      destruct (decide (t = id)) as [->|Hne].
      * rewrite lookup_insert_eq. naive_solver.
      * rewrite lookup_insert_ne by done. rewrite Hp1. naive_solver.
    + by rewrite Hbl, Hb.
  - intros s1 [Htl Hbl _ _]. destruct Hp as [Hp1 Hp2]. split; cbn.
    + intros t. by rewrite Htl.
    + by rewrite Hbl.
Qed.

Lemma ban_persisted fuel id s :
  persisted s → wp True (ban fuel id) s (λ _, persisted) persisted.
Proof.
  intros Hp. unfold ban. apply wp_bind, wp_get.
  destruct (bool_decide (id ∈ banlist s)); [by apply wp_ret|].
  apply wp_bind, wp_transaction, wp_bind.
  eapply wp_mono; [apply unindexTransaction_sameRegistry | |]; cbn beta.
  - intros u s1 [Htl Hbl Ht Hb]. apply wp_run, wp_bind, wp_modify, wp_emit.
    destruct Hp as [Hp1 Hp2]. split; cbn.
    + intros t. by rewrite Htl, Ht.
    + rewrite Hbl, Hb. cbn. by rewrite Hp2.
  - intros s1 [Htl Hbl _ _]. destruct Hp as [Hp1 Hp2]. split; cbn.
    + intros t. by rewrite Htl.
    + by rewrite Hbl.
Qed.

Lemma unban_persisted fuel id s :
  persisted s → wp True (unban fuel id) s (λ _, persisted) persisted.
Proof.
  intros Hp. unfold unban. apply wp_bind, wp_get.
  destruct (bool_decide (id ∈ banlist s)); [|by apply wp_ret]. cbn [negb].
  apply wp_bind, wp_run, wp_bind, wp_modify, wp_bind, wp_get.
  set (s1 := upd_banlist _ _).
  assert (persisted s1) as Hp1.
  { destruct Hp as [Hp1 Hp2]. split; [done|]. unfold s1. cbn. by rewrite Hp2. }
  assert (Hk : holds sameRegistry
    (match unexecuted s1 !! id with
     | Some tx => _checkExecutability fuel tx None
     | None => ret tt
     end ;; emit (onUnbanTransaction id))).
  { registry_with ltac:(idtac; apply _checkExecutability_sameRegistry). }
  eapply wp_mono; [apply Hk | |]; cbn beta; intros; by apply (sameRegistry_persisted s1).
Qed.

(** What a call left, whether it returned or threw. *)
Definition left_by {A} (o : Outcome A) (P : Database → Prop) : Prop :=
  match o with
  | Ok _ s' => P s'
  | Threw s' => P s'
  | OutOfFuel => True
  end.

(** X5.  [trust], [untrust], [ban] and [unban] keep the lists in memory
    and the tables [trust] and [ban] in step, whether they return or
    throw: the trust list is the set of txids with [value = 1], the ban
    list is the table. *)
Theorem registry_is_persisted (fuel : nat) (id : Txid) (s : Database) :
  persisted s →
  left_by (trust fuel id s) persisted
  ∧ left_by (untrust fuel id s) persisted
  ∧ left_by (ban fuel id s) persisted
  ∧ left_by (unban fuel id s) persisted.
Proof.
  intros Hp.
  pose proof (trust_persisted fuel id s Hp) as H1.
  pose proof (untrust_persisted fuel id s Hp) as H2.
  pose proof (ban_persisted fuel id s Hp) as H3.
  pose proof (unban_persisted fuel id s Hp) as H4.
  unfold wp in *. unfold left_by.
  repeat split; by case_match.
Qed.

(** The lists of the constructor. *)
Definition unloaded (s : Database) : Database :=
  upd_trustlist (λ _, ∅) (upd_banlist (λ _, ∅) s).

Lemma _loadTrustlist_eq s :
  _loadTrustlist s
  = Ok tt (upd_trustlist (λ l, l ∪ list_to_set (getTrustlistStmt (db s))) s).
Proof.
  unfold _loadTrustlist. rewrite bind_get, forEach_modify. f_equal.
  generalize (getTrustlistStmt (db s)) as l. intros l. revert s.
  induction l as [|x l IH]; intros s; cbn [foldl].
  - destruct s. unfold upd_trustlist. cbn. f_equal. set_solver.
  - rewrite IH. destruct s. unfold upd_trustlist. cbn. f_equal. set_solver.
Qed.

Lemma _loadBanlist_eq s :
  _loadBanlist s = Ok tt (upd_banlist (λ l, l ∪ t_ban (db s)) s).
Proof.
  unfold _loadBanlist. rewrite bind_get, forEach_modify. f_equal.
  rewrite <- (list_to_set_elements_L (t_ban (db s))). fold (getBanlistStmt (db s)).
  generalize (getBanlistStmt (db s)) as l. intros l. revert s.
  induction l as [|x l IH]; intros s; cbn [foldl].
  - destruct s. unfold upd_banlist. cbn. f_equal. set_solver.
  - rewrite IH. destruct s. unfold upd_banlist. cbn. f_equal. set_solver.
Qed.

Lemma getTrustlistStmt_spec (d : Tables) t :
  t ∈ getTrustlistStmt d ↔ t_trust d !! t = Some 1%Z.
Proof.
  unfold getTrustlistStmt. rewrite list_elem_of_fmap. split.
  - intros ([t' v] & -> & Hin). apply list_elem_of_filter in Hin as [Hv Hin].
    cbn in *. subst. by apply elem_of_map_to_list in Hin.
  - intros Hl. exists (t, 1%Z). split; [done|]. apply list_elem_of_filter.
    split; [done|]. by apply elem_of_map_to_list.
Qed.

(** X6.  The lists survive a restart: on a database whose lists are in
    step with the tables, [_loadTrustlist] and [_loadBanlist], run on the
    empty lists of the constructor, read back the same lists. *)
Theorem reload_restores_registry (s : Database) :
  persisted s →
  ∃ s', (_loadTrustlist ;; _loadBanlist) (unloaded s) = Ok tt s'
        ∧ trustlist s' = trustlist s
        ∧ banlist s' = banlist s
        ∧ db s' = db s.
Proof.
  intros [Hp1 Hp2]. unfold bind. rewrite _loadTrustlist_eq, _loadBanlist_eq.
  eexists. split; [reflexivity|]. cbn. split; [|split; [|done]].
  - apply set_eq. intros t.
    rewrite elem_of_union, elem_of_list_to_set, getTrustlistStmt_spec, Hp1. set_solver.
  - rewrite Hp2. set_solver.
Qed.

Lemma unindexTransaction_unknown fuel id s :
  unexecuted s !! id = None → t_tx (db s) !! id = None →
  unindexTransaction (S fuel) id s = Threw s.
Proof.
  intros Hmap Hrow. cbn [unindexTransaction]. rewrite bind_get, Hmap.
  unfold transaction, getTransactionIndexedStmt. cbn. rewrite Hrow. cbn.
  unfold throw. f_equal. by destruct s.
Qed.

(** X7.  [ban] and [untrust] of a txid that the database has never seen
    (no node and no row) throw, on [.get(txid)[0]] in
    [unindexTransaction]: the txid is not banned, and stays trusted; the
    database is the one before the call. *)
Theorem registry_call_on_unknown_txid_throws (fuel : nat) (id : Txid) (s : Database) :
  0 < fuel →
  unexecuted s !! id = None →
  hasTransaction s id = false →
  (id ∉ banlist s → ban fuel id s = Threw s)
  ∧ (id ∈ trustlist s → untrust fuel id s = Threw s).
Proof.
  intros Hfuel Hmap Hrow%no_row. destruct fuel as [|fuel]; [lia|].
  split; intros Hin.
  - unfold ban. rewrite bind_get, bool_decide_false by done.
    unfold bind at 1. unfold transaction. unfold bind at 1.
    rewrite unindexTransaction_unknown by done.
    f_equal. by destruct s.
  - unfold untrust. rewrite bind_get, bool_decide_true by done. cbn [negb].
    unfold bind at 1. unfold transaction. unfold bind at 1.
    rewrite unindexTransaction_unknown by done.
    f_equal. by destruct s.
Qed.

(** *** [ban] and [unban] *)

(** Every upstream neighbour of a node of the map is a node of the map. *)
Definition closedUp (s : Database) : bool :=
  forallb (λ e, forallb (λ u, bool_decide (unexecuted s !! txid (theNode (heap s) u) = Some u))
                        (upstream (theNode (heap s) e.2)))
          (map_to_list (unexecuted s)).

Lemma closedUp_spec s x u :
  closedUp s = true → inMap s x → u ∈ upstream (theNode (heap s) x) → inMap s u.
Proof.
  unfold closedUp. rewrite forallb_forall. intros H [t Hx] Hu.
  assert (Hin : In (t, x) (map_to_list (unexecuted s))).
  { apply list_elem_of_In. by apply elem_of_map_to_list. }
  specialize (H _ Hin). cbn in H. rewrite forallb_forall in H.
  apply list_elem_of_In in Hu. specialize (H _ Hu). apply bool_decide_eq_true in H.
  by eexists.
Qed.

(** The same map and the same objects, flags apart. *)
Definition sameNet (s s' : Database) : Prop :=
  unexecuted s' = unexecuted s
  ∧ ∀ a, set_queued false (theNode (heap s') a) = set_queued false (theNode (heap s) a).

Lemma sameGraph_sameNet s s' : sameGraph s s' → sameNet s s'.
Proof. intros [_ Hmap _ _ _ _ _ Hnode]. by split. Qed.

Lemma sameNet_trans s1 s2 s3 : sameNet s1 s2 → sameNet s2 s3 → sameNet s1 s3.
Proof. intros [Hm1 Hn1] [Hm2 Hn2]. split; [congruence|]. intros a. by rewrite Hn2. Qed.

Lemma sameNet_field {X} (proj : UnexecutedTx → X) s s' a :
  sameNet s s' → (∀ b n, proj (set_queued b n) = proj n) →
  proj (theNode (heap s') a) = proj (theNode (heap s) a).
Proof.
  intros [_ Hn] Hp. rewrite <- (Hp false (theNode (heap s') a)), Hn. apply Hp.
Qed.

Lemma sameNet_shallow fuel s s' a :
  sameNet s s' → shallow fuel (heap s') a = shallow fuel (heap s) a.
Proof. intros Hn. apply shallow_ext. intros x. by apply (sameNet_field downstream). Qed.

Lemma sameNet_keysP s s' : sameNet s s' → keysP s → keysP s'.
Proof.
  intros Hn Hk t a Ha. rewrite (sameNet_field txid s s') by done.
  apply Hk. destruct Hn as [Hm _]. by rewrite <- Hm.
Qed.

Lemma sameNet_mirroredP s s' : sameNet s s' → mirroredP s → mirroredP s'.
Proof.
  intros Hn Hmir x u [t Hx] Hu.
  rewrite (sameNet_field downstream s s') by done.
  rewrite (sameNet_field upstream s s') in Hu by done.
  apply Hmir; [|done]. exists t. destruct Hn as [Hm _]. by rewrite <- Hm.
Qed.

Lemma shallow_acyclicWithin fuel s :
  0 < fuel → (∀ a, shallow fuel (heap s) a = true) → acyclicWithin fuel s = true.
Proof.
  intros Hpos Hsh. unfold acyclicWithin. apply andb_true_iff. split.
  - by apply Nat.ltb_lt.
  - apply forallb_forall. intros e _. apply Hsh.
Qed.

Lemma acyclicWithin_pos fuel s : acyclicWithin fuel s = true → 0 < fuel.
Proof. unfold acyclicWithin. intros [H _]%andb_true_iff. by apply Nat.ltb_lt. Qed.

(** On an acyclic graph that is closed upstream, the flags that agree with
    [ready] are unique: two databases with the same graph and the same
    lists, both in agreement, have the same flags in the map. *)
Lemma consistent_unique fuel s s' :
  sameNet s s' → trustlist s' = trustlist s → banlist s' = banlist s →
  mirroredP s → (∀ a, shallow fuel (heap s) a = true) →
  (∀ x u, inMap s x → u ∈ upstream (theNode (heap s) x) → inMap s u) →
  consistent s → consistent s' →
  ∀ x, inMap s x → flag s' x = flag s x.
Proof.
  intros Hn Htl Hbl Hmir Hsh Hclosed Hc Hc'.
  assert (Hin' : ∀ x, inMap s x → inMap s' x).
  { intros x [t Hx]. exists t. destruct Hn as [Hm _]. by rewrite Hm. }
  assert (Hlevel : ∀ k, k ≤ fuel →
            ∀ x, inMap s x → shallow k (heap s) x = false → flag s' x = flag s x).
  { intros k Hk. remember (fuel - k) as j eqn:Hj. revert k Hk Hj.
    induction j as [|j IH]; intros k Hk Hj x Hx Hnot.
    - assert (k = fuel) as -> by lia. by rewrite Hsh in Hnot.
    - rewrite (Hc x Hx), (Hc' x (Hin' x Hx)). apply ready_ext.
      + destruct Hn as [_ Hnode]. apply Hnode.
      + by rewrite Htl.
      + by rewrite Hbl.
      + intros u Hu. apply (IH (S k)); [lia | lia | by apply (Hclosed x) |].
        destruct (shallow (S k) (heap s) u) eqn:Hu'; [|done].
        rewrite (shallow_down k (heap s) u x Hu') in Hnot; [done|].
        by apply Hmir. }
  intros x Hx. apply (Hlevel 0); [lia | done | done].
Qed.

Lemma ban_net fuel id tx s :
  unexecuted s !! id = Some tx → shallow fuel (heap s) tx = true →
  id ∉ banlist s →
  wp False (ban fuel id) s
     (λ _ s', sameNet s s' ∧ trustlist s' = trustlist s
              ∧ banlist s' = banlist s ∪ {[id]}
              ∧ t_ban (db s') = t_ban (db s) ∪ {[id]})
     (λ _, False).
Proof.
  intros Hid Hsh Hnot. unfold ban. apply wp_bind, wp_get.
  rewrite bool_decide_false by done.
  apply wp_bind, wp_transaction, wp_bind.
  unfold wp at 1. rewrite (unindexTransaction_in_map _ _ tx) by done.
  eapply wp_mono; [by apply _checkExecutability_total | | done].
  intros u s1 [Hsg _]. cbn beta.
  apply wp_run, wp_bind, wp_modify, wp_emit.
  destruct Hsg as [Hdb Hmap Htl Hbl _ _ _ Hnode].
  split; [by split|]. cbn. rewrite Htl, Hbl, Hdb. done.
Qed.

Lemma unban_net fuel id s :
  (∀ a, shallow fuel (heap s) a = true) → id ∈ banlist s →
  wp False (unban fuel id) s
     (λ _ s', sameNet s s' ∧ trustlist s' = trustlist s
              ∧ banlist s' = banlist s ∖ {[id]}
              ∧ t_ban (db s') = t_ban (db s) ∖ {[id]})
     (λ _, False).
Proof.
  intros Hsh Hin. unfold unban. apply wp_bind, wp_get.
  rewrite bool_decide_true by done. cbn [negb].
  apply wp_bind, wp_run, wp_bind, wp_modify, wp_bind, wp_get.
  set (s1 := upd_banlist _ _). apply wp_bind.
  apply (wp_mono _ _ (λ _ s2, sameGraph s1 s2) _ (λ _, False)); [| |done].
  - destruct (unexecuted s1 !! id) as [tx|].
    + eapply wp_mono; [apply _checkExecutability_total; apply Hsh | | done].
      by intros u s2 [? _].
    + apply wp_ret, sameGraph_refl.
  - intros u s2 [Hdb Hmap Htl Hbl _ _ _ Hnode]. cbn beta. apply wp_emit.
    split; [by split|]. cbn. rewrite Htl, Hbl, Hdb. done.
Qed.

(** X8.  [ban (t); unban (t)] is a round trip.  On a well-formed graph
    that is closed upstream and whose flags agree with [ready], for a txid
    of the map that is not banned, the two calls return; the ban list, the
    trust list and the map are the ones before, and every node of the map
    has the flag it had. *)
Theorem ban_then_unban (fuel : nat) (id : Txid) (s : Database) :
  wellFormed fuel s = true →
  closedUp s = true →
  readyConsistent s = true →
  id ∉ banlist s →
  is_Some (unexecuted s !! id) →
  ∃ s', (ban fuel id ;; unban fuel id) s = Ok tt s'
        ∧ banlist s' = banlist s
        ∧ trustlist s' = trustlist s
        ∧ unexecuted s' = unexecuted s
        ∧ (∀ t a, unexecuted s !! t = Some a → flag s' a = flag s a)
        ∧ readyConsistent s' = true.
Proof.
  unfold wellFormed. intros [[[Hk Hmir]%andb_true_iff Hacyc]%andb_true_iff Hfresh]%andb_true_iff.
  intros Hclosed Hc%consistent_readyConsistent Hnot [tx Hid].
  assert (keysP s) as HkP by (intros t a; by apply keysMatch_spec).
  apply mirrored_spec in Hmir.
  pose proof (acyclicWithin_pos _ _ Hacyc) as Hpos.
  assert (Hsh : ∀ a, shallow fuel (heap s) a = true)
    by (intros a; by apply acyclicWithin_shallow).
  destruct (wp_Ok_unit _ _ _
    (wp_and _ _ _ _ _ (ban_consistent fuel id s HkP Hmir Hacyc Hc (ex_intro _ tx Hid))
                      (ban_net fuel id tx s Hid (Hsh tx) Hnot)))
    as (s1 & Hban & Hc1 & Hn1 & Htl1 & Hbl1 & Htb1).
  assert (Hsh1 : ∀ a, shallow fuel (heap s1) a = true).
  { intros a. by rewrite (sameNet_shallow fuel s s1). }
  assert (id ∈ banlist s1) as Hin1 by (rewrite Hbl1; set_solver).
  destruct (wp_Ok_unit _ _ _
    (wp_and _ _ _ _ _
       (unban_consistent fuel id s1 (sameNet_keysP _ _ Hn1 HkP)
          (sameNet_mirroredP _ _ Hn1 Hmir) (shallow_acyclicWithin _ _ Hpos Hsh1) Hc1)
       (unban_net fuel id s1 Hsh1 Hin1)))
    as (s2 & Hunban & Hc2 & Hn2 & Htl2 & Hbl2 & Htb2).
  exists s2. split; [unfold bind; by rewrite Hban|].
  pose proof (sameNet_trans _ _ _ Hn1 Hn2) as Hn.
  assert (banlist s2 = banlist s) as Hb by (rewrite Hbl2, Hbl1; set_solver).
  assert (trustlist s2 = trustlist s) as Ht by congruence.
  split; [done|]. split; [done|]. split; [by destruct Hn|]. split.
  - intros t a Ha. apply (consistent_unique fuel s s2); try done.
    + intros x u. by apply closedUp_spec.
    + by exists t.
  - by apply consistent_readyConsistent.
Qed.

(** *** [deleteTransaction] *)

(** [t] is [id] or depends on it, through the rows [(up, down)] of [d]. *)
Inductive dependsOn (d : list (Txid * Txid)) (id : Txid) : Txid → Prop :=
| dependsOn_refl : dependsOn d id id
| dependsOn_step x y : dependsOn d id x → (x, y) ∈ d → dependsOn d id y.

Lemma dependsOn_mono d d' id t :
  (∀ e, e ∈ d → e ∈ d') → dependsOn d id t → dependsOn d' id t.
Proof.
  intros Hsub. induction 1 as [|x y _ IH Hxy]; [constructor|].
  eapply dependsOn_step; [exact IH | by apply Hsub].
Qed.

Lemma dependsOn_trans d a b c : dependsOn d a b → dependsOn d b c → dependsOn d a c.
Proof.
  intros Hab. induction 1 as [|x y _ IH Hxy]; [done|].
  by eapply dependsOn_step.
Qed.

(** What a call of [deleteTransaction (id, deleted)] that returns [acc] has
    done between [s] and [s']: the txids that it added to the set have no
    row, no node, no output and spend nothing; the others are as they
    were; the set grew along the rows of [deps]. *)
Record deleting (id : Txid) (deleted : gset Txid) (s : Database)
    (acc : gset Txid) (s' : Database) : Prop := mkDeleting {
  dg_heap : heap s' = heap s;
  dg_trust : trustlist s' = trustlist s;
  dg_ban : banlist s' = banlist s;
  dg_self : id ∈ acc;
  dg_sub : deleted ⊆ acc;
  dg_rows : ∀ e, e ∈ t_deps (db s') → e ∈ t_deps (db s);
  dg_why : ∀ e, e ∈ t_deps (db s) → e ∉ t_deps (db s') → e.2 ∈ acc ∧ e.2 ∉ deleted;
  dg_gone : ∀ t, t ∈ acc → t ∉ deleted →
            t_tx (db s') !! t = None ∧ unexecuted s' !! t = None
            ∧ ∀ e, e ∈ t_deps (db s') → e.2 ≠ t;
  dg_kept : ∀ t, (t ∈ acc → t ∈ deleted) →
            t_tx (db s') !! t = t_tx (db s) !! t ∧ unexecuted s' !! t = unexecuted s !! t;
  dg_reach : ∀ t, t ∈ acc → t ∉ deleted → dependsOn (t_deps (db s)) id t;
  dg_closed : ∀ x y, x ∈ acc → x ∉ deleted → x ≠ id → (x, y) ∈ t_deps (db s) → y ∈ acc;
  dg_jig : ∀ loc, t_jig (db s) !! loc = None → t_jig (db s') !! loc = None;
  dg_berry : ∀ loc, t_berry (db s) !! loc = None → t_berry (db s') !! loc = None;
  dg_spends : ∀ loc, t_spends (db s) !! loc = None → t_spends (db s') !! loc = None;
  dg_spender : ∀ loc t, t_spends (db s) !! loc ≠ Some (Some t) →
               t_spends (db s') !! loc ≠ Some (Some t);
  dg_states : ∀ loc, (∀ t, t ∈ acc → t ∉ deleted → String.prefix t loc = false) →
              t_jig (db s') !! loc = t_jig (db s) !! loc
              ∧ t_berry (db s') !! loc = t_berry (db s) !! loc;
  dg_out : ∀ t loc, t ∈ acc → t ∉ deleted →
           t_spends (db s') !! loc ≠ Some (Some t)
           ∧ (String.prefix t loc = true →
              t_jig (db s') !! loc = None ∧ t_berry (db s') !! loc = None
              ∧ t_spends (db s') !! loc = None)
}.

Lemma deleting_seen id deleted s : id ∈ deleted → deleting id deleted s deleted s.
Proof. intros Hin. split; try done; intros; set_solver. Qed.

Lemma deleting_step id deleted s acc1 s1 b acc2 s2 :
  deleting id deleted s acc1 s1 →
  deleting b acc1 s1 acc2 s2 →
  (b ∉ acc1 → ∀ y, (b, y) ∈ t_deps (db s1) → y ∈ acc2) →
  dependsOn (t_deps (db s)) id b →
  deleting id deleted s acc2 s2.
Proof.
  intros H1 H2 Hb Hreach.
  destruct H1 as [Hh1 Ht1 Hb1 Hself1 Hsub1 Hrows1 Hwhy1 Hgone1 Hkept1 Hreach1 Hclosed1
                  Hjig1 Hberry1 Hspends1 Hspender1 Hstates1 Hout1].
  destruct H2 as [Hh2 Ht2 Hb2 Hself2 Hsub2 Hrows2 Hwhy2 Hgone2 Hkept2 Hreach2 Hclosed2
                  Hjig2 Hberry2 Hspends2 Hspender2 Hstates2 Hout2].
  split.
  - congruence.
  - congruence.
  - congruence.
  - set_solver.
  - set_solver.
  - auto.
  - intros e He Hne. destruct (decide (e ∈ t_deps (db s1))) as [Hin|Hnin].
    + destruct (Hwhy2 e Hin Hne). set_solver.
    + destruct (Hwhy1 e He Hnin). set_solver.
  - intros t Ht Hnd. destruct (decide (t ∈ acc1)) as [Hin|Hnin].
    + destruct (Hgone1 t Hin Hnd) as (Htx & Hmap & Hdown).
      destruct (Hkept2 t) as [Htx2 Hmap2]; [done|].
      split; [congruence|]. split; [congruence|]. intros e He. apply Hdown. auto.
    + by apply Hgone2.
  - intros t Ht. destruct (Hkept1 t) as [Htx1 Hmap1]; [set_solver|].
    destruct (Hkept2 t) as [Htx2 Hmap2]; [set_solver|]. split; congruence.
  - intros t Ht Hnd. destruct (decide (t ∈ acc1)) as [Hin|Hnin]; [by apply Hreach1|].
    apply (dependsOn_trans _ _ b); [done|].
    apply (dependsOn_mono (t_deps (db s1))); [done|]. by apply Hreach2.
  - intros x y Hx Hnd Hne Hxy. destruct (decide (x ∈ acc1)) as [Hin|Hnin].
    + apply Hsub2. by apply (Hclosed1 x y).
    + destruct (decide ((x, y) ∈ t_deps (db s1))) as [Hrow|Hnorow].
      * destruct (decide (x = b)) as [->|Hxb]; [by apply Hb|].
        by apply (Hclosed2 x y).
      * destruct (Hwhy1 (x, y) Hxy Hnorow) as [Hy _]. by apply Hsub2.
  - auto.
  - auto.
  - auto.
  - auto.
  - intros loc Hfree.
    destruct (Hstates1 loc) as [Hj1 Hbr1]; [intros t ? ?; apply Hfree; set_solver|].
    destruct (Hstates2 loc) as [Hj2 Hbr2]; [intros t ? ?; apply Hfree; set_solver|].
    split; congruence.
  - intros t loc Ht Hnd. destruct (decide (t ∈ acc1)) as [Hin|Hnin]; [|by apply Hout2].
    destruct (Hout1 t loc Hin Hnd) as [Hsp Hpre]. split; [by apply Hspender2|].
    intros Hp. destruct (Hpre Hp) as (? & ? & ?). auto.
Qed.

Lemma deleting_dependants id deleted s acc s' :
  deleting id deleted s acc s' → dependants (db s') ⊆ dependants (db s).
Proof.
  intros H x. unfold dependants. rewrite !elem_of_list_to_set, !list_elem_of_fmap.
  intros (e & -> & He). exists e. split; [done|]. by apply (dg_rows _ _ _ _ _ H).
Qed.

Lemma prefix_filtered {V} (id loc : string) (m : gmap string V) :
  String.prefix id loc = true →
  filter (λ kv : string * V, String.prefix id kv.1 = false) m !! loc = None.
Proof.
  intros Hp. apply map_lookup_filter_None. right. intros v _. cbn. by rewrite Hp.
Qed.

Lemma prefix_kept {V} (id loc : string) (m : gmap string V) :
  String.prefix id loc = false →
  filter (λ kv : string * V, String.prefix id kv.1 = false) m !! loc = m !! loc.
Proof.
  intros Hp. destruct (m !! loc) as [v|] eqn:Hv.
  - by apply map_lookup_filter_Some.
  - apply map_lookup_filter_None. by left.
Qed.

Lemma filtered_None {V} (P : string * V → Prop) `{!∀ x, Decision (P x)}
    (m : gmap string V) loc :
  m !! loc = None → filter P m !! loc = None.
Proof. intros Hn. apply map_lookup_filter_None. by left. Qed.

(** The state after the six statements of [deleteTransaction (id)], the
    decrement and the removal from the map. *)
Lemma deleting_first id deleted s s2 :
  id ∉ deleted →
  heap s2 = heap s → trustlist s2 = trustlist s → banlist s2 = banlist s →
  unexecuted s2 = delete id (unexecuted s) →
  db s2 = deleteDepsStmt id (unspendOutputsStmt id (deleteSpendsStmt id
            (deleteBerryStatesStmt id (deleteJigStatesStmt id
               (deleteTransactionStmt id (db s)))))) →
  deleting id deleted s (deleted ∪ {[id]}) s2.
Proof.
  intros Hnot Hh Htl Hbl Hm Hd.
  assert (Hdeps : t_deps (db s2) = filter (λ e, e.2 ≠ id) (t_deps (db s))) by (by rewrite Hd).
  assert (Htx : t_tx (db s2) = delete id (t_tx (db s))) by (by rewrite Hd).
  assert (Hjig : t_jig (db s2)
                 = filter (λ kv, String.prefix id kv.1 = false) (t_jig (db s)))
    by (by rewrite Hd).
  assert (Hberry : t_berry (db s2)
                   = filter (λ kv, String.prefix id kv.1 = false) (t_berry (db s)))
    by (by rewrite Hd).
  assert (Hsp : t_spends (db s2)
                = (λ v, if bool_decide (v = Some id) then None else v)
                    <$> filter (λ kv, String.prefix id kv.1 = false) (t_spends (db s)))
    by (by rewrite Hd).
  assert (Hspender : ∀ loc t, t_spends (db s) !! loc ≠ Some (Some t) →
                              t_spends (db s2) !! loc ≠ Some (Some t)).
  { intros loc t Hne. rewrite Hsp, lookup_fmap.
    destruct (filter _ (t_spends (db s)) !! loc) as [v|] eqn:Hv; [|done]. cbn.
    apply map_lookup_filter_Some in Hv as [Hv _].
    case_bool_decide; [done|]. congruence. }
  split; try done.
  - set_solver.
  - set_solver.
  - intros e. rewrite Hdeps, list_elem_of_filter. tauto.
  - intros e He Hne. rewrite Hdeps, list_elem_of_filter in Hne.
    destruct (decide (e.2 = id)) as [->|]; [set_solver|]. tauto.
  - intros t Ht Hnd. assert (t = id) as -> by set_solver.
    rewrite Htx, Hm, !lookup_delete_eq. split; [done|]. split; [done|].
    intros e. rewrite Hdeps, list_elem_of_filter. tauto.
  - intros t Ht. assert (t ≠ id) as Hne by set_solver.
    by rewrite Htx, Hm, !lookup_delete_ne.
  - intros t Ht Hnd. assert (t = id) as -> by set_solver. constructor.
  - intros x y Hx Hnd Hne. set_solver.
  - intros loc Hn. rewrite Hjig. by apply filtered_None.
  - intros loc Hn. rewrite Hberry. by apply filtered_None.
  - intros loc Hn. rewrite Hsp, lookup_fmap, filtered_None; done.
  - intros loc Hfree. assert (String.prefix id loc = false) as Hp
      by (apply Hfree; set_solver).
    by rewrite Hjig, Hberry, !prefix_kept.
  - intros t loc Ht Hnd. assert (t = id) as -> by set_solver. split.
    + rewrite Hsp, lookup_fmap.
      destruct (filter _ (t_spends (db s)) !! loc) as [v|]; [|done]. cbn.
      case_bool_decide; [done|]. congruence.
    + intros Hp. rewrite Hjig, Hberry, Hsp, lookup_fmap, !prefix_filtered; done.
Qed.

Lemma deleteTransaction_deleting fuel : ∀ id deleted s,
  size (dependants (db s) ∖ (deleted ∪ {[id]})) < fuel →
  wp False (deleteTransaction fuel id deleted) s
     (λ acc s', deleting id deleted s acc s'
                ∧ (id ∉ deleted → ∀ y, (id, y) ∈ t_deps (db s) → y ∈ acc))
     (λ _, False).
Proof.
  induction fuel as [|fuel IH]; intros id deleted s Hfuel; [lia|].
  cbn [deleteTransaction]. case_bool_decide as Hin.
  { apply wp_ret. split; [by apply deleting_seen | done]. }
  apply wp_transaction.
  do 6 apply wp_bind, wp_run. apply wp_bind, wp_get.
  match goal with |- wp _ _ ?st _ _ => set (s0 := st) end.
  apply wp_bind.
  apply (wp_mono _ _ (λ _ s1, heap s1 = heap s0 ∧ trustlist s1 = trustlist s0
                              ∧ banlist s1 = banlist s0 ∧ unexecuted s1 = unexecuted s0
                              ∧ db s1 = db s0) _ (λ _, False)); [| |done].
  { destruct (unexecuted s0 !! id); [apply wp_uncount; case_match | apply wp_ret];
      by repeat split. }
  intros u s1 (Hh1 & Ht1 & Hb1 & Hm1 & Hd1). cbn beta.
  apply wp_bind, wp_modify, wp_bind, wp_emit, wp_bind, wp_get.
  match goal with |- wp _ _ ?st _ _ => set (s2 := st) end.
  assert (H2 : deleting id deleted s (deleted ∪ {[id]}) s2).
  { apply deleting_first; try done; unfold s2; cbn; by rewrite ?Hh1, ?Ht1, ?Hb1, ?Hm1, ?Hd1. }
  assert (Hdown : ∀ b, b ∈ getDownstreamStmt (db s2) id → (id, b) ∈ t_deps (db s)).
  { intros b Hb. unfold getDownstreamStmt in Hb.
    apply list_elem_of_fmap in Hb as ([x y] & -> & He).
    apply list_elem_of_filter in He as [Hx He]. cbn in Hx. subst x.
    by apply (dg_rows _ _ _ _ _ H2). }
  assert (Hloop : ∀ l acc1 s3,
            (∀ b, b ∈ l → (id, b) ∈ t_deps (db s)) →
            deleting id deleted s acc1 s3 →
            wp False (foldM l acc1 (λ acc downtxid, deleteTransaction fuel downtxid acc)) s3
               (λ acc' s', deleting id deleted s acc' s' ∧ acc1 ⊆ acc'
                           ∧ ∀ b, b ∈ l → b ∈ acc')
               (λ _, False)).
  { induction l as [|b l IHl]; intros acc1 s3 Hl H3; cbn [foldM].
    - apply wp_ret. split; [done|]. split; [done|].
      intros b Hb. by apply elem_of_nil in Hb.
    - apply wp_bind.
      assert (Hcall : wp False (deleteTransaction fuel b acc1) s3
                (λ acc2 s4, deleting b acc1 s3 acc2 s4
                            ∧ (b ∉ acc1 → ∀ y, (b, y) ∈ t_deps (db s3) → y ∈ acc2))
                (λ _, False)).
      { destruct (decide (b ∈ acc1)) as [Hseen|Hnew].
        - eapply Ok_wp; [by apply deleteTransaction_seen|].
          split; [by apply deleting_seen | done].
        - apply IH.
          assert (dependants (db s3) ∖ (acc1 ∪ {[b]})
                  ⊂ dependants (db s) ∖ (deleted ∪ {[id]})) as Hlt.
          { pose proof (deleting_dependants _ _ _ _ _ H3) as Hsub.
            pose proof (dg_sub _ _ _ _ _ H3) as Hacc.
            pose proof (dg_self _ _ _ _ _ H3) as Hself.
            assert (b ∈ dependants (db s)) as Hbd.
            { unfold dependants. apply elem_of_list_to_set, list_elem_of_fmap.
              exists (id, b). split; [done|]. apply Hl. left. }
            apply (strict_spec_alt (dependants (db s3) ∖ (acc1 ∪ {[b]}))).
            split; [set_solver|]. intros Heq.
            assert (b ∈ dependants (db s) ∖ (deleted ∪ {[id]})) as Hb' by set_solver.
            rewrite <- Heq in Hb'. set_solver. }
          apply subset_size in Hlt. lia. }
      eapply wp_mono; [exact Hcall | | done].
      intros acc2 s4 [H4 Hc4]. cbn beta.
      assert (H4' : deleting id deleted s acc2 s4).
      { apply (deleting_step id deleted s acc1 s3 b acc2 s4); try done.
        eapply dependsOn_step; [constructor|]. apply Hl. left. }
      eapply wp_mono; [apply IHl; [|exact H4'] | | done].
      + intros b' Hb'. apply Hl. by right.
      + intros acc' s' (H' & Hsub' & Hall). split; [done|].
        pose proof (dg_sub _ _ _ _ _ H4) as Hsub4.
        pose proof (dg_self _ _ _ _ _ H4) as Hself4.
        split; [set_solver|].
        intros b' [->|Hb']%elem_of_cons; [set_solver | by apply Hall]. }
  eapply wp_mono; [apply (Hloop _ _ s2 Hdown H2) | | done].
  intros acc s' (H' & _ & Hall). cbn beta.
  assert (Hfinal : deleting id deleted s acc (upd_txDepth pred s')).
  { destruct H'. by split. }
  split; [done|]. intros _ y Hy.
  destruct (decide (y = id)) as [->|Hne]; [by apply (dg_self _ _ _ _ _ H')|].
  apply Hall. unfold getDownstreamStmt. apply list_elem_of_fmap.
  exists (id, y). split; [done|]. apply list_elem_of_filter. split; [done|].
  destruct (decide ((id, y) ∈ t_deps (db s2))) as [|Hno]; [done|].
  destruct (dg_why _ _ _ _ _ H2 (id, y) Hy Hno) as [Hy' Hnd]. set_solver.
Qed.

(** X9.  [deleteTransaction (txid)] returns, whatever the rows of [deps]
    (a cycle among them does not make it loop), and deletes [txid] and
    the transactions that depend on it, directly or not, and no other:
    each of them has no row, no node and no row in [deps]; the rows and
    nodes of the other txids, and the rows of [deps] among them, are as
    they were. *)
Theorem deleteTransaction_deletes_dependants (fuel : nat) (id : Txid) (s : Database) :
  length (t_deps (db s)) < fuel →
  ∃ deleted s',
    deleteTransaction fuel id ∅ s = Ok deleted s'
    ∧ (∀ t, t ∈ deleted ↔ dependsOn (t_deps (db s)) id t)
    ∧ (∀ t, t ∈ deleted →
         hasTransaction s' t = false ∧ unexecuted s' !! t = None
         ∧ ∀ e, e ∈ t_deps (db s') → e.1 ≠ t ∧ e.2 ≠ t)
    ∧ (∀ t, t ∉ deleted →
         t_tx (db s') !! t = t_tx (db s) !! t ∧ unexecuted s' !! t = unexecuted s !! t)
    ∧ (∀ e, e ∈ t_deps (db s) → e.2 ∉ deleted → e ∈ t_deps (db s')).
Proof.
  intros Hfuel.
  destruct (wp_Ok _ _ _ (deleteTransaction_deleting fuel id ∅ s
    ltac:(pose proof (dependants_size (db s));
          assert (size (dependants (db s) ∖ (∅ ∪ {[id]})) ≤ size (dependants (db s)))
            by (apply subseteq_size; set_solver); lia)))
    as (acc & s' & Hrun & H & Hroot).
  exists acc, s'. split; [done|].
  assert (Hclosed : ∀ x y, x ∈ acc → (x, y) ∈ t_deps (db s) → y ∈ acc).
  { intros x y Hx Hxy. destruct (decide (x = id)) as [->|Hne].
    - apply Hroot; [set_solver | done].
    - apply (dg_closed _ _ _ _ _ H x y); [done | set_solver | done | done]. }
  split; [|split; [|split]].
  - intros t. split.
    + intros Ht. apply (dg_reach _ _ _ _ _ H); [done | set_solver].
    + induction 1 as [|x y _ IHd Hxy]; [apply (dg_self _ _ _ _ _ H)|].
      by apply (Hclosed x y).
  - intros t Ht.
    destruct (dg_gone _ _ _ _ _ H t Ht) as (Htx & Hmap & Hdown); [set_solver|].
    split; [|split; [done|]].
    + unfold hasTransaction, hasTransactionStmt. by rewrite Htx.
    + intros [x y] He. split; [|by apply Hdown]. cbn. intros ->.
      assert (y ∈ acc) as Hy.
      { apply (Hclosed t y); [done|]. by apply (dg_rows _ _ _ _ _ H). }
      destruct (dg_gone _ _ _ _ _ H y Hy) as (_ & _ & Hdown'); [set_solver|].
      by apply (Hdown' (t, y)).
  - intros t Ht. apply (dg_kept _ _ _ _ _ H). done.
  - intros e He Hnd. destruct (decide (e ∈ t_deps (db s'))) as [|Hno]; [done|].
    by destruct (dg_why _ _ _ _ _ H e He Hno).
Qed.


(** *** [getAllUntrusted] and [getTransactionUntrusted] *)

(** One step of the walk of [getTransactionUntrusted]: from a txid of the
    map to a txid that the table records upstream of it, executable and
    not executed. *)
Definition upstreamStep (s : Database) (x y : Txid) : Prop :=
  is_Some (unexecuted s !! x) ∧ y ∈ getUpstreamUnexecutedStmt (db s) x.

(** A node of the map with code whose key is not trusted. *)
Definition untrustedKey (s : Database) (t : Txid) : Prop :=
  ∃ tx, unexecuted s !! t = Some tx
        ∧ truthy (hasCode (theNode (heap s) tx)) = true
        ∧ t ∉ trustlist s.

(** The txids that table [deps] records upstream. *)
Definition providers (t : Tables) : gset string := list_to_set (fst <$> t_deps t).

Lemma providers_size t : size (providers t) ≤ length (t_deps t).
Proof.
  unfold providers. rewrite <- (length_fmap fst (t_deps t)).
  induction (fst <$> t_deps t) as [|x l IH]; [done|].
  cbn [list_to_set length]. rewrite size_union_alt, size_singleton.
  assert (size (list_to_set l ∖ {[x]} : gset string) ≤ size (list_to_set l : gset string)).
  { apply subseteq_size. set_solver. }
  lia.
Qed.

Lemma upstream_provider t x y : y ∈ getUpstreamUnexecutedStmt t x → y ∈ providers t.
Proof.
  unfold getUpstreamUnexecutedStmt, providers. intros [_ Hy]%list_elem_of_filter.
  apply elem_of_list_to_set. apply list_elem_of_fmap in Hy as (e & -> & He).
  apply list_elem_of_fmap. exists e. split; [done|].
  apply list_elem_of_filter in He. tauto.
Qed.

(** What [visitUpstream] does to the set and to the queue. *)
Lemma visitUpstream_spec (U : gset string) ups visited queue :
  (∀ y, y ∈ ups → y ∈ U) →
  ∃ new, visitUpstream ups visited queue = (visited ∪ list_to_set ups, queue ++ new)
         ∧ NoDup new
         ∧ (∀ t, t ∈ new ↔ t ∈ ups ∧ t ∉ visited)
         ∧ length new + size (U ∖ (visited ∪ list_to_set ups)) = size (U ∖ visited).
Proof.
  unfold visitUpstream. revert visited queue.
  induction ups as [|y ups IH]; intros visited queue HU; cbn [foldl].
  - exists []. rewrite app_nil_r. split; [f_equal; set_solver|].
    split; [constructor|]. split; [set_solver|].
    cbn. f_equal. f_equal. set_solver.
  - cbn [fst snd]. case_bool_decide as Hy.
    + destruct (IH visited queue) as (new & Heq & Hnd & Hnew & Hsize); [set_solver|].
      exists new. rewrite Heq. split; [f_equal; set_solver|].
      split; [done|]. split.
      * intros t. rewrite Hnew. set_solver.
      * rewrite <- Hsize. f_equal. f_equal. set_solver.
    + destruct (IH (visited ∪ {[y]}) (queue ++ [y])) as (new & Heq & Hnd & Hnew & Hsize);
        [set_solver|].
      exists (y :: new). rewrite Heq, <- app_assoc. cbn [app].
      split; [f_equal; set_solver|]. split.
      { apply NoDup_cons. split; [|done]. rewrite Hnew. set_solver. }
      split.
      * intros t. rewrite elem_of_cons, Hnew, elem_of_cons.
        split; [intros [->|[? ?]]; [tauto|set_solver]|].
        intros [[->|?] ?]; [by left|]. destruct (decide (t = y)); [by left|right].
        set_solver.
      * assert (U ∖ visited = {[y]} ∪ U ∖ (visited ∪ {[y]})) as HeqU.
        { apply set_eq. intros t. rewrite elem_of_union, !elem_of_difference,
            elem_of_singleton, elem_of_union, elem_of_singleton.
          split; [|intros [->|[? ?]]; [split; [apply HU; left|done]|tauto]].
          intros [? ?]. destruct (decide (t = y)); [by left|right]. tauto. }
        assert (size (U ∖ visited) = S (size (U ∖ (visited ∪ {[y]})))) as ->.
        { rewrite HeqU. rewrite (size_union (C:=gset string)) by set_solver.
          by rewrite size_singleton. }
        assert (visited ∪ list_to_set (y :: ups) = visited ∪ {[y]} ∪ list_to_set ups) as ->
          by set_solver.
        cbn [length]. lia.
Qed.

Lemma untrustedWalk_spec s id (fuel : nat) :
  ∀ (queue : list string) (visited : gset string) (untrusted : list string)
    (processed : gset string),
    NoDup queue → NoDup untrusted →
    (∀ t, t ∈ visited ↔ t ∈ processed ∨ t ∈ queue) →
    (∀ t, t ∈ queue → t ∉ processed) →
    (∀ t, t ∈ visited → rtc (upstreamStep s) id t) →
    id ∈ visited →
    (∀ x y, x ∈ processed → upstreamStep s x y → y ∈ visited) →
    (∀ t, t ∈ untrusted ↔ t ∈ processed ∧ untrustedKey s t) →
    length queue + size (providers (db s) ∖ visited) ≤ fuel →
    ∃ l, untrustedWalk fuel s queue visited untrusted = Some l
         ∧ NoDup l
         ∧ ∀ t, t ∈ l ↔ rtc (upstreamStep s) id t ∧ untrustedKey s t.
Proof.
  assert (Hdone : ∀ (visited : gset string) (untrusted : list string)
                    (processed : gset string),
            NoDup untrusted →
            (∀ t, t ∈ visited ↔ t ∈ processed ∨ t ∈ @nil string) →
            (∀ t, t ∈ visited → rtc (upstreamStep s) id t) →
            id ∈ visited →
            (∀ x y, x ∈ processed → upstreamStep s x y → y ∈ visited) →
            (∀ t, t ∈ untrusted ↔ t ∈ processed ∧ untrustedKey s t) →
            NoDup untrusted
            ∧ ∀ t, t ∈ untrusted ↔ rtc (upstreamStep s) id t ∧ untrustedKey s t).
  { intros visited untrusted processed Hndu Hvis Hreach Hid Hclosed Hunt.
    split; [done|]. intros t. rewrite Hunt.
    assert (Hvp : ∀ t, t ∈ visited → t ∈ processed).
    { intros t' [?|Hq]%Hvis; [done|]. by apply elem_of_nil in Hq. }
    assert (Hall : ∀ t, rtc (upstreamStep s) id t → t ∈ processed).
    { apply (rtc_ind_r (λ t', t' ∈ processed)).
      - by apply Hvp.
      - intros x y _ Hstep Hx. apply Hvp. by apply (Hclosed x y). }
    split; [intros [Hp ?]; split; [apply Hreach, Hvis; by left|done]|].
    intros [Hr ?]. split; [by apply Hall|done]. }
  induction fuel as [|fuel IH];
    intros queue visited untrusted processed Hndq Hndu Hvis Hdisj Hreach Hid Hclosed Hunt Hfuel.
  - destruct queue as [|next queue]; [|cbn in Hfuel; lia].
    exists untrusted. split; [done|]. by apply (Hdone visited untrusted processed).
  - destruct queue as [|next queue].
    { exists untrusted. split; [done|]. by apply (Hdone visited untrusted processed). }
    cbn [untrustedWalk].
    apply NoDup_cons in Hndq as [Hnext Hndq].
    assert (next ∉ processed) as Hnp by (apply Hdisj; left).
    assert (next ∈ visited) as Hnv by (apply Hvis; right; left).
    assert (Hqv : ∀ t, t ∈ queue → t ∈ visited) by (intros t Ht; apply Hvis; right; by right).
    destruct (unexecuted s !! next) as [tx|] eqn:Hmap.
    + destruct (visitUpstream_spec (providers (db s))
                  (getUpstreamUnexecutedStmt (db s) next) visited queue)
        as (new & Heq & Hndn & Hnew & Hsize).
      { intros y. apply upstream_provider. }
      rewrite Heq. cbn [fst snd].
      apply (IH _ _ _ (processed ∪ {[next]})).
      * apply NoDup_app. split; [done|]. split; [|done].
        intros t Ht Ht'. apply Hnew in Ht' as [_ Hnv']. by apply Hnv', Hqv.
      * destruct (truthy _ && negb _); [|done]. case_bool_decide as Hin; [done|].
        apply NoDup_app. split; [done|]. split; [|apply NoDup_singleton].
        intros t Ht Ht'. apply list_elem_of_singleton in Ht'. by subst.
      * intros t. split.
        -- intros [Hv|Hu%elem_of_list_to_set]%elem_of_union.
           ++ apply Hvis in Hv as [?|Hq]; [left; set_solver|].
              apply elem_of_cons in Hq as [->|?]; [left|right]; set_solver.
           ++ destruct (decide (t ∈ visited)) as [Hv|Hnv'].
              ** apply Hvis in Hv as [?|Hq]; [left; set_solver|].
                 apply elem_of_cons in Hq as [->|?]; [left|right]; set_solver.
              ** right. apply elem_of_app. right. by apply Hnew.
        -- intros [[Hp|Hp%elem_of_singleton]%elem_of_union|[Hq|Hn]%elem_of_app].
           ++ apply elem_of_union. left. apply Hvis. by left.
           ++ subst t. apply elem_of_union. by left.
           ++ apply elem_of_union. left. by apply Hqv.
           ++ apply elem_of_union. right. apply elem_of_list_to_set. by apply Hnew.
      * intros t [Ht|Ht]%elem_of_app.
        -- rewrite elem_of_union, elem_of_singleton. intros [?| ->]; [|done].
           by apply (Hdisj t); [right|].
        -- apply Hnew in Ht as [_ Hnv']. rewrite elem_of_union, elem_of_singleton.
           intros [?| ->]; [|done]. apply Hnv', Hvis. by left.
      * intros t [Ht|Ht%elem_of_list_to_set]%elem_of_union; [by apply Hreach|].
        eapply rtc_r; [apply (Hreach next Hnv)|]. split; [by eexists|done].
      * set_solver.
      * intros x y [Hx|Hx%elem_of_singleton]%elem_of_union Hxy.
        -- apply elem_of_union. left. by apply (Hclosed x y).
        -- subst x. apply elem_of_union. right. apply elem_of_list_to_set.
           by destruct Hxy.
      * intros t. rewrite elem_of_union, elem_of_singleton.
        destruct (truthy (hasCode (theNode (heap s) tx))
                  && negb (bool_decide (next ∈ trustlist s))) eqn:Hgood.
        -- apply andb_true_iff in Hgood as [Hcode Htr].
           apply negb_true_iff, bool_decide_eq_false in Htr.
           assert (untrustedKey s next) as Hk by (by exists tx).
           case_bool_decide as Hin.
           ++ rewrite Hunt. split; [tauto|]. intros [[?| ->] ?]; [done|].
              by apply Hunt in Hin.
           ++ rewrite elem_of_app, list_elem_of_singleton, Hunt.
              split; [intros [[? ?]| ->]; tauto|]. intros [[?| ->] ?]; tauto.
        -- rewrite Hunt. split; [tauto|]. intros [[?| ->] Hk]; [done|].
           destruct Hk as (tx' & Hmap' & Hcode & Htr). rewrite Hmap in Hmap'.
           injection Hmap' as <-. rewrite Hcode in Hgood. cbn in Hgood.
           apply negb_false_iff, bool_decide_eq_true in Hgood. done.
      * rewrite length_app. cbn [length] in Hfuel. lia.
    + apply (IH queue visited untrusted (processed ∪ {[next]})); try done.
      * intros t. rewrite Hvis, elem_of_union, elem_of_singleton, elem_of_cons. tauto.
      * intros t Ht. rewrite elem_of_union, elem_of_singleton. intros [?| ->]; [|done].
        by apply (Hdisj t); [right|].
      * intros x y [Hx|Hx%elem_of_singleton]%elem_of_union Hxy; [by apply (Hclosed x y)|].
        subst x. destruct Hxy as [[? Hs] _]. congruence.
      * intros t. rewrite Hunt, elem_of_union, elem_of_singleton.
        split; [tauto|]. intros [[?| ->] Hk]; [done|].
        destruct Hk as (tx' & Hmap' & _). congruence.
      * cbn [length] in Hfuel. lia.
Qed.

Lemma getAllUntrusted_spec s t :
  keysMatch s = true → t ∈ getAllUntrusted s ↔ untrustedKey s t.
Proof.
  intros Hk. unfold getAllUntrusted, untrustedKey. rewrite list_elem_of_fmap. split.
  - intros ([key tx] & -> & Hin). apply list_elem_of_filter in Hin as [Hgood Hin].
    apply elem_of_map_to_list in Hin. cbn in *.
    rewrite (keysMatch_spec s key tx Hk Hin) in *.
    apply andb_true_iff in Hgood as [Hcode Htr].
    apply negb_true_iff, bool_decide_eq_false in Htr. by exists tx.
  - intros (tx & Hmap & Hcode & Htr). exists (t, tx). cbn.
    pose proof (keysMatch_spec s t tx Hk Hmap) as Hkey. split; [done|].
    apply list_elem_of_filter. split; [|by apply elem_of_map_to_list]. cbn.
    rewrite Hcode, Hkey. cbn. apply negb_true_iff. by apply bool_decide_eq_false.
Qed.

(** X11.  [getTransactionUntrusted (txid)] returns, whatever the rows of
    [deps], the txids of [getAllUntrusted ()] that the walk reaches from
    [txid]: through the rows of [deps] whose upstream end is executable
    and not executed, stopping at a txid that has no node; no txid is
    listed twice. *)
Theorem getTransactionUntrusted_spec (fuel : nat) (id : Txid) (s : Database) :
  keysMatch s = true →
  length (t_deps (db s)) < fuel →
  ∃ l, getTransactionUntrusted fuel id s = Ok l s
       ∧ NoDup l
       ∧ ∀ t, t ∈ l ↔ rtc (upstreamStep s) id t ∧ t ∈ getAllUntrusted s.
Proof.
  intros Hk Hfuel.
  destruct (untrustedWalk_spec s id fuel [id] {[id]} [] ∅) as (l & Hl & Hnd & Hspec).
  - apply NoDup_singleton.
  - constructor.
  - intros t. rewrite elem_of_singleton, list_elem_of_singleton. set_solver.
  - set_solver.
  - intros t ->%elem_of_singleton. constructor.
  - set_solver.
  - set_solver.
  - intros t. split; [by intros ?%elem_of_nil | set_solver].
  - pose proof (providers_size (db s)).
    assert (size (providers (db s) ∖ {[id]}) ≤ size (providers (db s)))
      by (apply subseteq_size; set_solver).
    cbn [length]. lia.
  - exists l. unfold getTransactionUntrusted. rewrite bind_get, Hl.
    split; [done|]. split; [done|]. intros t. rewrite Hspec.
    by rewrite getAllUntrusted_spec.
Qed.

(** *** [_loadUnexecuted] and [open] *)

(** The objects of the first loop of [_loadUnexecuted]: one per row, under
    its txid, without edge and not queued. *)
Record bare (rows : list (Txid * bool * bool)) (s : Database) : Prop := mkBare {
  bare_node : ∀ t a, unexecuted s !! t = Some a →
              ∃ dl hc, (t, dl, hc) ∈ rows
                       ∧ heap s !! a = Some (newUnexecutedTx t dl (Some hc));
  bare_rows : ∀ row, row ∈ rows → is_Some (unexecuted s !! row.1.1);
  bare_inj : ∀ t t' a, unexecuted s !! t = Some a → unexecuted s !! t' = Some a → t = t';
  bare_fresh : ∀ a, nextAddr s ≤ a → heap s !! a = None;
  bare_heap : ∀ a n, heap s !! a = Some n →
              upstream n = [] ∧ downstream n = [] ∧ queuedForExecution n = false
}.

Lemma loadNodes_loop rows : ∀ done s,
  bare done s →
  wp False
     (forEach rows (λ row,
        tx <- alloc (newUnexecutedTx row.1.1 row.1.2 (Some row.2)) ;;
        modify (upd_unexecuted (<[row.1.1 := tx]>)))) s
     (λ _ s', bare (done ++ rows) s' ∧ db s' = db s
              ∧ trustlist s' = trustlist s ∧ banlist s' = banlist s
              ∧ numQueuedForExecution s' = numQueuedForExecution s
              ∧ emitted s' = emitted s)
     (λ _, False).
Proof.
  induction rows as [|[[t dl] hc] rows IH]; intros done s Hb; cbn [forEach].
  - apply wp_ret. by rewrite app_nil_r.
  - apply wp_bind, wp_bind, wp_alloc, wp_modify. cbn [fst snd].
    set (s1 := upd_unexecuted _ _).
    assert (bare (done ++ [(t, dl, hc)]) s1) as Hb1.
    { destruct Hb as [Hnode Hrows Hinj Hfresh Hheap].
      assert (Hlt : ∀ t' a, unexecuted s !! t' = Some a → a < nextAddr s).
      { intros t' a Ha. destruct (Hnode t' a Ha) as (? & ? & _ & Hha).
        destruct (decide (a < nextAddr s)) as [|Hge]; [done|].
        rewrite Hfresh in Hha by lia. done. }
      split.
      - intros t' a. unfold s1. cbn. rewrite lookup_insert.
        destruct (decide (t = t')) as [<-|Hne].
        + intros [= <-]. exists dl, hc. rewrite lookup_insert_eq.
          split; [|done]. apply elem_of_app. right. left.
        + intros Ha. destruct (Hnode t' a Ha) as (dl' & hc' & Hin & Hha).
          exists dl', hc'. split; [apply elem_of_app; by left|].
          rewrite lookup_insert_ne; [done|]. apply Hlt in Ha. lia.
      - intros row [Hin|Hin%list_elem_of_singleton]%elem_of_app.
        + destruct (Hrows row Hin) as [a Ha]. unfold s1. cbn.
          rewrite lookup_insert. case_decide; by eexists.
        + subst row. unfold s1. cbn. rewrite lookup_insert_eq. by eexists.
      - intros t1 t2 a. unfold s1. cbn. rewrite !lookup_insert.
        destruct (decide (t = t1)) as [<-|Hne1]; destruct (decide (t = t2)) as [<-|Hne2];
          try done.
        + intros [= <-] Ha. apply Hlt in Ha. lia.
        + intros Ha [= <-]. apply Hlt in Ha. lia.
        + apply Hinj.
      - intros a Ha. unfold s1 in *. cbn in *. rewrite lookup_insert_ne by lia.
        apply Hfresh. lia.
      - intros a n. unfold s1. cbn. rewrite lookup_insert.
        case_decide; [by intros [= <-]|]. apply Hheap. }
    eapply wp_mono; [apply (IH _ s1 Hb1) | | done].
    intros u s' (Hb' & Hd & Htl & Hbl & Hnum & Hem). cbn beta.
    by rewrite <- app_assoc in Hb'.
Qed.

Lemma getUnexecutedStmt_spec (t : Tables) id dl hc :
  (id, dl, hc) ∈ getUnexecutedStmt t ↔
  ∃ r, t_tx t !! id = Some r
       ∧ ((executable r && negb (executed r)) = true ∨ bytes r = None)
       ∧ dl = bool_decide (bytes r ≠ None) ∧ hc = has_code r.
Proof.
  unfold getUnexecutedStmt. rewrite list_elem_of_fmap. split.
  - intros ([k r] & [= -> -> ->] & Hin). apply list_elem_of_filter in Hin as [Hsel Hin].
    apply elem_of_map_to_list in Hin. by exists r.
  - intros (r & Hrow & Hsel & -> & ->). exists (id, r). split; [done|].
    apply list_elem_of_filter. split; [done|]. by apply elem_of_map_to_list.
Qed.

(** The graph once the edges of the rows [rows] are in: between the
    state [sN] that the first loop left and [s]. *)
Record wired (rows : list (Txid * Txid)) (sN s : Database) : Prop := mkWired {
  w_map : unexecuted s = unexecuted sN;
  w_db : db s = db sN;
  w_trust : trustlist s = trustlist sN;
  w_ban : banlist s = banlist sN;
  w_num : numQueuedForExecution s = numQueuedForExecution sN;
  w_emitted : emitted s = emitted sN;
  w_dom : ∀ a, heap s !! a = None ↔ heap sN !! a = None;
  w_node : ∀ a, upd_upstream (λ _, []) (upd_downstream (λ _, []) (theNode (heap s) a))
                = upd_upstream (λ _, []) (upd_downstream (λ _, []) (theNode (heap sN) a));
  w_down : ∀ a b, b ∈ downstream (theNode (heap s) a) ↔
                  ∃ u d, (u, d) ∈ rows ∧ unexecuted sN !! u = Some a
                         ∧ unexecuted sN !! d = Some b;
  w_up : ∀ a b, a ∈ upstream (theNode (heap s) b) ↔
                ∃ u d, (u, d) ∈ rows ∧ unexecuted sN !! u = Some a
                       ∧ unexecuted sN !! d = Some b
}.

Lemma Set_add_elem (a b : Addr) (l : list Addr) : b ∈ Set_add a l ↔ b = a ∨ b ∈ l.
Proof.
  unfold Set_add. case_bool_decide.
  - split; [by right|]. by intros [->|?].
  - rewrite elem_of_app, list_elem_of_singleton. tauto.
Qed.

Lemma loadEdges_loop rows sN :
  (∀ t a, unexecuted sN !! t = Some a → is_Some (heap sN !! a)) →
  (∀ e, e ∈ rows → is_Some (unexecuted sN !! e.2)) →
  ∀ done s,
  (∀ e, e ∈ rows → True) →
  wired done sN s →
  wp False
     (forEach rows (λ e,
        s1 <- get ;;
        match unexecuted s1 !! e.1 with
        | None => ret tt
        | Some uptx =>
            match unexecuted s1 !! e.2 with
            | None => throw
            | Some downtx =>
                write downtx (upd_upstream (Set_add uptx)) ;;
                write uptx (upd_downstream (Set_add downtx))
            end
        end)) s
     (λ _ s', wired (done ++ rows) sN s') (λ _, False).
Proof.
  intros Halloc. induction rows as [|[u d] rows IH]; intros Hdown done s _ Hw; cbn [forEach].
  - apply wp_ret. by rewrite app_nil_r.
  - apply wp_bind. cbn [fst snd].
    assert (Hstep : wp False
      (s1 <- get ;;
       match unexecuted s1 !! u with
       | None => ret tt
       | Some uptx =>
           match unexecuted s1 !! d with
           | None => throw
           | Some downtx =>
               write downtx (upd_upstream (Set_add uptx)) ;;
               write uptx (upd_downstream (Set_add downtx))
           end
       end) s (λ _ s', wired (done ++ [(u, d)]) sN s') (λ _, False)).
    { apply wp_bind, wp_get.
      destruct Hw as [Hmap Hdb Htl Hbl Hnum Hem Hdom Hnode Hdn Hup].
      rewrite Hmap.
      destruct (unexecuted sN !! u) as [a0|] eqn:Hu.
      - destruct (Hdown (u, d)) as [b0 Hd]; [left|]. cbn in Hd. rewrite Hd.
        apply wp_bind, wp_write, wp_write.
        assert (Ha0 : is_Some (heap s !! a0)).
        { destruct (Halloc u a0 Hu) as [n Hn]. destruct (heap s !! a0) eqn:E; [by eexists|].
          apply Hdom in E. congruence. }
        assert (Hb0 : is_Some (heap s !! b0)).
        { destruct (Halloc d b0 Hd) as [n Hn]. destruct (heap s !! b0) eqn:E; [by eexists|].
          apply Hdom in E. congruence. }
        set (h1 := alter (upd_upstream (Set_add a0)) b0 (heap s)).
        set (h2 := alter (upd_downstream (Set_add b0)) a0 h1).
        assert (Hdown2 : ∀ a, downstream (theNode h2 a)
                              = if decide (a = a0) then Set_add b0 (downstream (theNode (heap s) a))
                                else downstream (theNode (heap s) a)).
        { intros a. unfold h2. destruct (decide (a = a0)) as [->|Hne].
          - destruct Ha0 as [n Hn].
            assert (is_Some (h1 !! a0)) as [n1 Hn1].
            { unfold h1. rewrite lookup_alter.
              destruct (decide (b0 = a0)) as [->|]; rewrite Hn; by eexists. }
            rewrite (theNode_alter_eq _ _ _ n1) by done. cbn.
            f_equal. unfold h1 in Hn1.
            assert (downstream n1 = downstream (theNode (heap s) a0)) as ->; [|done].
            replace n1 with (theNode h1 a0) by (unfold theNode, h1; by rewrite Hn1).
            unfold h1. by apply theNode_alter.
          - rewrite theNode_alter_ne by done. unfold h1. by apply theNode_alter. }
        assert (Hup2 : ∀ b, upstream (theNode h2 b)
                            = if decide (b = b0) then Set_add a0 (upstream (theNode (heap s) b))
                              else upstream (theNode (heap s) b)).
        { intros b. unfold h2. rewrite (theNode_alter upstream) by done.
          unfold h1. destruct (decide (b = b0)) as [->|Hne].
          - destruct Hb0 as [n Hn]. rewrite (theNode_alter_eq _ _ _ n) by done.
            unfold theNode. by rewrite Hn.
          - by rewrite theNode_alter_ne. }
        split; cbn; try done.
        + intros a. rewrite !lookup_alter_None. apply Hdom.
        + intros a. fold h1. fold h2. rewrite <- Hnode.
          pose proof (Hdown2 a) as Hd2. pose proof (Hup2 a) as Hu2.
          assert (Hf : ∀ {X} (proj : UnexecutedTx → X),
                    (∀ f n, proj (upd_upstream f n) = proj n) →
                    (∀ f n, proj (upd_downstream f n) = proj n) →
                    proj (theNode h2 a) = proj (theNode (heap s) a)).
          { intros X proj Hp1 Hp2. unfold h2, h1.
            rewrite (theNode_alter proj) by (intros; apply Hp2).
            by rewrite (theNode_alter proj) by (intros; apply Hp1). }
          unfold upd_upstream, upd_downstream. cbn.
          by rewrite (Hf _ txid), (Hf _ downloaded), (Hf _ hasCode),
            (Hf _ queuedForExecution).
        + intros a b. fold h1. fold h2. rewrite Hdown2.
          destruct (decide (a = a0)) as [->|Hne].
          * rewrite Set_add_elem, Hdn. split.
            -- intros [->|(u' & d' & Hin & ? & ?)].
               ++ exists u, d. split; [apply elem_of_app; right; left|done].
               ++ exists u', d'. split; [apply elem_of_app; by left|done].
            -- intros (u' & d' & [Hin|Hin%list_elem_of_singleton]%elem_of_app & Hu' & Hd').
               ++ right. by exists u', d'.
               ++ injection Hin as -> ->. left. congruence.
          * rewrite Hdn. split.
            -- intros (u' & d' & Hin & ? & ?). exists u', d'.
               split; [apply elem_of_app; by left|done].
            -- intros (u' & d' & [Hin|Hin%list_elem_of_singleton]%elem_of_app & Hu' & Hd').
               ++ by exists u', d'.
               ++ injection Hin as -> ->. congruence.
        + intros a b. fold h1. fold h2. rewrite Hup2.
          destruct (decide (b = b0)) as [->|Hne].
          * rewrite Set_add_elem, Hup. split.
            -- intros [->|(u' & d' & Hin & ? & ?)].
               ++ exists u, d. split; [apply elem_of_app; right; left|done].
               ++ exists u', d'. split; [apply elem_of_app; by left|done].
            -- intros (u' & d' & [Hin|Hin%list_elem_of_singleton]%elem_of_app & Hu' & Hd').
               ++ right. by exists u', d'.
               ++ injection Hin as -> ->. left. congruence.
          * rewrite Hup. split.
            -- intros (u' & d' & Hin & ? & ?). exists u', d'.
               split; [apply elem_of_app; by left|done].
            -- intros (u' & d' & [Hin|Hin%list_elem_of_singleton]%elem_of_app & Hu' & Hd').
               ++ by exists u', d'.
               ++ injection Hin as -> ->. congruence.
      - apply wp_ret. split; try done.
        + intros a b. rewrite Hdn. split.
          * intros (u' & d' & Hin & ? & ?). exists u', d'.
            split; [apply elem_of_app; by left|done].
          * intros (u' & d' & [Hin|Hin%list_elem_of_singleton]%elem_of_app & Hu' & Hd').
            -- by exists u', d'.
            -- injection Hin as -> ->. congruence.
        + intros a b. rewrite Hup. split.
          * intros (u' & d' & Hin & ? & ?). exists u', d'.
            split; [apply elem_of_app; by left|done].
          * intros (u' & d' & [Hin|Hin%list_elem_of_singleton]%elem_of_app & Hu' & Hd').
            -- by exists u', d'.
            -- injection Hin as -> ->. congruence. }
    eapply wp_mono; [exact Hstep | | done].
    intros x s' Hw'. cbn beta.
    eapply wp_mono; [apply (IH ltac:(intros e He; apply Hdown; by right) _ s' ltac:(done) Hw') | | done].
    intros y s'' Hw''. by rewrite <- app_assoc in Hw''.
Qed.

(** The graph that the two first loops of [_loadUnexecuted] build from the
    tables, on the empty map of the constructor. *)
Record loadedFrom (s s1 : Database) : Prop := mkLoadedFrom {
  lg_db : db s1 = db s;
  lg_trust : trustlist s1 = trustlist s;
  lg_ban : banlist s1 = banlist s;
  lg_num : numQueuedForExecution s1 = numQueuedForExecution s;
  lg_emitted : emitted s1 = emitted s;
  lg_keys : ∀ t, is_Some (unexecuted s1 !! t) ↔
                 ∃ dl hc, (t, dl, hc) ∈ getUnexecutedStmt (db s);
  lg_node : ∀ t a, unexecuted s1 !! t = Some a →
            ∃ dl hc, (t, dl, hc) ∈ getUnexecutedStmt (db s)
                     ∧ set_queued false (upd_upstream (λ _, [])
                         (upd_downstream (λ _, []) (theNode (heap s1) a)))
                       = newUnexecutedTx t dl (Some hc)
                     ∧ queuedForExecution (theNode (heap s1) a) = false;
  lg_inj : ∀ t t' a, unexecuted s1 !! t = Some a → unexecuted s1 !! t' = Some a → t = t';
  lg_down : ∀ a b, b ∈ downstream (theNode (heap s1) a) ↔
                   ∃ u d, (u, d) ∈ getUnexecutedDepsStmt (db s)
                          ∧ unexecuted s1 !! u = Some a ∧ unexecuted s1 !! d = Some b;
  lg_up : ∀ a b, a ∈ upstream (theNode (heap s1) b) ↔
                 ∃ u d, (u, d) ∈ getUnexecutedDepsStmt (db s)
                        ∧ unexecuted s1 !! u = Some a ∧ unexecuted s1 !! d = Some b
}.

Lemma loadGraph_spec s :
  heap s = ∅ → unexecuted s = ∅ →
  wp False (loadNodes ;; loadEdges) s (λ _ s1, loadedFrom s s1) (λ _, False).
Proof.
  intros Hheap Hmap. apply wp_bind. unfold loadNodes. apply wp_bind, wp_get.
  eapply wp_mono; [apply (loadNodes_loop _ [] s) | | done].
  { split.
    - intros t a. by rewrite Hmap, lookup_empty.
    - intros row Hrow. by apply elem_of_nil in Hrow.
    - intros t t' a. by rewrite Hmap, lookup_empty.
    - intros a _. by rewrite Hheap, lookup_empty.
    - intros a n. by rewrite Hheap, lookup_empty. }
  intros u sN (Hb & Hdb & Htl & Hbl & Hnum & Hem). cbn beta. cbn [app] in Hb.
  destruct Hb as [Hnode Hrows Hinj Hfresh Hbare].
  unfold loadEdges. apply wp_bind, wp_get.
  assert (Hempty : ∀ a, upstream (theNode (heap sN) a) = []
                        ∧ downstream (theNode (heap sN) a) = []
                        ∧ queuedForExecution (theNode (heap sN) a) = false).
  { intros a. unfold theNode. destruct (heap sN !! a) as [n|] eqn:Hn; cbn; [|done].
    by apply (Hbare a). }
  eapply wp_mono; [apply (loadEdges_loop _ sN) with (done := []) | | done].
  - intros t a Ha. destruct (Hnode t a Ha) as (dl & hc & _ & Hh). by eexists.
  - intros [u0 d0] He. cbn. unfold getUnexecutedDepsStmt in He.
    apply list_elem_of_filter in He as [Hx _]. cbn in Hx.
    unfold executableNotExecuted in Hx. rewrite Hdb in Hx.
    destruct (t_tx (db s) !! d0) as [r|] eqn:Hr; [|done].
    apply (Hrows (d0, bool_decide (bytes r ≠ None), has_code r)).
    apply getUnexecutedStmt_spec. exists r. split; [done|]. split; [by left|done].
  - done.
  - split; try done.
    + intros a b. destruct (Hempty a) as (_ & -> & _). split.
      * by intros ?%elem_of_nil.
      * intros (? & ? & ?%elem_of_nil & _). done.
    + intros a b. destruct (Hempty b) as (-> & _ & _). split.
      * by intros ?%elem_of_nil.
      * intros (? & ? & ?%elem_of_nil & _). done.
  - intros x s1 Hw. cbn beta. cbn [app] in Hw.
    destruct Hw as [Hmap1 Hdb1 Htl1 Hbl1 Hnum1 Hem1 Hdom1 Hnode1 Hdn1 Hup1].
    split; try congruence.
    + intros t. rewrite Hmap1. split.
      * intros [a Ha]. destruct (Hnode t a Ha) as (dl & hc & Hin & _). by exists dl, hc.
      * intros (dl & hc & Hin). apply (Hrows _ Hin).
    + intros t a. rewrite Hmap1. intros Ha.
      destruct (Hnode t a Ha) as (dl & hc & Hin & Hh). exists dl, hc. split; [done|].
      pose proof (Hnode1 a) as Hn1.
      assert (theNode (heap sN) a = newUnexecutedTx t dl (Some hc)) as HN
        by (unfold theNode; by rewrite Hh).
      rewrite HN in Hn1. split.
      * by rewrite Hn1.
      * exact (f_equal queuedForExecution Hn1).
    + intros t t' a. rewrite !Hmap1. apply Hinj.
    + intros a b. rewrite Hdn1, Hdb, !Hmap1. done.
    + intros a b. rewrite Hup1, Hdb, !Hmap1. done.
Qed.

Lemma loadedFrom_keysP s s1 : loadedFrom s s1 → keysP s1.
Proof.
  intros H t a Ha. destruct (lg_node _ _ H t a Ha) as (dl & hc & _ & Hn & _).
  exact (f_equal txid Hn).
Qed.

Lemma loadedFrom_mirroredP s s1 : loadedFrom s s1 → mirroredP s1.
Proof. intros H x u _ Hu. apply (lg_down _ _ H). by apply (lg_up _ _ H). Qed.

Lemma loadedFrom_materialised s s1 u d :
  loadedFrom s s1 →
  materialised s1 u d = true ↔
  (u, d) ∈ t_deps (db s) ∧ executableNotExecuted (db s) d = true
  ∧ is_Some (unexecuted s1 !! u).
Proof.
  intros H. unfold materialised. split.
  - destruct (unexecuted s1 !! u) as [a|] eqn:Hu; [|done].
    destruct (unexecuted s1 !! d) as [b|] eqn:Hd; [|done].
    intros [Hdn%bool_decide_eq_true _]%andb_true_iff.
    apply (lg_down _ _ H) in Hdn as (u' & d' & Hin & Hu' & Hd').
    assert (u' = u) as -> by (by apply (lg_inj _ _ H u' u a)).
    assert (d' = d) as -> by (by apply (lg_inj _ _ H d' d b)).
    unfold getUnexecutedDepsStmt in Hin. apply list_elem_of_filter in Hin as [? ?].
    split; [done|]. split; [done|]. by eexists.
  - intros (Hin & Hx & [a Hu]). rewrite Hu.
    assert (Hrow : (u, d) ∈ getUnexecutedDepsStmt (db s)).
    { unfold getUnexecutedDepsStmt. apply list_elem_of_filter. by split. }
    assert (is_Some (unexecuted s1 !! d)) as [b Hd].
    { apply (lg_keys _ _ H). unfold executableNotExecuted in Hx.
      destruct (t_tx (db s) !! d) as [r|] eqn:Hr; [|done].
      exists (bool_decide (bytes r ≠ None)), (has_code r).
      apply getUnexecutedStmt_spec. exists r. split; [done|]. split; [by left|done]. }
    rewrite Hd. apply andb_true_iff. split; apply bool_decide_eq_true.
    + apply (lg_down _ _ H). by exists u, d.
    + apply (lg_up _ _ H). by exists u, d.
Qed.

(** X12.  [_loadUnexecuted] rebuilds the graph from the tables.  On the
    empty map of the constructor, its two first loops return; the map then
    holds one node for each row of [tx] that is executable and not
    executed, or not downloaded, with the fields of the row; an edge is in
    the adjacency sets of two nodes exactly when [deps] has the row, its
    down end is executable and not executed, and its up end has a node.
    When that graph is acyclic the re-evaluation returns too, changes no
    edge, and leaves every flag equal to [ready]. *)
Theorem _loadUnexecuted_rebuilds_graph (fuel : nat) (s : Database) :
  heap s = ∅ →
  unexecuted s = ∅ →
  ∃ s1, (loadNodes ;; loadEdges) s = Ok tt s1
        ∧ db s1 = db s
        ∧ (∀ t, is_Some (unexecuted s1 !! t) ↔
                ∃ r, t_tx (db s) !! t = Some r
                     ∧ ((executable r && negb (executed r)) = true ∨ bytes r = None))
        ∧ (∀ t a r, unexecuted s1 !! t = Some a → t_tx (db s) !! t = Some r →
             txid (theNode (heap s1) a) = t
             ∧ downloaded (theNode (heap s1) a) = bool_decide (bytes r ≠ None)
             ∧ hasCode (theNode (heap s1) a) = Some (has_code r)
             ∧ queuedForExecution (theNode (heap s1) a) = false)
        ∧ (∀ u d, materialised s1 u d = true ↔
                  (u, d) ∈ t_deps (db s) ∧ executableNotExecuted (db s) d = true
                  ∧ is_Some (unexecuted s1 !! u))
        ∧ (acyclicWithin fuel s1 = true →
           ∃ s', _loadUnexecuted fuel s = Ok tt s'
                 ∧ sameNet s1 s'
                 ∧ readyConsistent s' = true).
Proof.
  intros Hheap Hmap.
  destruct (wp_Ok_unit _ _ _ (loadGraph_spec s Hheap Hmap)) as (s1 & Hrun & H).
  exists s1. split; [done|]. split; [apply (lg_db _ _ H)|].
  split; [|split; [|split]].
  - intros t. rewrite (lg_keys _ _ H). split.
    + intros (dl & hc & Hin). apply getUnexecutedStmt_spec in Hin as (r & ? & ? & _).
      by exists r.
    + intros (r & Hr & Hsel). exists (bool_decide (bytes r ≠ None)), (has_code r).
      apply getUnexecutedStmt_spec. by exists r.
  - intros t a r Ha Hr. destruct (lg_node _ _ H t a Ha) as (dl & hc & Hin & Hn & Hq).
    apply getUnexecutedStmt_spec in Hin as (r' & Hr' & _ & -> & ->).
    assert (r' = r) as -> by congruence.
    split; [exact (f_equal txid Hn)|]. split; [exact (f_equal downloaded Hn)|].
    split; [exact (f_equal hasCode Hn)|done].
  - intros u d. by apply loadedFrom_materialised.
  - intros Hacyc.
    assert (Hloop : wp False
      (forEach (map_to_list (unexecuted s1)).*2 (λ tx, _checkExecutability fuel tx None)) s1
      (λ _ s', sameNet s1 s' ∧ readyConsistent s' = true) (λ _, False)).
    { eapply wp_mono; [apply settle_loop | | done].
      - apply _checkExecutability_settles.
      - intros d _. by apply acyclicWithin_shallow.
      - by apply (loadedFrom_mirroredP s).
      - intros u s' (Hsg & Hok & _). cbn beta. split; [by apply sameGraph_sameNet|].
        apply consistent_readyConsistent. intros x Hx.
        apply (sameGraph_inMap _ _ _ Hsg) in Hx. apply Hok; [done|]. left.
        destruct Hx as [t Ht]. apply list_elem_of_fmap. exists (t, x).
        split; [done|]. by apply elem_of_map_to_list. }
    apply wp_Ok_unit in Hloop as (s' & Hrun' & Hn & Hc).
    exists s'. split; [|done].
    unfold _loadUnexecuted. unfold bind in Hrun |- *.
    destruct (loadNodes s) as [[] sN| |]; [|done..].
    rewrite Hrun. exact Hrun'.
Qed.

Lemma _loadUnexecuted_sameRegistry fuel : holds sameRegistry (_loadUnexecuted fuel).
Proof.
  unfold _loadUnexecuted, loadNodes, loadEdges.
  registry_with ltac:(idtac; apply _checkExecutability_sameRegistry).
Qed.

Lemma seeded_rows (l : list Txid) (d : Tables) t :
  t_trust (foldl (λ d' t', trustIfMissingStmt t' d') d l) !! t
  = match t_trust d !! t with
    | Some v => Some v
    | None => if bool_decide (t ∈ l) then Some 1%Z else None
    end.
Proof.
  revert d. induction l as [|x l IH]; intros d; cbn [foldl].
  - by destruct (t_trust d !! t).
  - rewrite IH. cbn.
    destruct (t_trust d !! x) as [vx|] eqn:Hx.
    + destruct (t_trust d !! t) as [v|] eqn:Ht; [done|].
      destruct (decide (t = x)) as [->|Hne]; [congruence|].
      destruct (decide (t ∈ l)).
      * rewrite !bool_decide_true; [done | by right | done].
      * rewrite !bool_decide_false; [done | | done]. rewrite elem_of_cons. naive_solver.
    + destruct (decide (t = x)) as [->|Hne].
      * rewrite lookup_insert_eq, Hx. rewrite bool_decide_true by left. done.
      * rewrite lookup_insert_ne by done.
        destruct (t_trust d !! t) as [v|] eqn:Ht; [done|].
        destruct (decide (t ∈ l)).
        -- rewrite !bool_decide_true; [done | by right | done].
        -- rewrite !bool_decide_false; [done | | done]. rewrite elem_of_cons. naive_solver.
Qed.

Lemma seeded_other (l : list Txid) (d : Tables) :
  let d' := foldl (λ d' t', trustIfMissingStmt t' d') d l in
  t_tx d' = t_tx d ∧ t_deps d' = t_deps d ∧ t_jig d' = t_jig d
  ∧ t_berry d' = t_berry d ∧ t_spends d' = t_spends d ∧ t_ban d' = t_ban d
  ∧ t_crawl d' = t_crawl d.
Proof.
  revert d. induction l as [|x l IH]; intros d; cbn [foldl]; [done|].
  destruct (IH (trustIfMissingStmt x d)) as (-> & -> & -> & -> & -> & -> & ->). done.
Qed.

(** X13.  [open ()] on the object of the constructor, for a file at schema
    v2.  Before [_loadUnexecuted] runs, the trust list holds the txids of
    table [trust] with [value = 1] and the txids of [DEFAULT_TRUSTLIST]
    that the table did not have: a default that was untrusted ([value =
    0]) stays untrusted; the ban list is table [ban]; the crawl tip has a
    row; the rows of [tx] and [deps] are those of the file.
    [_loadUnexecuted] then changes neither list. *)
Theorem open_seeds_and_loads (fuel : nat) (tables : Tables) (s : Database) :
  trustlist s = ∅ →
  banlist s = ∅ →
  ∃ s0, open fuel tables s = _loadUnexecuted fuel s0
        ∧ heap s0 = heap s ∧ unexecuted s0 = unexecuted s
        ∧ (∀ t, t ∈ trustlist s0 ↔
                t_trust tables !! t = Some 1%Z
                ∨ (t ∈ DEFAULT_TRUSTLIST ∧ t_trust tables !! t = None))
        ∧ banlist s0 = t_ban tables
        ∧ persisted s0
        ∧ t_tx (db s0) = t_tx tables ∧ t_deps (db s0) = t_deps tables
        ∧ getHeight s0 = Some (default 0%Z (getHeightStmt tables))
        ∧ left_by (open fuel tables s)
            (λ s', trustlist s' = trustlist s0 ∧ banlist s' = banlist s0 ∧ persisted s').
Proof.
  intros Htl Hbl. unfold open. generalize DEFAULT_TRUSTLIST. intros defaults.
  set (d1 := foldl (λ d' t', trustIfMissingStmt t' d') (setupCrawlStmt tables) defaults).
  set (sA := upd_txDepth pred (upd_db (λ _, d1) (upd_txDepth S (upd_db (λ _, tables) s)))).
  set (s0 := upd_banlist (λ l, l ∪ t_ban (db sA))
               (upd_trustlist (λ l, l ∪ list_to_set (getTrustlistStmt (db sA))) sA)).
  assert (Hopen :
    (modify (upd_db (λ _, tables)) ;;
     transaction (
       run setupCrawlStmt ;;
       forEach defaults (λ t, run (trustIfMissingStmt t))) ;;
     _loadTrustlist ;;
     _loadBanlist ;;
     _loadUnexecuted fuel) s = _loadUnexecuted fuel s0).
  { unfold bind at 1. unfold modify at 1.
    unfold bind at 1. unfold transaction at 1. unfold bind at 1. unfold run at 1, modify at 1.
    rewrite forEach_run.
    unfold bind at 1. rewrite _loadTrustlist_eq.
    unfold bind at 1. rewrite _loadBanlist_eq. done. }
  destruct (seeded_other defaults (setupCrawlStmt tables))
    as (Htx & Hdeps & _ & _ & _ & Hban & Hcrawl).
  fold d1 in Htx, Hdeps, Hban, Hcrawl.
  assert (Hdb0 : db s0 = d1) by reflexivity.
  assert (Htl0 : trustlist s0 = trustlist s ∪ list_to_set (getTrustlistStmt d1))
    by reflexivity.
  assert (Hbl0 : banlist s0 = banlist s ∪ t_ban d1) by reflexivity.
  assert (Hrow : ∀ t, t_trust d1 !! t = Some 1%Z ↔
            t_trust tables !! t = Some 1%Z
            ∨ (t ∈ defaults ∧ t_trust tables !! t = None)).
  { intros t. unfold d1. rewrite seeded_rows.
    assert (t_trust (setupCrawlStmt tables) = t_trust tables) as -> by done.
    destruct (t_trust tables !! t) as [v|]; [naive_solver|].
    case_bool_decide; naive_solver. }
  assert (Htrust : ∀ t, t ∈ trustlist s0 ↔
            t_trust tables !! t = Some 1%Z
            ∨ (t ∈ defaults ∧ t_trust tables !! t = None)).
  { intros t. rewrite Htl0, Htl, elem_of_union, elem_of_list_to_set, getTrustlistStmt_spec,
      Hrow. set_solver. }
  assert (Hp0 : persisted s0).
  { split.
    - intros t. rewrite Hdb0, Htl0, Htl, elem_of_union, elem_of_list_to_set,
        getTrustlistStmt_spec. set_solver.
    - rewrite Hdb0, Hbl0, Hbl. set_solver. }
  exists s0. split; [done|]. split; [reflexivity|]. split; [reflexivity|].
  split; [done|].
  split; [rewrite Hbl0, Hbl, Hban; unfold setupCrawlStmt; cbn; set_solver|].
  split; [done|]. split; [by rewrite Hdb0, Htx|]. split; [by rewrite Hdb0, Hdeps|].
  split.
  - unfold getHeight, getHeightStmt. rewrite Hdb0, Hcrawl. unfold setupCrawlStmt. cbn.
    by destruct (t_crawl tables) as [[h0 hash]|].
  - rewrite Hopen. pose proof (_loadUnexecuted_sameRegistry fuel s0) as Hh.
    unfold wp in Hh. unfold left_by.
    destruct (_loadUnexecuted fuel s0) as [[] s'|s'|]; [| |done];
      (destruct Hh as [H1 H2 H3 H4]; split; [done|]; split; [done|];
       by apply (sameRegistry_persisted s0)).
Qed.

(** *** The crawl tip *)

(** X14.  [setHeightAndHash] and [getHeight], [getHash] are a round trip
    once the tip has its row, which [open ()] inserts: the two getters
    return what was set, and no other table changes.  Without the row the
    statement updates nothing and the getters return [undefined]. *)
Theorem setHeightAndHash_round_trip (h : Z) (hash : option string) (s : Database) :
  ∃ s', setHeightAndHash h hash s = Ok tt s'
        ∧ (is_Some (getHeight s) → getHeight s' = Some h ∧ getHash s' = Some hash)
        ∧ (getHeight s = None → s' = s ∧ getHash s' = None)
        ∧ upd_crawl (λ _, t_crawl (db s)) (db s') = db s.
Proof.
  eexists. split; [reflexivity|].
  unfold getHeight, getHash, getHeightStmt, getHashStmt. cbn.
  destruct (t_crawl (db s)) as [[h0 hash0]|] eqn:Hc; cbn.
  - split; [done|]. split; [done|]. destruct s as [[]]. cbn in *. by subst.
  - split; [by intros [? [=]]|]. split.
    + intros _. split; [|done]. destruct s as [[]]. cbn in *. by subst.
    + destruct s as [[]]. cbn in *. by subst.
Qed.

(** *** [storeParsedNonExecutableTransaction] *)

Lemma spent_rows (inputs : list Location) (id : Txid) (d : Tables) loc :
  t_spends (foldl (λ d' location, setSpendStmt location id d') d inputs) !! loc
  = if bool_decide (loc ∈ inputs) then Some (Some id) else t_spends d !! loc.
Proof.
  revert d. induction inputs as [|x l IH]; intros d; cbn [foldl]; [done|].
  rewrite IH. cbn. destruct (decide (loc ∈ l)).
  - rewrite !bool_decide_true; [done | by right | done].
  - rewrite (bool_decide_false (loc ∈ l)) by done.
    destruct (decide (loc = x)) as [->|Hne].
    + rewrite bool_decide_true by left. by rewrite lookup_insert_eq.
    + rewrite bool_decide_false by (rewrite elem_of_cons; naive_solver).
      by rewrite lookup_insert_ne.
Qed.

Lemma unspent_rows (outputs : list Location) (d : Tables) loc :
  t_spends (foldl (λ d' location, setUnspentStmt location d') d outputs) !! loc
  = match t_spends d !! loc with
    | Some v => Some v
    | None => if bool_decide (loc ∈ outputs) then Some None else None
    end.
Proof.
  revert d. induction outputs as [|x l IH]; intros d; cbn [foldl].
  - by destruct (t_spends d !! loc).
  - rewrite IH. cbn.
    destruct (t_spends d !! x) as [vx|] eqn:Hx.
    + destruct (t_spends d !! loc) as [v|] eqn:Hl; [done|].
      destruct (decide (loc = x)) as [->|Hne]; [congruence|].
      destruct (decide (loc ∈ l)).
      * rewrite !bool_decide_true; [done | by right | done].
      * rewrite !bool_decide_false; [done | | done]. rewrite elem_of_cons. naive_solver.
    + destruct (decide (loc = x)) as [->|Hne].
      * rewrite lookup_insert_eq, Hx. rewrite bool_decide_true by left. done.
      * rewrite lookup_insert_ne by done.
        destruct (t_spends d !! loc) as [v|] eqn:Hl; [done|].
        destruct (decide (loc ∈ l)).
        -- rewrite !bool_decide_true; [done | by right | done].
        -- rewrite !bool_decide_false; [done | | done]. rewrite elem_of_cons. naive_solver.
Qed.

Lemma spends_keep_tx {B} (l : list B) (stmt : B → Tables → Tables) d :
  (∀ x d', t_tx (stmt x d') = t_tx d') →
  t_tx (foldl (λ d' x, stmt x d') d l) = t_tx d.
Proof.
  intros Hs. revert d. induction l as [|x l IH]; intros d; cbn [foldl]; [done|].
  by rewrite IH, Hs.
Qed.

(** X15.  [storeParsedNonExecutableTransaction] on a node of the map that
    has a row, the graph being acyclic.  The call returns; the node has
    left the map; the row is downloaded and not executable, so the txid is
    no longer listed by [getTransactionsToDownload]; every input is
    recorded as spent by the txid; an output that is not an input is
    unspent if it had no row, and keeps its row otherwise; the rows of the
    other txids do not change. *)
Theorem storeParsedNonExecutable_stores (fuel : nat) (id : Txid) (hex : string)
    (inputs outputs : list Location) (tx : Addr) (s : Database) :
  acyclicWithin fuel s = true →
  unexecuted s !! id = Some tx →
  hasTransaction s id = true →
  ∃ s', storeParsedNonExecutableTransaction fuel id hex inputs outputs s = Ok tt s'
        ∧ unexecuted s' = delete id (unexecuted s)
        ∧ isTransactionDownloaded id s' = Ok true s'
        ∧ (id ∉ getTransactionsToDownload s')
        ∧ (∃ r, t_tx (db s') !! id = Some r ∧ executable r = false)
        ∧ (∀ loc, loc ∈ inputs → getSpend s' loc = Some (Some id))
        ∧ (∀ loc, loc ∈ outputs → loc ∉ inputs →
             getSpend s' loc = match getSpend s loc with
                               | Some v => Some v
                               | None => Some None
                               end)
        ∧ (∀ t, t ≠ id → t_tx (db s') !! t = t_tx (db s) !! t).
Proof.
  intros Hacyc Hid [r0 Hrow]%hasTransaction_row.
  set (dF := foldl (λ d' location, setUnspentStmt location d')
               (foldl (λ d' location, setSpendStmt location id d')
                  (setTransactionExecutableStmt false id
                     (setTransactionBytesStmt hex id (db s))) inputs) outputs).
  assert (Hwp : wp False (storeParsedNonExecutableTransaction fuel id hex inputs outputs) s
            (λ _ s', unexecuted s' = delete id (unexecuted s) ∧ db s' = dF) (λ _, False)).
  { unfold storeParsedNonExecutableTransaction.
    apply wp_transaction, wp_bind, wp_run, wp_bind, wp_run.
    apply wp_bind, wp_forEach_run, wp_bind, wp_forEach_run, wp_bind, wp_get.
    cbn [unexecuted upd_db upd_txDepth]. rewrite Hid.
    apply wp_bind, wp_write, wp_bind, wp_modify, wp_bind, wp_detach.
    match goal with |- wp _ _ ?st _ _ => set (s1 := st) end.
    assert (Hdown : ∀ x, downstream (theNode (heap s1) x) = downstream (theNode (heap s) x)).
    { intros x. unfold s1. cbn. rewrite detached_field by done. by apply theNode_alter. }
    apply (wp_mono _ _ (λ _ s2, sameGraph s1 s2) _ (λ _, False));
      [apply wp_forEach; [apply sameGraph_refl|] | | done].
    - intros d s2 _ H2.
      eapply wp_mono; [apply _checkExecutability_total | | done].
      + rewrite (shallow_sameGraph fuel s1 s2) by done.
        rewrite (shallow_ext fuel (heap s) (heap s1)) by done.
        by apply acyclicWithin_shallow.
      + intros u s3 [H3 _]. by apply (sameGraph_trans s1 s2).
    - intros u s2 [Hdb Hmap _ _ _ _ _ _]. cbn beta. split.
      + cbn. by rewrite Hmap.
      + cbn. by rewrite Hdb. }
  apply wp_Ok_unit in Hwp as (s' & Hrun & Hmap & Hdb).
  exists s'. split; [done|]. split; [done|].
  assert (Htx : t_tx (db s') = alter (set_executable false) id
                                 (alter (set_bytes (Some hex)) id (t_tx (db s)))).
  { rewrite Hdb. unfold dF. rewrite !spends_keep_tx by done. done. }
  assert (Hrow' : t_tx (db s') !! id = Some (set_executable false (set_bytes (Some hex) r0))).
  { by rewrite Htx, !lookup_alter_eq, Hrow. }
  split; [|split; [|split; [|split; [|split]]]].
  - unfold isTransactionDownloaded. rewrite bind_get.
    unfold getTransactionDownloadedStmt. rewrite Hrow'. reflexivity.
  - unfold getTransactionsToDownload, getTransactionsToDownloadStmt.
    intros ([k r] & Hk & Hin)%list_elem_of_fmap. cbn in Hk. subst k.
    apply list_elem_of_filter in Hin as [Hnone Hin]. apply elem_of_map_to_list in Hin.
    rewrite Hrow' in Hin. injection Hin as <-. done.
  - eexists. split; [exact Hrow'|done].
  - intros loc Hin. unfold getSpend, getSpendStmt. rewrite Hdb. unfold dF.
    rewrite unspent_rows, spent_rows. by rewrite bool_decide_true.
  - intros loc Hout Hnin. unfold getSpend, getSpendStmt. rewrite Hdb. unfold dF.
    rewrite unspent_rows, spent_rows. rewrite bool_decide_false by done. cbn.
    destruct (t_spends (db s) !! loc); [done|]. by rewrite bool_decide_true.
  - intros t Hne. rewrite Htx. by rewrite !lookup_alter_ne.
Qed.

(** *** [storeExecutedTransaction] *)

(** The statement that the loop over [Object.keys(cache)] runs for a key. *)
Definition cacheStmt (kv : string * string) : Tables → Tables :=
  if String.prefix "jig://" kv.1 then setJigStateStmt (slice 6 kv.1) kv.2
  else if String.prefix "berry://" kv.1 then setBerryStateStmt (slice 8 kv.1) kv.2
  else λ d, d.

Lemma forEach_pointwise {B} (l : list B) (f g : B → M unit) s :
  (∀ x s0, f x s0 = g x s0) → forEach l f s = forEach l g s.
Proof.
  intros Hfg. revert s. induction l as [|x l IH]; intros s; cbn [forEach]; [done|].
  unfold bind. rewrite Hfg. destruct (g x s); [apply IH|done..].
Qed.

Lemma fold_keeps {B} (P : Tables → Prop) (l : list B) (stmt : B → Tables → Tables) d :
  (∀ x d', P d' → P (stmt x d')) → P d → P (foldl (λ d' x, stmt x d') d l).
Proof.
  intros Hs. revert d. induction l as [|x l IH]; intros d Hd; cbn [foldl]; [done|].
  apply IH. by apply Hs.
Qed.

Lemma substring_all (s : string) : String.substring 0 (String.length s) s = s.
Proof. induction s as [|c s IH]; [done|]. cbn. by rewrite IH. Qed.

Lemma prefix_app (p s : string) : String.prefix p (p +:+ s) = true.
Proof.
  induction p as [|c p IH]; [by destruct s|].
  change (String c p +:+ s) with (String c (p +:+ s)).
  cbn [String.prefix]. by destruct (Ascii.ascii_dec c c).
Qed.

Lemma slice_jig (loc : string) : slice 6 ("jig://" ++ loc) = loc.
Proof.
  rewrite <- (substring_all loc) at 2. unfold slice.
  replace (String.length ("jig://" ++ loc) - 6) with (String.length loc)
    by (cbv [String.app String.append]; cbn [String.length]; lia).
  reflexivity.
Qed.

Lemma jig_state_kept_by_cache kv d loc st :
  jig_state <$> t_jig d !! loc = Some st →
  jig_state <$> t_jig (cacheStmt kv d) !! loc = Some st.
Proof.
  intros H. unfold cacheStmt. repeat case_match; try done.
  cbn. destruct (t_jig d !! slice 6 kv.1) eqn:E; [done|].
  destruct (decide (slice 6 kv.1 = loc)) as [<-|Hne]; [by rewrite E in H|].
  by rewrite lookup_insert_ne.
Qed.

Lemma jig_state_kept_by_alter (f : JigRow → JigRow) loc' d loc st :
  (∀ r, jig_state (f r) = jig_state r) →
  jig_state <$> t_jig d !! loc = Some st →
  jig_state <$> t_jig (upd_jig (alter f loc') d) !! loc = Some st.
Proof.
  intros Hf H. cbn. rewrite lookup_alter.
  destruct (decide (loc' = loc)) as [->|]; [|done].
  destruct (t_jig d !! loc); cbn in *; [|done]. by rewrite Hf.
Qed.

Lemma berry_kept_by_cache kv d loc st :
  t_berry d !! loc = Some st → t_berry (cacheStmt kv d) !! loc = Some st.
Proof.
  intros H. unfold cacheStmt. repeat case_match; try done.
  cbn. destruct (t_berry d !! slice 8 kv.1) eqn:E; [done|].
  destruct (decide (slice 8 kv.1 = loc)) as [<-|Hne]; [congruence|].
  by rewrite lookup_insert_ne.
Qed.

Lemma cache_stores_jig (l : list (string * string)) (d : Tables) (loc st : string) :
  ("jig://" +:+ loc, st) ∈ l →
  is_Some (t_jig (foldl (λ d' kv, cacheStmt kv d') d l) !! loc).
Proof.
  revert d. induction l as [|kv l IH]; intros d Hin; [by apply elem_of_nil in Hin|].
  cbn [foldl]. apply elem_of_cons in Hin as [<-|Hin]; [|by apply IH].
  assert (is_Some (jig_state <$> t_jig (cacheStmt ("jig://" +:+ loc, st) d) !! loc)) as [st' Hst].
  { unfold cacheStmt. cbn [fst snd]. rewrite prefix_app. rewrite slice_jig. cbn.
    destruct (t_jig d !! loc) as [r|] eqn:E; [rewrite E; by eexists|].
    rewrite lookup_insert_eq. by eexists. }
  assert (jig_state <$> t_jig (foldl (λ d' kv, cacheStmt kv d')
                                 (cacheStmt ("jig://" +:+ loc, st) d) l) !! loc = Some st') as H.
  { apply (fold_keeps (λ d', jig_state <$> t_jig d' !! loc = Some st')); [|done].
    intros. by apply jig_state_kept_by_cache. }
  revert H. generalize (foldl (λ d' kv, cacheStmt kv d') (cacheStmt ("jig://" +:+ loc, st) d) l).
  intros d' H. destruct (t_jig d' !! loc); [by eexists|done].
Qed.

(** X16.  [storeExecutedTransaction] on a node of the map that has a row.
    The call returns; the node has left the map, its flag is off and the
    counter went down by one if the flag was on; the row is executed and
    indexed, the other rows do not change; the state of a jig or of a
    berry that was recorded before is kept, not replaced; every key
    [jig://location] of the cache has a state recorded at its location. *)
Theorem storeExecutedTransaction_indexes (id : Txid) (result : Result) (tx : Addr)
    (s : Database) :
  unexecuted s !! id = Some tx →
  hasTransaction s id = true →
  ∃ s', storeExecutedTransaction id result s = Ok tt s'
        ∧ unexecuted s' = delete id (unexecuted s)
        ∧ flag s' tx = false
        ∧ numQueuedForExecution s'
          = (numQueuedForExecution s - (if flag s tx then 1 else 0))%Z
        ∧ (∃ r, t_tx (db s') !! id = Some r ∧ executed r = true ∧ indexed r = true)
        ∧ (∀ t, t ≠ id → t_tx (db s') !! t = t_tx (db s) !! t)
        ∧ (∀ loc st, getJigState s loc = Some st → getJigState s' loc = Some st)
        ∧ (∀ loc st, getBerryState s loc = Some st → getBerryState s' loc = Some st)
        ∧ (∀ loc st : string,
             ("jig://" +:+ loc, st) ∈ cache result → is_Some (getJigState s' loc)).
Proof.
  intros Hid [r0 Hrow]%hasTransaction_row.
  set (d1 := foldl (λ d' kv, cacheStmt kv d')
               (setTransactionIndexedStmt true id (setTransactionExecutedStmt true id (db s)))
               (cache result)).
  set (dF := foldl (λ d' ls, setJigScripthashStmt ls.2 ls.1 d')
               (foldl (λ d' ll, setJigLockStmt ll.2 ll.1 d')
                  (foldl (λ d' lc, setJigClassStmt lc.2 lc.1 d') d1 (classes result))
                  (locks result))
               (scripthashes result)).
  assert (Hwp : wp False (storeExecutedTransaction id result) s
            (λ _ s', unexecuted s' = delete id (unexecuted s) ∧ db s' = dF
                     ∧ flag s' tx = false
                     ∧ numQueuedForExecution s'
                       = (numQueuedForExecution s - (if flag s tx then 1 else 0))%Z)
            (λ _, False)).
  { unfold storeExecutedTransaction. apply wp_bind, wp_get. rewrite Hid.
    apply wp_transaction, wp_bind, wp_run, wp_bind, wp_run, wp_bind.
    match goal with |- wp _ (forEach _ ?f) ?st _ _ =>
      eapply Ok_wp;
        [rewrite (forEach_pointwise _ f (λ kv, run (cacheStmt kv))); [apply forEach_run|]|]
    end.
    { intros kv s0. unfold cacheStmt. repeat case_match; try done.
      unfold ret, run, modify. by destruct s0. }
    apply wp_bind, wp_forEach_run, wp_bind, wp_forEach_run, wp_bind, wp_forEach_run.
    apply wp_bind, wp_detach, wp_bind, wp_modify, wp_bind, wp_uncount, wp_bind, wp_write,
      wp_notifyReady.
    assert (Hq : queuedForExecution (theNode (detached tx (downstream (theNode (heap s) tx))
                                                (heap s)) tx) = flag s tx).
    { unfold flag. by apply detached_field. }
    cbn [heap upd_db upd_txDepth upd_heap upd_unexecuted] in *.
    rewrite Hq.
    assert (Hoff : ∀ h : gmap nat UnexecutedTx,
               queuedForExecution (theNode (alter (set_queued false) tx h) tx) = false).
    { intros h. unfold theNode. rewrite lookup_alter_eq. by destruct (h !! tx). }
    destruct (flag s tx) eqn:Hf.
    - split; [done|]. split; [done|]. split; [apply Hoff | cbn; lia].
    - split; [done|]. split; [done|]. split; [apply Hoff | cbn; lia]. }
  apply wp_Ok_unit in Hwp as (s' & Hrun & Hmap & Hdb & Hflag & Hnum).
  exists s'. split; [done|]. split; [done|]. split; [done|]. split; [done|].
  assert (Hcache_tx : ∀ kv d, t_tx (cacheStmt kv d) = t_tx d).
  { intros kv d. unfold cacheStmt. by repeat case_match. }
  assert (Htx : t_tx (db s') = alter (set_indexed true) id
                                 (alter (set_executed true) id (t_tx (db s)))).
  { rewrite Hdb. unfold dF, d1. rewrite !spends_keep_tx by done. done. }
  assert (Hjig : ∀ loc st, jig_state <$> t_jig d1 !! loc = Some st →
                           jig_state <$> t_jig dF !! loc = Some st).
  { intros loc st H1. unfold dF.
    apply (fold_keeps (λ d', jig_state <$> t_jig d' !! loc = Some st));
      [intros; by apply jig_state_kept_by_alter|].
    apply (fold_keeps (λ d', jig_state <$> t_jig d' !! loc = Some st));
      [intros; by apply jig_state_kept_by_alter|].
    apply (fold_keeps (λ d', jig_state <$> t_jig d' !! loc = Some st));
      [intros; by apply jig_state_kept_by_alter|]. done. }
  split; [|split; [|split; [|split]]].
  - exists (set_indexed true (set_executed true r0)).
    by rewrite Htx, !lookup_alter_eq, Hrow.
  - intros t Hne. by rewrite Htx, !lookup_alter_ne.
  - intros loc st. unfold getJigState, getJigStateStmt. rewrite Hdb. intros H0.
    apply Hjig. unfold d1.
    apply (fold_keeps (λ d', jig_state <$> t_jig d' !! loc = Some st));
      [intros; by apply jig_state_kept_by_cache | done].
  - intros loc st. unfold getBerryState, getBerryStateStmt. rewrite Hdb. intros H0.
    assert (t_berry dF = t_berry d1) as ->.
    { unfold dF.
      rewrite (fold_keeps (λ d', t_berry d' = t_berry
        (foldl (λ d' ll, setJigLockStmt ll.2 ll.1 d')
           (foldl (λ d' lc, setJigClassStmt lc.2 lc.1 d') d1 (classes result))
           (locks result)))); [|done|done].
      rewrite (fold_keeps (λ d', t_berry d' = t_berry
        (foldl (λ d' lc, setJigClassStmt lc.2 lc.1 d') d1 (classes result))));
        [|done|done].
      by rewrite (fold_keeps (λ d', t_berry d' = t_berry d1)). }
    unfold d1.
    apply (fold_keeps (λ d', t_berry d' !! loc = Some st));
      [intros; by apply berry_kept_by_cache | done].
  - intros loc st Hin. unfold getJigState, getJigStateStmt. rewrite Hdb.
    destruct (cache_stores_jig (cache result)
                (setTransactionIndexedStmt true id (setTransactionExecutedStmt true id (db s)))
                loc st Hin) as [r Hr].
    fold d1 in Hr.
    assert (jig_state <$> t_jig dF !! loc = Some (jig_state r)) as ->
      by (apply Hjig; by rewrite Hr).
    by eexists.
Qed.

(** ** Concrete runs

    The runs start from the empty database and use [sampleMetadata] as the
    classifier.  [A], [B], ... are txids; the fuel 10 is more than any of
    the recursions needs. *)

Module Scenarios.

Definition noResult : Result := mkResult [] [] [] [].

(** S3 of the specification: [A] and [B] carry code, [B] depends on [A],
    neither is trusted. *)
Definition S3 : M unit :=
  addNewTransaction 100 "A" ;;
  addNewTransaction 101 "B" ;;
  storeParsedExecutableTransaction sampleMetadata 102 10 "A" "runA" true [] [] [] ;;
  storeParsedExecutableTransaction sampleMetadata 103 10 "B" "runB" true ["A"] [] [].

(** [A] without code is stored and queued. *)
Definition queuedA : M unit :=
  addNewTransaction 100 "A" ;;
  storeParsedExecutableTransaction sampleMetadata 101 10 "A" "runA" false [] [] [].

(** [U] is indexed; [D], without code, depends on it and is queued. *)
Definition indexedU_queuedD : M unit :=
  addNewTransaction 100 "U" ;;
  storeParsedExecutableTransaction sampleMetadata 101 10 "U" "runU" false [] [] [] ;;
  storeExecutedTransaction "U" noResult ;;
  addNewTransaction 102 "D" ;;
  storeParsedExecutableTransaction sampleMetadata 103 10 "D" "runD" false ["U"] [] [].

End Scenarios.

(** C5, witness: the first transaction of an empty database. *)
Lemma addNewTransaction_leaves_time_null_witness :
  ∃ s', addNewTransaction 1700000000 "A" emptyDatabase = Ok tt s'
        ∧ getTransactionTime s' "A" = Some None
        ∧ getTransactionHeight s' "A" = Some (Some 1700000000%Z)
        ∧ (unexecuted emptyDatabase !! "A" = None →
           ∃ tx, unexecuted s' !! "A" = Some tx
                 ∧ heap s' !! tx = Some (newUnexecutedTx "A" false None)).
Proof.
  apply (addNewTransaction_leaves_time_null 1700000000 "A" emptyDatabase).
  reflexivity.
Defined.

(** C10, witness: the three calls on the empty database. *)
Lemma absent_node_is_noop_witness :
  storeExecutedTransaction "A" Scenarios.noResult emptyDatabase = Ok tt emptyDatabase
  ∧ setTransactionExecutionFailed sampleMetadata 0 "A" emptyDatabase = Ok tt emptyDatabase
  ∧ addMissingDeps sampleMetadata 100 0 "A" ["B"] emptyDatabase = Ok tt emptyDatabase.
Proof.
  apply (absent_node_is_noop sampleMetadata 100 0 "A" Scenarios.noResult ["B"] emptyDatabase).
  reflexivity.
Defined.


(** The same through [trust] and [untrust]. *)
Lemma untrust_leaves_ready_node_unqueued :
  ∃ s tx, (Scenarios.queuedA ;; trust 10 "A" ;; untrust 10 "A") emptyDatabase = Ok tt s
          ∧ unexecuted s !! "A" = Some tx
          ∧ queuedForExecution (theNode (heap s) tx) = false
          ∧ ready s (theNode (heap s) tx) = true.
Proof.
  eexists _, 0. split; [vm_compute; reflexivity|]. by vm_compute.
Qed.

(** C2, failing run.  [X] is stored as not executable; [A] is queued
    (counter 1).  The executor reports [X] as a missing dependency of [A]:
    [addDep] marks [A] as failed and takes it out of the map (counter 0),
    and [addMissingDeps] goes on to [_checkExecutability] on the object it
    still holds, which counts it again. *)
Lemma addMissingDeps_counts_removed_node :
  ∃ s, (addNewTransaction 100 "X" ;;
        storeParsedNonExecutableTransaction 10 "X" "data" [] [] ;;
        Scenarios.queuedA ;;
        addMissingDeps sampleMetadata 104 10 "A" ["X"]) emptyDatabase = Ok tt s
       ∧ unexecuted s = ∅
       ∧ countQueued s = 0
       ∧ getNumQueuedForExecution s = 1%Z.
Proof. eexists. split; [vm_compute; reflexivity|]. by vm_compute. Qed.

(** A second run with the same end: [B] depends on [A] and is deleted;
    its object stays in [A.downstream], and is counted when [A] is queued. *)
Lemma deleted_node_is_counted :
  ∃ s, (addNewTransaction 100 "A" ;;
        addNewTransaction 101 "B" ;;
        storeParsedExecutableTransaction sampleMetadata 102 10 "B" "runB" false ["A"] [] [] ;;
        (deleteTransaction 10 "B" ∅ ;; ret tt) ;;
        storeParsedExecutableTransaction sampleMetadata 103 10 "A" "runA" false [] [] [])
         emptyDatabase = Ok tt s
       ∧ dom (unexecuted s) = {["A"]}
       ∧ countQueued s = 1
       ∧ getNumQueuedForExecution s = 2%Z.
Proof. eexists. split; [vm_compute; reflexivity|]. by vm_compute. Qed.

(** C6, failing run.  [unindexTransaction "U"] puts [U] back into the map;
    [D] is already there, so the recursive call on [D] only forces its flag:
    the edge [(U, D)] of table [deps] has both ends in the map and is in
    neither adjacency set. *)
Lemma unindex_misses_downstream_edge :
  ∃ s, (Scenarios.indexedU_queuedD ;; unindexTransaction 10 "U") emptyDatabase = Ok tt s
       ∧ recordedAndPresent s "U" "D" = true
       ∧ materialised s "U" "D" = false.
Proof. eexists. split; [vm_compute; reflexivity|]. by vm_compute. Qed.

(** C3, counterexample.  [B] is trusted before it is known; [A] and [B]
    then arrive as in S3.  [trust "B"] returns at its first line and the
    ancestor [A], with code and untrusted, stays untrusted. *)
Lemma trust_of_trusted_skips_ancestors :
  ∃ s0 s tx utx,
    (trust 10 "B" ;; Scenarios.S3) emptyDatabase = Ok tt s0
    ∧ trust 10 "B" s0 = Ok tt s
    ∧ unexecuted s0 !! "B" = Some tx
    ∧ ancestor (heap s0) tx utx
    ∧ txid (theNode (heap s0) utx) = "A"
    ∧ hasCode (theNode (heap s0) utx) = Some true
    ∧ ("A" ∉ trustlist s0)
    ∧ ("A" ∉ trustlist s).
Proof.
  eexists _, _, 1, 0. split; [vm_compute; reflexivity|].
  split; [vm_compute; reflexivity|].
  split; [by vm_compute|].
  split; [apply ancestor_up; vm_compute; set_solver|].
  repeat split; by vm_compute.
Qed.


(** C9, counterexample.  S3, then [trust "B"; untrust "B"]: [trust] also
    trusted the ancestor [A], [untrust] removes [B] alone. *)
Lemma trust_untrust_keeps_ancestors :
  ∃ s0 s,
    Scenarios.S3 emptyDatabase = Ok tt s0
    ∧ ("B" ∉ trustlist s0)
    ∧ (trust 10 "B" ;; untrust 10 "B") s0 = Ok tt s
    ∧ trustlist s0 = ∅
    ∧ trustlist s = {["A"]}.
Proof.
  eexists _, _. split; [vm_compute; reflexivity|].
  split; [by vm_compute|].
  split; [vm_compute; reflexivity|]. by vm_compute.
Qed.

(** The state a run leaves; the empty database when it does not return. *)
Definition stateAfter (m : M unit) : Database :=
  match m emptyDatabase with
  | Ok _ s => s
  | _ => emptyDatabase
  end.

(** [B], without code, waits for [A], which is not downloaded.  When [A]
    fails and its bytes do not classify as executable, [B] is left with no
    upstream and is ready, but nothing evaluates it: its flag stays
    [false]. *)
Definition waitingB : M unit :=
  addNewTransaction 100 "B" ;;
  storeParsedExecutableTransaction sampleMetadata 101 10 "B" "runB" false ["A"] [] [].

Lemma failure_leaves_ready_node_unqueued :
  ∃ s tx, (waitingB ;; setTransactionExecutionFailed sampleMetadata 10 "A") emptyDatabase
          = Ok tt s
          ∧ readyConsistent (stateAfter waitingB) = true
          ∧ unexecuted s !! "B" = Some tx
          ∧ queuedForExecution (theNode (heap s) tx) = false
          ∧ ready s (theNode (heap s) tx) = true.
Proof.
  eexists _, 0. split; [vm_compute; reflexivity|]. by vm_compute.
Qed.


(** C3, witness: S3.  [trust "B"] trusts [B] and its ancestor [A]. *)
Lemma trust_adds_untrusted_ancestors_witness :
  ∃ s', trust 10 "B" (stateAfter Scenarios.S3) = Ok tt s'
        ∧ ∀ t, t ∈ trustlist s' ↔
               t ∈ trustlist (stateAfter Scenarios.S3) ∨ t = "B"
               ∨ trustedAncestor (stateAfter Scenarios.S3) "B" t.
Proof.
  apply (trust_adds_untrusted_ancestors 10 "B" (stateAfter Scenarios.S3)).
  - vm_compute. set_solver.
  - vm_compute. reflexivity.
  - vm_compute. lia.
Defined.

(** S3: the trust set gains [A] and [B], and [onReadyToExecute] is called
    once, for [A]. *)
Lemma S3_trust_fires_ready_once :
  ∃ s', trust 10 "B" (stateAfter Scenarios.S3) = Ok tt s'
        ∧ trustlist (stateAfter Scenarios.S3) = ∅
        ∧ trustlist s' = {["A"; "B"]}
        ∧ newEvents (stateAfter Scenarios.S3) s'
          = [(onReadyToExecute "A", 0); (onTrustTransaction "B", 0);
             (onTrustTransaction "A", 0)].
Proof. eexists. split; [vm_compute; reflexivity|]. by vm_compute. Qed.

(** C9, witness: S2 of the specification, [A] alone and with code. *)
Definition lonelyA : M unit :=
  addNewTransaction 100 "A" ;;
  storeParsedExecutableTransaction sampleMetadata 101 10 "A" "runA" true [] [] [].

Lemma trust_then_untrust_witness :
  (∀ s', (trust 10 "A" ;; untrust 10 "A") (stateAfter lonelyA) = Ok tt s' →
     (∀ t, t ∈ trustlist s' ↔
           t ∈ trustlist (stateAfter lonelyA)
           ∨ (t ≠ "A" ∧ trustedAncestor (stateAfter lonelyA) "A" t))
     ∧ ((∀ t, trustedAncestor (stateAfter lonelyA) "A" t → t = "A") →
        trustlist s' = trustlist (stateAfter lonelyA)))
  ∧ (acyclicWithin 10 (stateAfter lonelyA) = true →
     walkBoundOf (stateAfter lonelyA) "A" ≤ 10 →
     is_Some (unexecuted (stateAfter lonelyA) !! "A")
     ∨ getTransactionIndexedStmt (db (stateAfter lonelyA)) "A" = Some false →
     ∃ s', (trust 10 "A" ;; untrust 10 "A") (stateAfter lonelyA) = Ok tt s').
Proof.
  apply (trust_then_untrust 10 "A" (stateAfter lonelyA)).
  vm_compute. set_solver.
Defined.

(** C7, witness: [X] is stored as not executable, then [A] declares it as
    a dependency. *)
Definition storedX_newA : M unit :=
  addNewTransaction 100 "X" ;;
  storeParsedNonExecutableTransaction 10 "X" "data" [] [] ;;
  addNewTransaction 101 "A".

Lemma storeParsedExecutable_fails_on_unindexed_dep_witness :
  ∃ s',
    storeParsedExecutableTransaction sampleMetadata 102 10 "A" "runA" false ["X"] [] []
      (stateAfter storedX_newA) = Ok tt s'
    ∧ failedRow (db s') "A"
    ∧ unexecuted s' !! "A" = None
    ∧ queuedForExecution (theNode (heap s') 1) = false
    ∧ ∃ s0 s1, unexecuted s0 !! "A" = Some 1
               ∧ setTransactionExecutionFailed sampleMetadata 10 "A" s0 = Ok tt s1
               ∧ s' = upd_txDepth pred s1.
Proof.
  apply (storeParsedExecutable_fails_on_unindexed_dep sampleMetadata 102 10 "A" "runA"
           false ["X"] [] [] 1 "X" (stateAfter storedX_newA)).
  - vm_compute. reflexivity.
  - vm_compute. by eexists.
  - set_solver.
  - vm_compute. reflexivity.
  - vm_compute. reflexivity.
  - vm_compute. lia.
Defined.

(** C8, witness: S5 of the specification, the chain [A], [B], [C], all
    trusted; the bytes of [A] are those of an executable transaction. *)
Definition chainABC : M unit :=
  trust 10 "A" ;; trust 10 "B" ;; trust 10 "C" ;;
  addNewTransaction 100 "A" ;;
  addNewTransaction 101 "B" ;;
  addNewTransaction 102 "C" ;;
  storeParsedExecutableTransaction sampleMetadata 103 10 "A" "runA" true [] [] [] ;;
  storeParsedExecutableTransaction sampleMetadata 104 10 "B" "runB" true ["A"] [] [] ;;
  storeParsedExecutableTransaction sampleMetadata 105 10 "C" "runC" true ["B"] [] [].


(** S5: after [setTransactionExecutionFailed "A"], [B] and [C] have rows
    that say failed and the map is empty. *)
Lemma S5_failure_cascades :
  ∃ s', setTransactionExecutionFailed sampleMetadata 10 "A" (stateAfter chainABC) = Ok tt s'
        ∧ unexecuted s' = ∅
        ∧ (executable <$> t_tx (db s') !! "B") = Some false
        ∧ (executed <$> t_tx (db s') !! "B") = Some true
        ∧ (indexed <$> t_tx (db s') !! "B") = Some false
        ∧ (executable <$> t_tx (db s') !! "C") = Some false
        ∧ (executed <$> t_tx (db s') !! "C") = Some true
        ∧ (indexed <$> t_tx (db s') !! "C") = Some false.
Proof. eexists. split; [vm_compute; reflexivity|]. by vm_compute. Qed.

(** ** Concrete runs for the further properties *)

(** The lists agree with the tables: a test. *)
Lemma persisted_check s :
  bool_decide (trustlist s = dom (filter (λ kv, kv.2 = 1%Z) (t_trust (db s))))
  && bool_decide (banlist s = t_ban (db s)) = true →
  persisted s.
Proof.
  intros [Ht%bool_decide_eq_true Hb%bool_decide_eq_true]%andb_true_iff.
  split; [|done]. intros t. rewrite Ht, elem_of_dom. split.
  - intros [v Hv]. apply map_lookup_filter_Some in Hv as [Hv Hone]. cbn in Hone. by subst.
  - intros Hv. exists 1%Z. by apply map_lookup_filter_Some.
Qed.

(** [A] and [B] of S3 after [trust "B"] and [ban "A"]. *)
Definition trustedB_bannedA : M unit :=
  Scenarios.S3 ;; trust 10 "B" ;; ban 10 "A".

(** X2, witness: [A] is added at time 1700000000, then given height 700000. *)
Lemma setTransactionHeight_after_addNew_is_ignored_witness :
  ∃ s', (addNewTransaction 1700000000 "A" ;; setTransactionHeight "A" (Some 700000%Z))
          emptyDatabase = Ok tt s'
        ∧ getTransactionHeight s' "A" = Some (Some 1700000000%Z)
        ∧ db s' = db (addedNew 1700000000 "A" emptyDatabase).
Proof.
  apply (setTransactionHeight_after_addNew_is_ignored 1700000000 (Some 700000%Z) "A"
           emptyDatabase).
  - reflexivity.
  - unfold HEIGHT_MEMPOOL. lia.
Defined.

(** X3, witness: [A] of S3, whose row holds the time of insertion as its
    height. *)
Lemma setTransactionHeight_guard_witness :
  (∃ s', setTransactionHeight "A" (Some 700000%Z) (stateAfter Scenarios.S3) = Ok tt s'
         ∧ db s' = db (stateAfter Scenarios.S3))
  ∧ ∃ s', (unconfirmTransaction "A" ;; setTransactionHeight "A" (Some 700000%Z))
            (stateAfter Scenarios.S3) = Ok tt s'
          ∧ getTransactionHeight s' "A" = Some (Some 700000%Z).
Proof.
  destruct (setTransactionHeight_guard 100 (Some 700000%Z) "A" (stateAfter Scenarios.S3))
    as [Hkeep (s' & Hrun & Hh & _)].
  - vm_compute. reflexivity.
  - split.
    + apply Hkeep. unfold HEIGHT_MEMPOOL. lia.
    + by exists s'.
Defined.

(** X4, witness: the empty database has no node for [A]. *)
Lemma storeParsed_without_node_throws_witness :
  storeParsedNonExecutableTransaction 10 "A" "data" [] [] emptyDatabase
  = Threw emptyDatabase
  ∧ storeParsedExecutableTransaction sampleMetadata 100 10 "A" "runA" true [] [] []
      emptyDatabase = Threw emptyDatabase.
Proof.
  apply (storeParsed_without_node_throws sampleMetadata 100 10 "A" "runA" true [] [] []
           emptyDatabase).
  reflexivity.
Defined.

(** X5, witness: S3 after [trust "B"] and [ban "A"]. *)
Lemma registry_is_persisted_witness :
  left_by (trust 10 "A" (stateAfter trustedB_bannedA)) persisted
  ∧ left_by (untrust 10 "B" (stateAfter trustedB_bannedA)) persisted
  ∧ left_by (ban 10 "B" (stateAfter trustedB_bannedA)) persisted
  ∧ left_by (unban 10 "A" (stateAfter trustedB_bannedA)) persisted.
Proof.
  assert (Hp : persisted (stateAfter trustedB_bannedA)).
  { apply persisted_check. vm_compute. reflexivity. }
  destruct (registry_is_persisted 10 "A" (stateAfter trustedB_bannedA) Hp)
    as (H1 & _ & _ & H4).
  destruct (registry_is_persisted 10 "B" (stateAfter trustedB_bannedA) Hp)
    as (_ & H2 & H3 & _).
  exact (conj H1 (conj H2 (conj H3 H4))).
Defined.

(** X6, witness: the same state is read back. *)
Lemma reload_restores_registry_witness :
  ∃ s', (_loadTrustlist ;; _loadBanlist) (unloaded (stateAfter trustedB_bannedA)) = Ok tt s'
        ∧ trustlist s' = trustlist (stateAfter trustedB_bannedA)
        ∧ banlist s' = banlist (stateAfter trustedB_bannedA)
        ∧ db s' = db (stateAfter trustedB_bannedA).
Proof.
  apply (reload_restores_registry (stateAfter trustedB_bannedA)).
  apply persisted_check. vm_compute. reflexivity.
Defined.

(** X7, witness: [Z] is trusted before the database has seen it; it cannot
    be untrusted, nor banned. *)
Lemma registry_call_on_unknown_txid_throws_witness :
  (ban 10 "Z" (stateAfter (trust 10 "Z")) = Threw (stateAfter (trust 10 "Z")))
  ∧ untrust 10 "Z" (stateAfter (trust 10 "Z")) = Threw (stateAfter (trust 10 "Z")).
Proof.
  destruct (registry_call_on_unknown_txid_throws 10 "Z" (stateAfter (trust 10 "Z")))
    as [Hban Huntrust].
  - lia.
  - reflexivity.
  - reflexivity.
  - split; [apply Hban | apply Huntrust]; vm_compute; set_solver.
Defined.

(** X8, witness: S3 after [trust "B"], where [A] and [B] are queued;
    [ban "A"; unban "A"]. *)
Lemma ban_then_unban_witness :
  ∃ s', (ban 10 "A" ;; unban 10 "A") (stateAfter (Scenarios.S3 ;; trust 10 "B")) = Ok tt s'
        ∧ banlist s' = banlist (stateAfter (Scenarios.S3 ;; trust 10 "B"))
        ∧ flag s' 0 = true ∧ flag s' 1 = true.
Proof.
  destruct (ban_then_unban 10 "A" (stateAfter (Scenarios.S3 ;; trust 10 "B")))
    as (s' & Hrun & Hb & _ & _ & Hflags & _).
  - vm_compute. reflexivity.
  - vm_compute. reflexivity.
  - vm_compute. reflexivity.
  - vm_compute. set_solver.
  - vm_compute. by eexists.
  - exists s'. split; [done|]. split; [done|]. split.
    + rewrite (Hflags "A" 0); [|vm_compute; reflexivity]. vm_compute. reflexivity.
    + rewrite (Hflags "B" 1); [|vm_compute; reflexivity]. vm_compute. reflexivity.
Defined.

(** X9, witness: the chain [A], [B], [C]; [deleteTransaction "B"] deletes
    [B] and [C] and leaves [A]. *)
Lemma deleteTransaction_deletes_dependants_witness :
  ∃ deleted s',
    deleteTransaction 10 "B" ∅ (stateAfter chainABC) = Ok deleted s'
    ∧ (∀ t, t ∈ deleted ↔ dependsOn (t_deps (db (stateAfter chainABC))) "B" t)
    ∧ (∀ t, t ∈ deleted → hasTransaction s' t = false ∧ unexecuted s' !! t = None)
    ∧ (∀ t, t ∉ deleted → unexecuted s' !! t = unexecuted (stateAfter chainABC) !! t).
Proof.
  destruct (deleteTransaction_deletes_dependants 10 "B" (stateAfter chainABC))
    as (deleted & s' & Hrun & Hset & Hgone & Hkept & _).
  - vm_compute. lia.
  - exists deleted, s'. split; [done|]. split; [done|]. split.
    + intros t Ht. destruct (Hgone t Ht) as (? & ? & _). by split.
    + intros t Ht. by destruct (Hkept t Ht).
Defined.


(** X11, witness: S3, where [B] depends on [A] and neither is trusted. *)
Lemma getTransactionUntrusted_spec_witness :
  ∃ l, getTransactionUntrusted 10 "B" (stateAfter Scenarios.S3)
       = Ok l (stateAfter Scenarios.S3)
       ∧ NoDup l
       ∧ ∀ t, t ∈ l ↔ rtc (upstreamStep (stateAfter Scenarios.S3)) "B" t
                      ∧ t ∈ getAllUntrusted (stateAfter Scenarios.S3).
Proof.
  apply (getTransactionUntrusted_spec 10 "B" (stateAfter Scenarios.S3)).
  - vm_compute. reflexivity.
  - vm_compute. lia.
Defined.

(** S3: the walk from [B] lists [B] and [A]. *)
Lemma S3_untrusted_of_B :
  getTransactionUntrusted 10 "B" (stateAfter Scenarios.S3)
  = Ok ["B"; "A"] (stateAfter Scenarios.S3).
Proof. vm_compute. reflexivity. Qed.

(** The object that the constructor builds on the file of [s]: the tables
    are kept, the graph and the lists are empty. *)
Definition constructed (s : Database) : Database :=
  mkDatabase (db s) ∅ 0 ∅ ∅ ∅ 0%Z 0 [].

(** X12, witness: the file of S3 is opened again; the edge from [A] to [B]
    is rebuilt. *)
Lemma _loadUnexecuted_rebuilds_graph_witness :
  ∃ s1 s', (loadNodes ;; loadEdges) (constructed (stateAfter Scenarios.S3)) = Ok tt s1
           ∧ materialised s1 "A" "B" = true
           ∧ _loadUnexecuted 10 (constructed (stateAfter Scenarios.S3)) = Ok tt s'
           ∧ readyConsistent s' = true.
Proof.
  destruct (_loadUnexecuted_rebuilds_graph 10 (constructed (stateAfter Scenarios.S3)))
    as (s1 & Hrun & _ & Hkeys & _ & Hedges & Hload).
  - reflexivity.
  - reflexivity.
  - assert (Hacyc : acyclicWithin 10 s1 = true).
    { vm_compute in Hrun. injection Hrun as <-. vm_compute. reflexivity. }
    destruct (Hload Hacyc) as (s' & Hrun' & _ & Hc).
    exists s1, s'. split; [exact Hrun|]. split; [|split; [exact Hrun' | exact Hc]].
    apply Hedges. split; [|split].
    + vm_compute. apply list_elem_of_here.
    + vm_compute. reflexivity.
    + apply Hkeys. eexists. split; [vm_compute; reflexivity|]. left. reflexivity.
Defined.

(** A file in which the first txid of [DEFAULT_TRUSTLIST] was untrusted and
    [Z] was trusted. *)
Definition editedTrust : Tables :=
  upd_trust (λ m, <["Z" := 1%Z]>
                    (<["61e1265acb3d93f1bf24a593d70b2a6b1c650ec1df90ddece8d6954ae3cdd915"
                       := 0%Z]> m))
    emptyTables.

(** X13, witness: [open ()] on that file. *)
Lemma open_seeds_and_loads_witness :
  ∃ s0, open 10 editedTrust emptyDatabase = _loadUnexecuted 10 s0
        ∧ "Z" ∈ trustlist s0
        ∧ ("61e1265acb3d93f1bf24a593d70b2a6b1c650ec1df90ddece8d6954ae3cdd915" ∉ trustlist s0)
        ∧ "6fe169894d313b44bd54154f88e1f78634c7f5a23863d1713342526b86a39b8b" ∈ trustlist s0
        ∧ banlist s0 = ∅.
Proof.
  destruct (open_seeds_and_loads 10 editedTrust emptyDatabase)
    as (s0 & Hrun & _ & _ & Htl & Hbl & _).
  - reflexivity.
  - reflexivity.
  - exists s0. split; [exact Hrun|]. split; [|split; [|split; [|exact Hbl]]].
    + apply Htl. left. reflexivity.
    + intros [H|[_ H]]%Htl; vm_compute in H; discriminate H.
    + apply Htl. right. split; [|reflexivity].
      apply list_elem_of_further, list_elem_of_here.
Defined.

(** X15, witness: [A] is added, then stored as not executable with one
    input and one output. *)
Lemma storeParsedNonExecutable_stores_witness :
  ∃ s', storeParsedNonExecutableTransaction 10 "A" "data" ["X_o1"] ["A_o1"]
          (stateAfter (addNewTransaction 100 "A")) = Ok tt s'
        ∧ unexecuted s' !! "A" = None
        ∧ isTransactionDownloaded "A" s' = Ok true s'
        ∧ getSpend s' "X_o1" = Some (Some "A")
        ∧ getSpend s' "A_o1" = Some None.
Proof.
  destruct (storeParsedNonExecutable_stores 10 "A" "data" ["X_o1"] ["A_o1"] 0
              (stateAfter (addNewTransaction 100 "A")))
    as (s' & Hrun & Hmap & Hdl & _ & _ & Hin & Hout & _).
  - vm_compute. reflexivity.
  - reflexivity.
  - reflexivity.
  - exists s'. split; [exact Hrun|]. split; [|split; [exact Hdl|split]].
    + rewrite Hmap. apply lookup_delete_eq.
    + apply Hin. apply list_elem_of_here.
    + rewrite (Hout "A_o1"); [reflexivity | apply list_elem_of_here |].
      intros [=]%list_elem_of_singleton.
Defined.

(** X16, witness: [A] without code is queued, then stored as executed with
    the state of one jig. *)
Lemma storeExecutedTransaction_indexes_witness :
  ∃ s', storeExecutedTransaction "A" (mkResult [("jig://A_o1", "state")] [] [] [])
          (stateAfter Scenarios.queuedA) = Ok tt s'
        ∧ unexecuted s' !! "A" = None
        ∧ numQueuedForExecution s' = 0%Z
        ∧ is_Some (getJigState s' "A_o1").
Proof.
  destruct (storeExecutedTransaction_indexes "A" (mkResult [("jig://A_o1", "state")] [] [] [])
              0 (stateAfter Scenarios.queuedA))
    as (s' & Hrun & Hmap & _ & Hnum & _ & _ & _ & _ & Hjig).
  - reflexivity.
  - reflexivity.
  - exists s'. split; [exact Hrun|]. split; [|split].
    + rewrite Hmap. apply lookup_delete_eq.
    + rewrite Hnum. reflexivity.
    + apply (Hjig "A_o1" "state"). apply list_elem_of_here.
Defined.
